(** * Pandora: appearance limits, appearance actions and storage / room state

    A shallow embedding of three parts of the Pandora sources:

    - [AppearanceLimit]: the pose constraint tree of
      [pandora-common/src/assets/appearanceLimit.ts]
      ([TreeLimit], [TreeNode], [AppearanceLimitTree]);
    - [AppearanceActions]: [DoAppearanceAction], and in
      [SharedAppearances] the same function on [Appearance] objects that
      several character ids may hold;
    - [Inventory]: the storage module ([ValidateStorage],
      [ItemModuleStorage]) and [AssetFrameworkRoomState], and in
      [BundleSchema] the schema that [loadFromBundle] parses its data with;
    - [Properties]: [MergeAssetProperties] of
      [pandora-common/src/assets/properties.ts].

    The definitions come first; they are followed by the predicates and the
    sample data that the statements use, and by the theorems, one module
    per part.

    JavaScript numbers that the code uses as integers (bone rotations, enum
    indices, counts) are modelled as [Z]; [Infinity], which the pose solver
    uses as the initial distance, is a separate constructor.  A JavaScript
    [Map] with string keys is a [gmap string _]: none of the modelled loops
    depends on the iteration order of its map. *)

From stdpp Require Import gmap strings list fin_maps.

Local Open Scope Z_scope.

Module AppearanceLimit.

(** ** Numbers with [Infinity] *)

Inductive Num : Type :=
| Fin (z : Z)
| Infinity.

Definition Num_add (a b : Num) : Num :=
  match a, b with
  | Fin x, Fin y => Fin (x + y)
  | _, _ => Infinity
  end.

(** [a < b] on JavaScript numbers restricted to integers and [Infinity]. *)
Definition Num_lt (a b : Num) : bool :=
  match a, b with
  | Fin x, Fin y => x <? y
  | Fin _, Infinity => true
  | Infinity, _ => false
  end.

(** [a === 0] *)
Definition Num_is_zero (a : Num) : bool :=
  match a with
  | Fin x => x =? 0
  | Infinity => false
  end.

(** ** Interval sets *)

Abbreviation Interval := (Z * Z)%type.
Abbreviation TreeLimit := (gmap string (list (Z * Z))).
Abbreviation PoseData := (gmap string Z).

(** [value >= min && value <= max] *)
Definition in_interval (value : Z) (iv : Interval) : bool :=
  (value >=? iv.1) && (value <=? iv.2).

(** Modelled from the spec: [IntervalSetIntersection] is imported from
    [../utility], which is outside the modules embedded here.  The spec says:
    "interval-set intersection = union of pairwise overlaps of two interval
    lists". *)
Definition IntervalSetIntersection (a b : list Interval) : list Interval :=
  flat_map (λ x : Interval,
    flat_map (λ y : Interval,
      let lo := Z.max x.1 y.1 in
      let hi := Z.min x.2 y.2 in
      if lo <=? hi then [(lo, hi)] else []) b) a.

(** ** [class TreeLimit] *)

(** [TreeLimit.validate] *)
Definition TreeLimit_validate (limit : TreeLimit) (data : PoseData) : bool :=
  map_fold (λ key value ok,
    ok && match limit !! key with
          | None => true
          | Some l => existsb (in_interval value) l
          end) true data.

(** The inner loop of [TreeLimit.force] over the intervals of one key. *)
Fixpoint force_value (value : Z) (limit : list Interval)
    (minDiff : Num) (minDiffValue : Z) : Num * Z :=
  match limit with
  | [] => (minDiff, minDiffValue)
  | (min, max) :: rest =>
      if (value >=? min) && (value <=? max) then (Fin 0, value)
      else
        let diffMin := Fin (Z.abs (value - min)) in
        let '(minDiff, minDiffValue) :=
          if Num_lt diffMin minDiff then (diffMin, min)
          else (minDiff, minDiffValue) in
        let diffMax := Fin (Z.abs (value - max)) in
        let '(minDiff, minDiffValue) :=
          if Num_lt diffMax minDiff then (diffMax, max)
          else (minDiff, minDiffValue) in
        force_value value rest minDiff minDiffValue
  end.

(** [TreeLimit.force] *)
Definition TreeLimit_force (limit : TreeLimit) (data : PoseData)
    : Num * PoseData :=
  map_fold (λ key value (acc : Num * PoseData),
    let '(totalDiff, newData) := acc in
    match limit !! key with
    | None => (totalDiff, <[key := value]> newData)
    | Some l =>
        let '(minDiff, minDiffValue) := force_value value l Infinity value in
        (Num_add totalDiff minDiff, <[key := minDiffValue]> newData)
    end) (Fin 0, data) data.

(** [TreeLimit.hasNoLimits] *)
Definition TreeLimit_hasNoLimits (limit : TreeLimit) : bool :=
  bool_decide (size limit = 0%nat).

(** [TreeLimit.intersection]: [None] is the [null] result. *)
Definition TreeLimit_intersection (this other : TreeLimit)
    : option TreeLimit :=
  map_fold (λ key value (acc : option TreeLimit),
    match acc with
    | None => None
    | Some newLimit =>
        match other !! key with
        | None => Some newLimit
        | Some otherValue =>
            let newValue := IntervalSetIntersection value otherValue in
            if bool_decide (length newValue = 0%nat) then None
            else Some (<[key := newValue]> newLimit)
        end
    end) (Some ∅) this.

(** [TreeLimit.extend] *)
Definition TreeLimit_extend (this other : TreeLimit) : TreeLimit :=
  map_fold (λ key value (newLimit : TreeLimit),
    match newLimit !! key with
    | Some _ => newLimit
    | None => <[key := value]> newLimit
    end) this other.

(** [TreeLimit.prune]; [_.isEqual] on two interval lists is list equality. *)
Definition TreeLimit_prune (this other : TreeLimit) : TreeLimit :=
  map_fold (λ key value (newLimit : TreeLimit),
    match newLimit !! key with
    | None => newLimit
    | Some newValue =>
        if bool_decide (newValue = value) then delete key newLimit
        else newLimit
    end) this other.

(** ** [class TreeNode] *)

#[warnings="-register-all"]
Inductive TreeNode : Type :=
| Node (limit : TreeLimit) (children : option (list TreeNode)).

Definition node_limit (n : TreeNode) : TreeLimit :=
  match n with Node limit _ => limit end.

Definition node_children (n : TreeNode) : option (list TreeNode) :=
  match n with Node _ children => children end.

(** [new TreeNode()] *)
Definition TreeNode_new : TreeNode := Node ∅ None.

(** [TreeNode.validate] *)
Fixpoint TreeNode_validate (n : TreeNode) (data : PoseData) : bool :=
  match n with
  | Node limit children =>
      if negb (TreeLimit_validate limit data) then false
      else
        match children with
        | None => true
        | Some cs => existsb (λ child, TreeNode_validate child data) cs
        end
  end.

(** The loop of [TreeNode.force] over the children, which keeps the result
    of least distance and stops as soon as [minDiff === 0];
    [forceChild child] is [child.force(newData)]. *)
Definition force_children (forceChild : TreeNode → Num * PoseData)
    : list TreeNode → Num → option PoseData → Num * option PoseData :=
  fix loop (cs : list TreeNode) (minDiff : Num) (minData : option PoseData) :=
    match cs with
    | [] => (minDiff, minData)
    | child :: rest =>
        let '(childDiff, childData) := forceChild child in
        let '(minDiff, minData) :=
          if Num_lt childDiff minDiff then (childDiff, Some childData)
          else (minDiff, minData) in
        if Num_is_zero minDiff then (minDiff, minData)
        else loop rest minDiff minData
    end.

(** [TreeNode.force] *)
Fixpoint TreeNode_force (n : TreeNode) (data : PoseData) : Num * PoseData :=
  match n with
  | Node limit children =>
      let '(diff, newData) := TreeLimit_force limit data in
      match children with
      | None => (diff, newData)
      | Some cs =>
          let '(minDiff, minData) :=
            force_children (λ child, TreeNode_force child newData)
                           cs Infinity None in
          match minData with
          | None => (diff, newData)
          | Some minData => (Num_add diff minDiff, minData)
          end
      end
  end.

(** [TreeNode.hasNoLimits] *)
Definition TreeNode_hasNoLimits (n : TreeNode) : bool :=
  TreeLimit_hasNoLimits (node_limit n)
  && match node_children n with None => true | Some _ => false end.

(** [TreeNode.fromResult] *)
Definition fromResult (limit : TreeLimit) (children : list TreeNode)
    : option TreeNode :=
  match children with
  | [] => None
  | [child] =>
      Some (Node (TreeLimit_extend (node_limit child) limit)
                 (node_children child))
  | _ => Some (Node limit (Some children))
  end.

(** [TreeNode.intersectionWithLimit] *)
Fixpoint intersectionWithLimit (this : TreeNode) (limit : TreeLimit)
    (prune : bool) : option TreeNode :=
  match this with
  | Node thisLimit children =>
      match TreeLimit_intersection thisLimit limit with
      | None => None
      | Some intersection =>
          let newLimit :=
            if prune
            then TreeLimit_prune (TreeLimit_extend intersection thisLimit) limit
            else TreeLimit_extend (TreeLimit_extend intersection thisLimit) limit in
          match children with
          | None => Some (Node newLimit None)
          | Some cs =>
              let childLimiter := TreeLimit_prune newLimit thisLimit in
              let newChildren :=
                omap (λ child, intersectionWithLimit child childLimiter true) cs in
              fromResult newLimit newChildren
          end
      end
  end.

(** [TreeNode.intersection]; the recursion descends into [other]. *)
Fixpoint TreeNode_intersection (this other : TreeNode) {struct other}
    : option TreeNode :=
  match other with
  | Node otherLimit otherChildren =>
      match intersectionWithLimit this otherLimit false with
      | None => None
      | Some next =>
          match otherChildren with
          | None => Some next
          | Some ocs =>
              let nodes :=
                match node_children next with
                | None =>
                    omap (λ child,
                      intersectionWithLimit child (node_limit next) true) ocs
                | Some children =>
                    flat_map (λ otherChild,
                      omap (λ child, TreeNode_intersection child otherChild)
                           children) ocs
                end in
              fromResult (node_limit next) nodes
          end
      end
  end.

(** ** Poses and pose-limit definitions *)

(** [AppearanceArmPose]: [position] is a value of the numeric enum
    [ArmsPose]; [rotation] and [fingers] are members of the string enums
    [ArmRotationSchema] and [ArmFingersSchema]. *)
Record AppearanceArmPose : Type := mkArmPose {
  position : Z;
  rotation : string;
  fingers : string;
}.

(** [Partial<AppearanceArmPose>]: an absent field is [None]. *)
Record PartialArmPose : Type := mkPartialArmPose {
  p_position : option Z;
  p_rotation : option string;
  p_fingers : option string;
}.

(** [AppearancePose] *)
Record AppearancePose : Type := mkPose {
  bones : gmap string Z;
  leftArm : AppearanceArmPose;
  rightArm : AppearanceArmPose;
  view : Z;
}.

(** [PartialAppearancePose] *)
Record PartialAppearancePose : Type := mkPartialPose {
  pp_bones : option (gmap string Z);
  pp_leftArm : option PartialArmPose;
  pp_rightArm : option PartialArmPose;
  pp_arms : option PartialArmPose;
  pp_view : option Z;
}.

(** A bone entry of a pose-limit definition: a single number or a list of
    intervals. *)
Inductive BoneLimit : Type :=
| BoneValue (value : Z)
| BoneIntervals (intervals : list Interval).

(** [AssetDefinitionPoseLimits]: an [AssetDefinitionPoseLimit] with optional
    nested [options].  A bone entry whose value is [null] is [None]. *)
#[warnings="-register-all"]
Inductive AssetDefinitionPoseLimits : Type :=
| PoseLimits
    (l_bones : option (list (string * option BoneLimit)))
    (l_leftArm l_rightArm l_arms : option PartialArmPose)
    (l_view : option Z)
    (l_options : option (list AssetDefinitionPoseLimits)).

(** The enums and the default pose are declared in files outside the modules
    embedded here ([./appearance], [./graphics/graphics]); the solver is
    parametric in them. *)
Class Schemas : Type := {
  (** [ArmRotationSchema.options] *)
  ArmRotationSchema_options : list string;
  (** [ArmFingersSchema.options] *)
  ArmFingersSchema_options : list string;
  (** the numbers [n] with [ArmsPose[n] != null] *)
  ArmsPose_values : list Z;
  (** the numbers [n] with [CharacterView[n] != null] *)
  CharacterView_values : list Z;
  (** [CharacterView.FRONT] *)
  CharacterView_FRONT : Z;
  (** [GetDefaultAppearanceBundle()], restricted to its pose fields *)
  GetDefaultAppearanceBundle : AppearancePose;
}.

(** [Array.prototype.indexOf]: the first index, or [-1]. *)
Fixpoint indexOf_from (i : Z) (l : list string) (x : string) : Z :=
  match l with
  | [] => -1
  | y :: l' => if bool_decide (y = x) then i else indexOf_from (i + 1) l' x
  end.

Definition indexOf (l : list string) (x : string) : Z := indexOf_from 0 l x.

(** [options[i]] for a number [i]: [None] is [undefined]. *)
Definition option_at (l : list string) (i : Z) : option string :=
  if i <? 0 then None else l !! Z.to_nat i.

(** [{ ...arms, ...arm }] on two optional partial arm poses. *)
Definition spread_arm (arms arm : option PartialArmPose) : PartialArmPose :=
  let get {A} (f : PartialArmPose → option A) : option A :=
    match arm ≫= f with
    | Some x => Some x
    | None => arms ≫= f
    end in
  mkPartialArmPose (get p_position) (get p_rotation) (get p_fingers).

(** [s.startsWith(prefix)] together with [s.slice(prefix.length)]. *)
Fixpoint strip_prefix (prefix s : string) : option string :=
  match prefix, s with
  | EmptyString, _ => Some s
  | String a prefix', String b s' =>
      if bool_decide (a = b) then strip_prefix prefix' s' else None
  | String _ _, EmptyString => None
  end.

Definition to_partial_arm (a : AppearanceArmPose) : PartialArmPose :=
  mkPartialArmPose (Some (position a)) (Some (rotation a)) (Some (fingers a)).

(** An [AppearancePose] read as a [PartialAppearancePose] (subtyping). *)
Definition to_partial (pose : AppearancePose) : PartialAppearancePose :=
  mkPartialPose (Some (bones pose))
                (Some (to_partial_arm (leftArm pose)))
                (Some (to_partial_arm (rightArm pose)))
                None
                (Some (view pose)).

Section WithSchemas.
Context `{Schemas}.

(** [FromArmPose] *)
Definition FromArmPose (data : PoseData) (prefix : string)
    (arm : PartialArmPose) : PoseData :=
  let data :=
    match p_position arm with
    | Some position => <[prefix +:+ ".position" := position]> data
    | None => data
    end in
  let data :=
    match p_rotation arm with
    | Some rotation =>
        <[prefix +:+ ".rotation" := indexOf ArmRotationSchema_options rotation]> data
    | None => data
    end in
  match p_fingers arm with
  | Some fingers =>
      <[prefix +:+ ".fingers" := indexOf ArmFingersSchema_options fingers]> data
  | None => data
  end.

(** [FromPose] *)
Definition FromPose (pose : PartialAppearancePose) : PoseData :=
  let data : PoseData :=
    match pp_bones pose with
    | Some bones =>
        map_fold (λ key value (data : PoseData),
                    <["bones." +:+ key := value]> data) ∅ bones
    | None => ∅
    end in
  let data := FromArmPose data "leftArm" (spread_arm (pp_arms pose) (pp_leftArm pose)) in
  let data := FromArmPose data "rightArm" (spread_arm (pp_arms pose) (pp_rightArm pose)) in
  match pp_view pose with
  | Some view => <["view" := if bool_decide (view = CharacterView_FRONT) then 0 else 1]> data
  | None => data
  end.

(** [FromArmLimit] *)
Definition FromArmLimit (data : TreeLimit) (prefix : string)
    (arm : PartialArmPose) : TreeLimit :=
  let data :=
    match p_position arm with
    | Some position => <[prefix +:+ ".position" := [(position, position)]]> data
    | None => data
    end in
  let data :=
    match p_rotation arm with
    | Some rotation =>
        let index := indexOf ArmRotationSchema_options rotation in
        <[prefix +:+ ".rotation" := [(index, index)]]> data
    | None => data
    end in
  match p_fingers arm with
  | Some fingers =>
      let index := indexOf ArmFingersSchema_options fingers in
      <[prefix +:+ ".fingers" := [(index, index)]]> data
  | None => data
  end.

(** [FromLimit], on the fields of one [AssetDefinitionPoseLimit]. *)
Definition FromLimit
    (l_bones : option (list (string * option BoneLimit)))
    (l_leftArm l_rightArm l_arms : option PartialArmPose)
    (l_view : option Z) : TreeLimit :=
  let data : TreeLimit :=
    match l_bones with
    | Some bones =>
        foldl (λ (data : TreeLimit) (entry : string * option BoneLimit),
          match entry.2 with
          | None => data
          | Some (BoneValue value) =>
              <["bones." +:+ entry.1 := [(value, value)]]> data
          | Some (BoneIntervals value) =>
              <["bones." +:+ entry.1 := value]> data
          end) ∅ bones
    | None => ∅
    end in
  let data := FromArmLimit data "leftArm" (spread_arm l_arms l_leftArm) in
  let data := FromArmLimit data "rightArm" (spread_arm l_arms l_rightArm) in
  match l_view with
  | Some view => <["view" := [(view, view)]]> data
  | None => data
  end.

(** [CreateTreeNode] *)
Fixpoint CreateTreeNode (limits : AssetDefinitionPoseLimits) : TreeNode :=
  match limits with
  | PoseLimits l_bones l_leftArm l_rightArm l_arms l_view l_options =>
      let nodeChildren :=
        match l_options with
        | None => None
        | Some options => Some (map CreateTreeNode options)
        end in
      Node (FromLimit l_bones l_leftArm l_rightArm l_arms l_view) nodeChildren
  end.

(** [ToArmPose]: updates one arm of the pose under construction. *)
Definition ToArmPose (data : PoseData) (prefix : string)
    (arm : AppearanceArmPose) : AppearanceArmPose :=
  let arm :=
    match data !! (prefix +:+ ".position") with
    | Some position =>
        if bool_decide (position ∈ ArmsPose_values)
        then mkArmPose position (rotation arm) (fingers arm) else arm
    | None => arm
    end in
  let arm :=
    match data !! (prefix +:+ ".rotation") with
    | Some rotation =>
        match option_at ArmRotationSchema_options rotation with
        | Some r => mkArmPose (position arm) r (fingers arm)
        | None => arm
        end
    | None => arm
    end in
  match data !! (prefix +:+ ".fingers") with
  | Some fingers =>
      match option_at ArmFingersSchema_options fingers with
      | Some f => mkArmPose (position arm) (rotation arm) f
      | None => arm
      end
  | None => arm
  end.

(** [ToPose].  The bones are assigned to the plain object of the default
    bundle, [pose.bones[bone] = value]: the assignment of a number to
    [__proto__] creates no property on such an object, every other name
    does. *)
Definition ToPose (data : PoseData) : AppearancePose :=
  let pose := GetDefaultAppearanceBundle in
  let left := ToArmPose data "leftArm" (leftArm pose) in
  let right := ToArmPose data "rightArm" (rightArm pose) in
  let view :=
    match data !! "view" with
    | Some view =>
        if bool_decide (view ∈ CharacterView_values) then view else AppearanceLimit.view pose
    | None => AppearanceLimit.view pose
    end in
  let bones :=
    map_fold (λ key value (bones : gmap string Z),
      match strip_prefix "bones." key with
      | None => bones
      | Some bone =>
          if bool_decide (bone = "__proto__") then bones
          else <[bone := value]> bones
      end) (bones pose) data in
  mkPose bones left right view.

(** ** [class AppearanceLimitTree] *)

(** The only field is the mutable [root]; methods that assign it return the
    new tree next to their result. *)
Record AppearanceLimitTree : Type := mkTree {
  root : option TreeNode;
}.

(** [new AppearanceLimitTree()] *)
Definition AppearanceLimitTree_new : AppearanceLimitTree :=
  mkTree (Some TreeNode_new).

(** [get valid] *)
Definition valid (t : AppearanceLimitTree) : bool :=
  match root t with Some _ => true | None => false end.

(** [AppearanceLimitTree.hasNoLimits] *)
Definition hasNoLimits (t : AppearanceLimitTree) : bool :=
  match root t with
  | Some r => TreeNode_hasNoLimits r
  | None => false
  end.

(** [AppearanceLimitTree.validate] *)
Definition validate (t : AppearanceLimitTree) (pose : PartialAppearancePose)
    : bool :=
  match root t with
  | Some r => TreeNode_validate r (FromPose pose)
  | None => false
  end.

(** The result [{ pose, changed }] of [force]. *)
Record ForceResult : Type := mkForceResult {
  fr_pose : AppearancePose;
  fr_changed : bool;
}.

(** [AppearanceLimitTree.force] *)
Definition force (t : AppearanceLimitTree) (pose : AppearancePose)
    : ForceResult :=
  match root t with
  | None => mkForceResult pose false
  | Some r =>
      let '(diff, data) := TreeNode_force r (FromPose (to_partial pose)) in
      if Num_is_zero diff then mkForceResult pose false
      else mkForceResult (ToPose data) true
  end.

(** [AppearanceLimitTree.merge]: the returned pair is the boolean result and
    the tree after the call. *)
Definition merge (t : AppearanceLimitTree)
    (limits : option AssetDefinitionPoseLimits)
    : bool * AppearanceLimitTree :=
  match root t with
  | None => (false, t)
  | Some r =>
      match limits with
      | None => (true, t)
      | Some limits =>
          let root' := TreeNode_intersection r (CreateTreeNode limits) in
          (match root' with Some _ => true | None => false end, mkTree root')
      end
  end.

(** The tree left by a sequence of [merge] calls. *)
Definition merge_all (t : AppearanceLimitTree)
    (ls : list (option AssetDefinitionPoseLimits)) : AppearanceLimitTree :=
  foldl (λ t limits, (merge t limits).2) t ls.

End WithSchemas.

End AppearanceLimit.

Module AppearanceActions.

Abbreviation CharacterId := string.
Abbreviation ItemId := string.
Abbreviation AssetId := string.

(** The [type] tag of the two pose actions, as passed to [importPose]. *)
Inductive PoseActionType : Type :=
| TypePose
| TypeBody.

(** [AppearanceAction]: the discriminated union of the four action shapes.
    The payload of a pose action is [z.record(z.string(), z.number())]. *)
Inductive AppearanceAction : Type :=
| ActionCreate (target : CharacterId) (itemId : ItemId) (asset : AssetId)
| ActionDelete (target : CharacterId) (itemId : ItemId)
| ActionPose (target : CharacterId) (pose : gmap string Z)
| ActionBody (target : CharacterId) (pose : gmap string Z).

Definition action_target (action : AppearanceAction) : CharacterId :=
  match action with
  | ActionCreate target _ _ => target
  | ActionDelete target _ => target
  | ActionPose target _ => target
  | ActionBody target _ => target
  end.

Section Actions.

(** The classes [Appearance], [Asset] and [AssetManager] are declared
    outside the modules embedded here; [DoAppearanceAction] only calls the
    methods below.
    The two [allow...] queries return a boolean; the three mutators change
    the [Appearance] object they are called on, which the model renders as
    the new value of that object. *)
Context {Appearance Asset AssetManager : Type}.
Variable getAssetById : AssetManager → AssetId → option Asset.
Variable allowCreateItem : Appearance → ItemId → Asset → bool.
Variable createItem : Appearance → ItemId → Asset → Appearance.
Variable allowRemoveItem : Appearance → ItemId → bool.
Variable removeItem : Appearance → ItemId → Appearance.
Variable importPose : Appearance → gmap string Z → PoseActionType → Appearance.

(** [AppearanceActionContext]; [roomInventory] is always [null].  The
    [characters] map holds one [Appearance] object per character id; a
    mutation of the object found under a key is an update of that key. *)
Record AppearanceActionContext : Type := mkContext {
  player : CharacterId;
  characters : gmap CharacterId Appearance;
}.

Definition update_target (context : AppearanceActionContext)
    (target : CharacterId) (appearance : Appearance)
    : AppearanceActionContext :=
  mkContext (player context) (<[target := appearance]> (characters context)).

(** [DoAppearanceAction]: the boolean it returns, and the context as the call
    leaves it. *)
Definition DoAppearanceAction (action : AppearanceAction)
    (context : AppearanceActionContext) (assetManager : AssetManager)
    (dryRun : bool) : bool * AppearanceActionContext :=
  match characters context !! action_target action with
  | None => (false, context)
  | Some appearance =>
      match action with
      | ActionCreate target itemId assetId =>
          match getAssetById assetManager assetId with
          | None => (false, context)
          | Some asset =>
              if negb (allowCreateItem appearance itemId asset)
              then (false, context)
              else if negb dryRun
              then (true, update_target context target
                            (createItem appearance itemId asset))
              else (true, context)
          end
      | ActionDelete target itemId =>
          if negb (allowRemoveItem appearance itemId) then (false, context)
          else if negb dryRun
          then (true, update_target context target
                        (removeItem appearance itemId))
          else (true, context)
      | ActionBody target pose =>
          if negb (bool_decide (player context = target)) then (false, context)
          else if negb dryRun
          then (true, update_target context target
                        (importPose appearance pose TypeBody))
          else (true, context)
      | ActionPose target pose =>
          if negb (bool_decide (player context = target)) then (false, context)
          else if negb dryRun
          then (true, update_target context target
                        (importPose appearance pose TypePose))
          else (true, context)
      end
  end.

End Actions.

End AppearanceActions.

Module Inventory.

Abbreviation ItemId := string.
Abbreviation AssetId := string.
Abbreviation AssetSize := string.

(** [IModuleConfigStorage] *)
Record IModuleConfigStorage : Type := mkConfig {
  maxCount : Z;
  maxAcceptedSize : AssetSize;
}.

(** Modelled from the spec: the class [Asset] is declared in [../asset],
    outside the modules embedded here.  The spec describes it as an "immutable
    definition {id, ..., size, ..., module configs}"; the model keeps [id],
    [definition.size] and the configurations of the storage modules, the one
    module kind that is embedded here. *)
Record Asset : Type := mkAsset {
  asset_id : AssetId;
  asset_size : AssetSize;
  asset_modules : list (string * IModuleConfigStorage);
}.

(** Modelled from the spec: the class [AssetManager] is declared in
    [../assetManager], outside the modules embedded here; "provides lookup by
    id": [getAssetById(id) → Asset | undefined]. *)
Abbreviation AssetManager := (gmap AssetId Asset).

Definition getAssetById (assetManager : AssetManager) (id : AssetId)
    : option Asset :=
  assetManager !! id.

(** Modelled from the spec: [ItemBundle] is declared in [../item], outside the
    modules embedded here: "ItemBundle {id, asset, color[], modules:
    map}".  The data of a storage module, [{ type: 'storage', contents }], is
    its [contents]. *)
#[warnings="-register-all"]
Inductive ItemBundle : Type :=
| mkItemBundle (id : ItemId) (asset : AssetId) (color : list string)
    (modules : list (string * list ItemBundle)).

Definition b_id (b : ItemBundle) : ItemId :=
  match b with mkItemBundle id _ _ _ => id end.
Definition b_asset (b : ItemBundle) : AssetId :=
  match b with mkItemBundle _ asset _ _ => asset end.
Definition b_color (b : ItemBundle) : list string :=
  match b with mkItemBundle _ _ color _ => color end.
Definition b_modules (b : ItemBundle) : list (string * list ItemBundle) :=
  match b with mkItemBundle _ _ _ modules => modules end.

(** The fields of [class ItemModuleStorage], over the type of items. *)
Record ItemModuleStorageOf (I : Type) : Type := mkStorage {
  assetMananger : AssetManager;
  config : IModuleConfigStorage;
  contents : list I;
}.
Arguments mkStorage {I} _ _ _.
Arguments assetMananger {I} _.
Arguments config {I} _.
Arguments contents {I} _.

(** Modelled from the spec: the class [Item] is declared in [../item], outside
    the modules embedded here: "Item: {id (unique per character/room scope),
    asset ref, color[] (per colorization slot), modules: map(moduleName →
    ModuleState)}". *)
#[warnings="-register-all"]
Inductive Item : Type :=
| mkItem (id : ItemId) (asset : Asset) (color : list string)
    (modules : list (string * ItemModuleStorageOf Item)).

Abbreviation ItemModuleStorage := (ItemModuleStorageOf Item).

Definition item_id (i : Item) : ItemId :=
  match i with mkItem id _ _ _ => id end.
Definition item_asset (i : Item) : Asset :=
  match i with mkItem _ asset _ _ => asset end.
Definition item_color (i : Item) : list string :=
  match i with mkItem _ _ color _ => color end.
Definition item_modules (i : Item) : list (string * ItemModuleStorage) :=
  match i with mkItem _ _ _ modules => modules end.

(** [AppearanceItems] *)
Abbreviation AppearanceItems := (list Item).

(** The [error] of a failed [AppearanceValidationResult], restricted to the
    problems that the embedded modules raise. *)
Inductive AppearanceValidationError : Type :=
| ProblemInvalid
| ProblemTooManyItems (asset : option AssetId) (limit : Z)
| ProblemContentNotAllowed (asset : AssetId).

(** [AppearanceValidationResult] *)
Inductive AppearanceValidationResult : Type :=
| Success
| Failure (error : AppearanceValidationError).

Definition success (r : AppearanceValidationResult) : bool :=
  match r with Success => true | Failure _ => false end.

(** Modelled from the spec: [AppearanceValidationCombineResults] is declared
    in [../appearanceValidation], outside the modules embedded
    here.  Validation reports "success|failure with a typed problem"; the
    combination of two results is the first failure, if any. *)
Definition AppearanceValidationCombineResults
    (result1 result2 : AppearanceValidationResult)
    : AppearanceValidationResult :=
  match result1 with
  | Success => result2
  | Failure _ => result1
  end.

(** The [Logger]: the warnings written so far.  A call
    [logger?.warning(message)] does nothing when no logger was passed. *)
Abbreviation Logger := (list string).

Definition warning (logger : option Logger) (message : string)
    : option Logger :=
  (λ written, written ++ [message]) <$> logger.

(** What a call leaves: the value it returns, or the error it throws. *)
Inductive Outcome (A : Type) : Type :=
| Returned (value : A)
| Thrown (message : string).
Arguments Returned {A} _.
Arguments Thrown {A} _.

Section WithSizes.

(** The table [AssetSizeMapping] is declared in [../definitions], outside the
    modules embedded here; a size class that is not in the table maps to
    [undefined]. *)
Variable AssetSizeMapping : AssetSize → option Z.

(** The first loop of [ValidateStorage]: [true] when an item id is met that
    the set [ids] already has. *)
Fixpoint has_repeated_id (ids : gset ItemId) (contents : AppearanceItems)
    : bool :=
  match contents with
  | [] => false
  | item :: rest =>
      if bool_decide (item_id item ∈ ids) then true
      else has_repeated_id ({[item_id item]} ∪ ids) rest
  end.

(** [ValidateStorage]; [validate] is [Item.validate]. *)
Definition ValidateStorage
    (validate : Item → bool → AppearanceValidationResult)
    (contents : AppearanceItems) (config : IModuleConfigStorage)
    : AppearanceValidationResult :=
  if has_repeated_id ∅ contents then Failure ProblemInvalid
  else if Z.of_nat (length contents) >? maxCount config
  then Failure (ProblemTooManyItems None (maxCount config))
  else
    let limitSize := default 0 (AssetSizeMapping (maxAcceptedSize config)) in
    let problematic :=
      find (λ i, default 99 (AssetSizeMapping (asset_size (item_asset i)))
                 >? limitSize) contents in
    match problematic with
    | Some problematic =>
        Failure (ProblemContentNotAllowed (asset_id (item_asset problematic)))
    | None =>
        foldl AppearanceValidationCombineResults Success
              (map (λ i, validate i false) contents)
    end.

(** Modelled from the spec: [Item.validate] is declared in [../item], outside
    the modules embedded here.  The spec lists the rules that apply to an item
    on its own: "container-specific caps", checked by the validation of each
    of its modules; the results are combined. *)
Fixpoint Item_validate (item : Item) (isWorn : bool)
    : AppearanceValidationResult :=
  match item with
  | mkItem _ _ _ modules =>
      foldl AppearanceValidationCombineResults Success
            (map (λ m : string * ItemModuleStorage,
                    ValidateStorage Item_validate (contents m.2) (config m.2))
                 modules)
  end.

(** [ItemModuleStorage.validate] *)
Definition ItemModuleStorage_validate (module : ItemModuleStorage)
    (isWorn : bool) : AppearanceValidationResult :=
  ValidateStorage Item_validate (contents module) (config module).

(** [StorageModuleDefinition.parseData]: data that does not parse as storage
    data (here: absent data) is replaced by empty contents. *)
Definition parseData (data : option (list ItemBundle)) : list ItemBundle :=
  match data with
  | Some contents => contents
  | None => []
  end.

(** The constructor of [ItemModuleStorage].  [Item_new id asset bundle] is
    [new Item(id, asset, bundle, context)]; the context is given by its
    fields, and the logger is threaded through the loop. *)
Definition ItemModuleStorage_new
    (Item_new : ItemId → Asset → ItemBundle → option Logger
                → Item * option Logger)
    (config : IModuleConfigStorage) (data : list ItemBundle)
    (assetMananger : AssetManager) (doLoadTimeCleanup : bool)
    (logger : option Logger) : ItemModuleStorage * option Logger :=
  let limitSize := default 0 (AssetSizeMapping (maxAcceptedSize config)) in
  let '(content, logger) :=
    foldl (λ (state : list Item * option Logger) (itemBundle : ItemBundle),
      let '(content, logger) := state in
      match getAssetById assetMananger (b_asset itemBundle) with
      | None =>
          (content,
           warning logger ("Skipping unknown asset " +:+ b_asset itemBundle))
      | Some asset =>
          let '(item, logger) :=
            Item_new (b_id itemBundle) asset itemBundle logger in
          if doLoadTimeCleanup
             && (Z.of_nat (length content) >=? maxCount config)
          then (content,
                warning logger ("Skipping stored item over count limit "
                                +:+ b_asset itemBundle))
          else if doLoadTimeCleanup
                  && (default 99 (AssetSizeMapping (asset_size asset))
                      >? limitSize)
          then (content,
                warning logger ("Skipping stored item over size limit "
                                +:+ b_asset itemBundle))
          else if doLoadTimeCleanup
                  && negb (success (Item_validate item false))
          then (content,
                warning logger ("Skipping stored item reporting invalid "
                                +:+ b_asset itemBundle))
          else (content ++ [item], logger)
      end) ([], logger) data in
  (mkStorage assetMananger config content, logger).

(** [bundle.modules[name]] *)
Fixpoint lookup_module {A} (name : string) (modules : list (string * A))
    : option A :=
  match modules with
  | [] => None
  | (n, data) :: rest =>
      if bool_decide (n = name) then Some data else lookup_module name rest
  end.

(** Modelled from the spec: the constructor of [Item] is declared in
    [../item], outside the modules embedded here.  An item has one module per
    module that its asset configures; each is loaded from the data that the
    bundle holds under the module's name ([parseData], then [loadModule],
    which calls the constructor of [ItemModuleStorage]).

    [stored] pairs every module name of the bundle with the loader of the
    contents kept under that name, so that the recursion visibly descends into
    the bundle; a module without data in the bundle is loaded from
    [parseData]'s empty contents. *)
Fixpoint Item_new (assetMananger : AssetManager) (doLoadTimeCleanup : bool)
    (id : ItemId) (asset : Asset) (bundle : ItemBundle)
    (logger : option Logger) {struct bundle} : Item * option Logger :=
  match bundle with
  | mkItemBundle _ _ color modules =>
      let loadModule (data : list ItemBundle) (config : IModuleConfigStorage)
          (logger : option Logger) :=
        ItemModuleStorage_new (Item_new assetMananger doLoadTimeCleanup)
          config data assetMananger doLoadTimeCleanup logger in
      let stored :=
        map (λ entry : string * list ItemBundle,
               (entry.1, loadModule (parseData (Some entry.2)))) modules in
      let '(loaded, logger) :=
        foldl (λ (state : list (string * ItemModuleStorage) * option Logger)
                 (entry : string * IModuleConfigStorage),
          let '(loaded, logger) := state in
          let '(module, logger) :=
            match lookup_module entry.1 stored with
            | Some load => load entry.2 logger
            | None => loadModule (parseData None) entry.2 logger
            end in
          (loaded ++ [(entry.1, module)], logger))
          ([], logger) (asset_modules asset) in
      (mkItem id asset color loaded, logger)
  end.

(** [ItemModuleStorage.exportData], the [contents] of the exported data;
    [Item_exportToBundle] is [Item.exportToBundle]. *)
Definition ItemModuleStorage_exportData
    (Item_exportToBundle : Item → ItemBundle) (module : ItemModuleStorage)
    : list ItemBundle :=
  map Item_exportToBundle (contents module).

(** Modelled from the spec: [Item.exportToBundle] is declared in [../item],
    outside the modules embedded here: an item is exported to the record
    "ItemBundle {id, asset, color[], modules: map}", each module through its
    [exportData]. *)
Fixpoint Item_exportToBundle (item : Item) : ItemBundle :=
  match item with
  | mkItem id asset color modules =>
      mkItemBundle id (asset_id asset) color
        (map (λ m : string * ItemModuleStorage,
                (m.1, ItemModuleStorage_exportData Item_exportToBundle m.2))
             modules)
  end.

(** [ItemModuleStorage.getContents] *)
Definition getContents (module : ItemModuleStorage) : AppearanceItems :=
  contents module.

(** [ItemModuleStorage.setContents] *)
Definition setContents (module : ItemModuleStorage) (items : AppearanceItems)
    : ItemModuleStorage :=
  (ItemModuleStorage_new (Item_new (assetMananger module) false)
     (config module) (map Item_exportToBundle items)
     (assetMananger module) false None).1.

(** ** [class AssetFrameworkRoomState] *)

(** [RoomInventoryBundle] *)
Record RoomInventoryBundle : Type := mkRoomInventoryBundle {
  bundle_items : list ItemBundle;
}.

Record AssetFrameworkRoomState : Type := mkRoomState {
  assetManager : AssetManager;
  items : AppearanceItems;
}.

(** Modelled from the spec: [ValidateRoomInventoryItems] is declared in
    [../roomValidation], outside the modules embedded here.  Of the rules that
    the spec lists for an item list, those that apply to a room inventory are:
    "item ids unique within every container scope" and the validation of every
    item ("container-specific caps"). *)
Definition ValidateRoomInventoryItems (assetManager : AssetManager)
    (items : AppearanceItems) : AppearanceValidationResult :=
  if has_repeated_id ∅ items then Failure ProblemInvalid
  else foldl AppearanceValidationCombineResults Success
             (map (λ i, Item_validate i false) items).

(** Modelled from the spec: [RoomInventoryLoadAndValidate] is declared in
    [../roomValidation], outside the modules embedded here: "on load, any item
    ... failing validation is dropped with a logged warning rather than
    aborting the whole load".  Items are added one by one; an item is kept when
    the list with it validates. *)
Definition RoomInventoryLoadAndValidate (assetManager : AssetManager)
    (loadedItems : list Item) (logger : option Logger)
    : AppearanceItems * option Logger :=
  foldl (λ (state : AppearanceItems * option Logger) (itemToAdd : Item),
    let '(resultItems, logger) := state in
    let tryItems := resultItems ++ [itemToAdd] in
    if success (ValidateRoomInventoryItems assetManager tryItems)
    then (tryItems, logger)
    else (resultItems,
          warning logger ("Skipping invalid item " +:+ item_id itemToAdd)))
    ([], logger) loadedItems.

(** Modelled from the spec: [AssetManager.createItem] is declared in
    [../assetManager], outside the modules embedded here:
    "createItem(id, asset, bundleData, logger) → Item"; an item created from
    bundle data is loaded with load-time cleanup. *)
Definition createItem (assetManager : AssetManager) (id : ItemId)
    (asset : Asset) (bundle : ItemBundle) (logger : option Logger)
    : Item * option Logger :=
  Item_new assetManager true id asset bundle logger.

(** [AssetFrameworkRoomState.validate] *)
Definition validate (s : AssetFrameworkRoomState)
    : AppearanceValidationResult :=
  let r := ValidateRoomInventoryItems (assetManager s) (items s) in
  if negb (success r) then r else Success.

(** [AssetFrameworkRoomState.isValid] *)
Definition isValid (s : AssetFrameworkRoomState) : bool :=
  success (validate s).

(** [AssetFrameworkRoomState.exportToBundle] *)
Definition exportToBundle (s : AssetFrameworkRoomState)
    : RoomInventoryBundle :=
  mkRoomInventoryBundle (map Item_exportToBundle (items s)).

(** [AssetFrameworkRoomState.produceWithItems] *)
Definition produceWithItems (s : AssetFrameworkRoomState)
    (newItems : AppearanceItems) : AssetFrameworkRoomState :=
  mkRoomState (assetManager s) newItems.

(** The first loop of [loadFromBundle]: "Load all items". *)
Definition loadItems (assetManager : AssetManager)
    (itemBundles : list ItemBundle) (logger : option Logger)
    : list Item * option Logger :=
  foldl (λ (state : list Item * option Logger) (itemBundle : ItemBundle),
    let '(loadedItems, logger) := state in
    match getAssetById assetManager (b_asset itemBundle) with
    | None =>
        (loadedItems,
         warning logger ("Skipping unknown asset " +:+ b_asset itemBundle))
    | Some asset =>
        let '(item, logger) :=
          createItem assetManager (b_id itemBundle) asset itemBundle logger in
        (loadedItems ++ [item], logger)
    end) ([], logger) itemBundles.

(** [AssetFrameworkRoomState.loadFromBundle].  The bundle is a typed
    [RoomInventoryBundle], on which [RoomInventoryBundleSchema.parse] is the
    identity; [Assert] throws when its condition is false. *)
Definition loadFromBundle (assetManager : AssetManager)
    (bundle : RoomInventoryBundle) (logger : option Logger)
    : Outcome AssetFrameworkRoomState * option Logger :=
  let '(loadedItems, logger) :=
    loadItems assetManager (bundle_items bundle) logger in
  let '(newItems, logger) :=
    RoomInventoryLoadAndValidate assetManager loadedItems logger in
  let resultState := mkRoomState assetManager newItems in
  if isValid resultState then (Returned resultState, logger)
  else (Thrown "State is invalid after load", logger).

(** [ROOM_INVENTORY_BUNDLE_DEFAULT] *)
Definition ROOM_INVENTORY_BUNDLE_DEFAULT : RoomInventoryBundle :=
  mkRoomInventoryBundle [].

(** [AssetFrameworkRoomState.createDefault] *)
Definition createDefault (assetManager : AssetManager)
    : Outcome AssetFrameworkRoomState * option Logger :=
  loadFromBundle assetManager ROOM_INVENTORY_BUNDLE_DEFAULT None.

End WithSizes.

End Inventory.


(** * Collected asset properties ([properties.ts]) *)

Module Properties.
Import AppearanceLimit.

(** [EffectsDefinition], its partial form, [EFFECTS_DEFAULT] and
    [MergeEffects] are declared in [./effects], outside the modules embedded
    here; the functions below only pass them on. *)
Class Effects : Type := {
  EffectsDefinition : Type;
  PartialEffects : Type;
  EFFECTS_DEFAULT : EffectsDefinition;
  MergeEffects : EffectsDefinition → option PartialEffects → EffectsDefinition;
}.

(** The amounts of [occupySlots] are JavaScript numbers that need not be
    whole; [Amount] stands for them, with [0] and [+]. *)
Class Amounts : Type := {
  Amount : Type;
  amount_zero : Amount;
  amount_add : Amount → Amount → Amount;
}.

Section WithEffects.
Context `{Schemas} `{Effects} `{Amounts}.

(** [AssetProperties]; every field is optional. *)
Record AssetProperties : Type := mkProperties {
  p_poseLimits : option AssetDefinitionPoseLimits;
  p_effects : option PartialEffects;
  p_attributes : option (list string);
  p_requirements : option (list string);
  p_hides : option (list string);
  p_blockAddRemove : option bool;
  p_blockSelfAddRemove : option bool;
  p_blockModules : option (list string);
  p_blockSelfModules : option (list string);
  p_blockSlots : option (list string);
  p_coverSlots : option (list string);
  p_occupySlots : option (gmap string (option Amount));
  p_overrideColorKey : option (list string);
  p_excludeFromColorInheritance : option (list string);
}.

(** [AssetSlotResult] *)
Record AssetSlotResult : Type := mkSlotResult {
  occupied : gmap string Amount;
  covered : gset string;
  blocked : gset string;
}.

(** [AssetPropertiesResult] *)
Record AssetPropertiesResult : Type := mkResult {
  limits : AppearanceLimitTree;
  effects : EffectsDefinition;
  attributes : gset string;
  hides : gset string;
  slots : AssetSlotResult;
}.

(** [CreateAssetPropertiesResult] *)
Definition CreateAssetPropertiesResult : AssetPropertiesResult :=
  mkResult AppearanceLimitTree_new EFFECTS_DEFAULT ∅ ∅ (mkSlotResult ∅ ∅ ∅).

(** [values?.forEach((a) => set.add(a))] *)
Definition add_each (set : gset string) (values : option (list string))
    : gset string :=
  match values with
  | None => set
  | Some values => foldl (λ (set : gset string) a, {[a]} ∪ set) set values
  end.

(** The loop of [MergeAssetProperties] over
    [Object.entries(properties.occupySlots ?? {})]. *)
Definition occupy_each (occupied : gmap string Amount)
    (occupySlots : option (gmap string (option Amount)))
    : gmap string Amount :=
  map_fold (λ slot amount (occupied : gmap string Amount),
              <[slot := amount_add (default amount_zero (occupied !! slot))
                                   (default amount_zero amount)]> occupied)
           occupied (default ∅ occupySlots).

(** [MergeAssetProperties]: [base] is changed in place and returned; the
    result is the object after the call.  The boolean that
    [base.limits.merge] returns is not used. *)
Definition MergeAssetProperties (base : AssetPropertiesResult)
    (properties : AssetProperties) : AssetPropertiesResult :=
  mkResult
    (merge (limits base) (p_poseLimits properties)).2
    (MergeEffects (effects base) (p_effects properties))
    (add_each (attributes base) (p_attributes properties))
    (add_each (hides base) (p_hides properties))
    (mkSlotResult
       (occupy_each (occupied (slots base)) (p_occupySlots properties))
       (add_each (covered (slots base)) (p_coverSlots properties))
       (add_each (blocked (slots base)) (p_blockSlots properties))).

(** [AssetPropertiesIndividualResult]: the fields of
    [AssetPropertiesResult], here [common], and those that it adds. *)
Record AssetPropertiesIndividualResult : Type := mkIndividualResult {
  common : AssetPropertiesResult;
  requirements : gset string;
  blockAddRemove : bool;
  blockSelfAddRemove : bool;
  blockModules : gset string;
  blockSelfModules : gset string;
  overrideColorKey : gset string;
  excludeFromColorInheritance : gset string;
}.

(** [CreateAssetPropertiesIndividualResult] *)
Definition CreateAssetPropertiesIndividualResult
    : AssetPropertiesIndividualResult :=
  mkIndividualResult CreateAssetPropertiesResult ∅ false false ∅ ∅ ∅ ∅.

(** [MergeAssetPropertiesIndividual] *)
Definition MergeAssetPropertiesIndividual
    (base : AssetPropertiesIndividualResult) (properties : AssetProperties)
    : AssetPropertiesIndividualResult :=
  mkIndividualResult
    (MergeAssetProperties (common base) properties)
    (add_each (requirements base) (p_requirements properties))
    (blockAddRemove base || default false (p_blockAddRemove properties))
    (blockSelfAddRemove base
     || default false (p_blockSelfAddRemove properties))
    (add_each (blockModules base) (p_blockModules properties))
    (add_each (blockSelfModules base) (p_blockSelfModules properties))
    (add_each (overrideColorKey base) (p_overrideColorKey properties))
    (add_each (excludeFromColorInheritance base)
       (p_excludeFromColorInheritance properties)).

End WithEffects.

End Properties.

(** * Appearance objects that are shared ([DoAppearanceAction]) *)

Module SharedAppearances.
Import AppearanceActions.

(** The identity of an [Appearance] object. *)
Abbreviation ObjectId := positive.

Section Actions.

(** As in [AppearanceActions]: the classes are declared outside the modules
    embedded here, the two [allow...] queries return a boolean, and each of
    the three mutators gives the state that it leaves the object in. *)
Context {Appearance Asset AssetManager : Type}.
Variable getAssetById : AssetManager → AssetId → option Asset.
Variable allowCreateItem : Appearance → ItemId → Asset → bool.
Variable createItem : Appearance → ItemId → Asset → Appearance.
Variable allowRemoveItem : Appearance → ItemId → bool.
Variable removeItem : Appearance → ItemId → Appearance.
Variable importPose : Appearance → gmap string Z → PoseActionType → Appearance.

(** [AppearanceActionContext] with the objects kept apart from the map: the
    [characters] map holds an object per character id, and nothing keeps it
    from holding one object under several ids; [objects] gives the state of
    every object.  A mutator changes the state of the object it is called
    on, and with it what every id that holds this object shows. *)
Record SharedContext : Type := mkSharedContext {
  shared_player : CharacterId;
  shared_characters : gmap CharacterId ObjectId;
  objects : ObjectId → Appearance;
}.

(** The object after a mutator ran on it. *)
Definition mutate (context : SharedContext) (object : ObjectId)
    (state : Appearance) : SharedContext :=
  mkSharedContext (shared_player context) (shared_characters context)
    (λ other, if decide (other = object) then state
              else objects context other).

(** The appearance that a character id shows. *)
Definition appearance_of (context : SharedContext) (id : CharacterId)
    : option Appearance :=
  objects context <$> shared_characters context !! id.

(** [DoAppearanceAction] on shared objects: the boolean it returns, and the
    context as the call leaves it. *)
Definition DoAppearanceAction_shared (action : AppearanceAction)
    (context : SharedContext) (assetManager : AssetManager)
    (dryRun : bool) : bool * SharedContext :=
  match shared_characters context !! action_target action with
  | None => (false, context)
  | Some object =>
      let appearance := objects context object in
      match action with
      | ActionCreate target itemId assetId =>
          match getAssetById assetManager assetId with
          | None => (false, context)
          | Some asset =>
              if negb (allowCreateItem appearance itemId asset)
              then (false, context)
              else if negb dryRun
              then (true, mutate context object
                            (createItem appearance itemId asset))
              else (true, context)
          end
      | ActionDelete target itemId =>
          if negb (allowRemoveItem appearance itemId) then (false, context)
          else if negb dryRun
          then (true, mutate context object (removeItem appearance itemId))
          else (true, context)
      | ActionBody target pose =>
          if negb (bool_decide (shared_player context = target))
          then (false, context)
          else if negb dryRun
          then (true, mutate context object
                        (importPose appearance pose TypeBody))
          else (true, context)
      | ActionPose target pose =>
          if negb (bool_decide (shared_player context = target))
          then (false, context)
          else if negb dryRun
          then (true, mutate context object
                        (importPose appearance pose TypePose))
          else (true, context)
      end
  end.


End Actions.

End SharedAppearances.

(** * Bundles of unknown shape ([RoomInventoryBundleSchema]) *)

Module BundleSchema.
Import Inventory.

(** Data as they arrive, before a schema has looked at them. *)
#[warnings="-register-all"]
Inductive Unknown : Type :=
| UNull
| UBoolean (value : bool)
| UNumber (value : Z)
| UString (value : string)
| UArray (elements : list Unknown)
| UObject (properties : list (string * Unknown)).

(** [data[name]] on an object. *)
Fixpoint property (name : string) (properties : list (string * Unknown))
    : option Unknown :=
  match properties with
  | [] => None
  | (n, value) :: rest =>
      if bool_decide (n = name) then Some value else property name rest
  end.

Section WithItemSchema.
Variable AssetSizeMapping : AssetSize → option Z.

(** [ItemBundleSchema] is declared in [../item], outside the modules embedded
    here: what its [parse] makes of one value, or nothing when the schema
    does not accept the value. *)
Variable ItemBundleSchema_parse : Unknown → option ItemBundle.

(** [RoomInventoryBundleSchema.parse], for
    [z.object({ items: z.array(ItemBundleSchema) })]: the data must be an
    object whose [items] is an array of values that [ItemBundleSchema]
    accepts; other properties are dropped.  [None] stands for the
    [ZodError] that [parse] throws on other data. *)
Definition RoomInventoryBundleSchema_parse (data : Unknown)
    : option RoomInventoryBundle :=
  match data with
  | UObject properties =>
      match property "items" properties with
      | Some (UArray elements) =>
          mkRoomInventoryBundle <$> mapM ItemBundleSchema_parse elements
      | _ => None
      end
  | _ => None
  end.

(** [AssetFrameworkRoomState.loadFromBundle] on data of unknown shape.  Its
    first line, [bundle = RoomInventoryBundleSchema.parse(bundle)], throws
    on data that the schema does not accept, before anything is loaded or
    logged; the lines after it are [loadFromBundle] on the bundle that
    [parse] returns. *)
Definition loadFromBundle_unknown (assetManager : AssetManager)
    (data : Unknown) (logger : option Logger)
    : Outcome AssetFrameworkRoomState * option Logger :=
  match RoomInventoryBundleSchema_parse data with
  | None => (Thrown "ZodError", logger)
  | Some bundle => loadFromBundle AssetSizeMapping assetManager bundle logger
  end.

End WithItemSchema.

End BundleSchema.

(** * Predicates used in the statements *)

Module LimitPredicates.
Import AppearanceLimit.

(** The value that [TreeLimit.force] stores for a key: the value itself when
    the key has no limit, the result of the loop over the intervals
    otherwise. *)
Definition forced_value (limit : option (list Interval)) (value : Z) : Z :=
  match limit with
  | None => value
  | Some l => (force_value value l Infinity value).2
  end.

(** A distance other than [Infinity]. *)
Definition finite (d : Num) : Prop := ∃ z, d = Fin z.

(** [data] satisfies the intervals [intervals] at [key]. *)
Definition satisfies_at (key : string) (intervals : list Interval)
    (data : PoseData) : Prop :=
  ∀ value, data !! key = Some value →
           existsb (in_interval value) intervals = true.

Definition interval_within (inner outer : Interval) : bool :=
  (outer.1 <=? inner.1) && (inner.2 <=? outer.2).

(** The intervals of a key are usable: there is at least one, each has
    [min <= max], and each lies within an interval that the enclosing nodes
    allow for the key, if they limit it. *)
Definition intervals_ok (intervals : list Interval)
    (outer : option (list Interval)) : bool :=
  match intervals with
  | [] => false
  | _ =>
      forallb (λ iv : Interval,
        (iv.1 <=? iv.2)
        && match outer with
           | None => true
           | Some os => existsb (interval_within iv) os
           end) intervals
  end.

(** A node is consistent under the limits [env] of the nodes above it when
    all its intervals are usable, it has at least one child if it has a list
    of children, and its children are consistent under its limit added to
    [env]. *)
Fixpoint consistent (env : TreeLimit) (n : TreeNode) : bool :=
  match n with
  | Node limit children =>
      bool_decide (map_Forall (λ key intervals,
                     intervals_ok intervals (env !! key) = true) limit)
      && match children with
         | None => true
         | Some [] => false
         | Some cs => forallb (consistent (limit ∪ env)) cs
         end
  end.

(** A pose-limit definition without [options]. *)
Definition no_options (limits : AssetDefinitionPoseLimits) : bool :=
  match limits with
  | PoseLimits _ _ _ _ _ None => true
  | PoseLimits _ _ _ _ _ (Some _) => false
  end.

(** A tree without alternatives: its root, if any, has no children. *)
Definition flat (t : AppearanceLimitTree) : bool :=
  match root t with
  | None => true
  | Some (Node _ None) => true
  | Some (Node _ (Some _)) => false
  end.

End LimitPredicates.

Module ActionPredicates.
Import AppearanceActions.

Section Phases.
Context {Appearance Asset AssetManager : Type}.
Variable getAssetById : AssetManager → AssetId → option Asset.
Variable allowCreateItem : Appearance → ItemId → Asset → bool.
Variable createItem : Appearance → ItemId → Asset → Appearance.
Variable allowRemoveItem : Appearance → ItemId → bool.
Variable removeItem : Appearance → ItemId → Appearance.
Variable importPose : Appearance → gmap string Z → PoseActionType → Appearance.

(** The validation phase in the words of the spec ("Dry-run and commit run
    the identical code path up through Validate"): the target is resolved,
    and the action is checked against its appearance; nothing is changed. *)
Definition spec_validate_phase (action : AppearanceAction)
    (context : AppearanceActionContext) (assetManager : AssetManager) : bool :=
  match characters context !! action_target action with
  | None => false
  | Some appearance =>
      match action with
      | ActionCreate _ itemId assetId =>
          match getAssetById assetManager assetId with
          | None => false
          | Some asset => allowCreateItem appearance itemId asset
          end
      | ActionDelete _ itemId => allowRemoveItem appearance itemId
      | ActionPose target _ => bool_decide (player context = target)
      | ActionBody target _ => bool_decide (player context = target)
      end
  end.

(** The commit in the words of the spec ("only Commit ... is skipped when
    dryRun"): the change that a validated action makes to the appearance of
    its target. *)
Definition spec_commit (action : AppearanceAction)
    (context : AppearanceActionContext) (assetManager : AssetManager)
    : AppearanceActionContext :=
  match characters context !! action_target action with
  | None => context
  | Some appearance =>
      match action with
      | ActionCreate target itemId assetId =>
          match getAssetById assetManager assetId with
          | None => context
          | Some asset =>
              update_target context target (createItem appearance itemId asset)
          end
      | ActionDelete target itemId =>
          update_target context target (removeItem appearance itemId)
      | ActionPose target pose =>
          update_target context target (importPose appearance pose TypePose)
      | ActionBody target pose =>
          update_target context target (importPose appearance pose TypeBody)
      end
  end.

End Phases.

End ActionPredicates.

Module InventoryPredicates.
Import Inventory.

(** [item.asset.definition.size] is above the size that the module
    accepts: the test of [ValidateStorage] and of the constructor of
    [ItemModuleStorage]. *)
Definition exceeds_size (AssetSizeMapping : AssetSize → option Z)
    (config : IModuleConfigStorage) (item : Item) : bool :=
  default 99 (AssetSizeMapping (asset_size (item_asset item)))
  >? default 0 (AssetSizeMapping (maxAcceptedSize config)).

(** A logger after some calls, compared with the logger before them: no
    logger stays no logger, and a logger keeps the warnings it had. *)
Definition logger_extends (before after : option Logger) : Prop :=
  match before, after with
  | Some written, Some written' => written `prefix_of` written'
  | None, None => True
  | _, _ => False
  end.

(** One module of an item under construction: the step of the loop of
    [Item_new], with the data looked up in the bundle. *)
Definition load_module_step (AssetSizeMapping : AssetSize → option Z)
    (mgr : AssetManager) (cleanup : bool)
    (modules : list (string * list ItemBundle))
    (state : list (string * ItemModuleStorage) * option Logger)
    (entry : string * IModuleConfigStorage)
    : list (string * ItemModuleStorage) * option Logger :=
  let module :=
    ItemModuleStorage_new AssetSizeMapping
      (Item_new AssetSizeMapping mgr cleanup) entry.2
      (parseData (lookup_module entry.1 modules)) mgr cleanup state.2 in
  (state.1 ++ [(entry.1, module.1)], module.2).

#[global] Instance IModuleConfigStorage_eq_dec : EqDecision IModuleConfigStorage.
Proof. solve_decision. Defined.

#[global] Instance Asset_eq_dec : EqDecision Asset.
Proof. solve_decision. Defined.

(** An item is resolved against an asset manager when the manager maps the
    id of the item's asset to that very asset, the item has exactly the
    modules that the asset configures (a [Record] of modules has no repeated
    name), each module refers to the manager, and the same holds for every
    item that a module contains. *)
Fixpoint Item_resolved (mgr : AssetManager) (item : Item) : bool :=
  match item with
  | mkItem _ asset _ modules =>
      bool_decide (getAssetById mgr (asset_id asset) = Some asset)
      && bool_decide (NoDup (map fst (asset_modules asset)))
      && bool_decide (map fst modules = map fst (asset_modules asset))
      && bool_decide (map (λ m : string * ItemModuleStorage, config m.2) modules
                      = map snd (asset_modules asset))
      && forallb (λ m : string * ItemModuleStorage,
                    bool_decide (assetMananger m.2 = mgr)
                    && forallb (Item_resolved mgr) (contents m.2)) modules
  end.


End InventoryPredicates.

(** * Sample data

    Concrete values at which the theorems below are instantiated. *)

Module LimitSamples.
Import AppearanceLimit.

(** One possible content of the declarations that the solver is parametric
    in. *)
Definition sample_schemas : Schemas := {|
  ArmRotationSchema_options := ["up"; "down"; "forward"; "backward"]%string;
  ArmFingersSchema_options := ["spread"; "fist"]%string;
  ArmsPose_values := [0; 1];
  CharacterView_values := [0; 1];
  CharacterView_FRONT := 0;
  GetDefaultAppearanceBundle :=
    mkPose ∅ (mkArmPose 0 "forward" "spread") (mkArmPose 0 "forward" "spread") 0;
|}.

Definition bone_in (name : string) (intervals : list (Z * Z))
    : string * option BoneLimit :=
  (name, Some (BoneIntervals intervals)).

Definition bone_is (name : string) (value : Z) : string * option BoneLimit :=
  (name, Some (BoneValue value)).

(** A pose-limit definition that only limits bones. *)
Definition bone_limits (bones : list (string * option BoneLimit))
    (options : option (list AssetDefinitionPoseLimits))
    : AssetDefinitionPoseLimits :=
  PoseLimits (Some bones) None None None None options.

Definition sample_arm : AppearanceArmPose := mkArmPose 0 "forward" "spread".

Definition bone_pose (bones : gmap string Z) : AppearancePose :=
  mkPose bones sample_arm sample_arm 0.

(** [{ bones: { leg_l: [[-10, 10]] } }] and [{ bones: { leg_l: [[5, 20]] } }],
    the two items of the spec's third scenario. *)
Definition limits_A : AssetDefinitionPoseLimits :=
  bone_limits [bone_in "leg_l" [(-10, 10)]] None.
Definition limits_B : AssetDefinitionPoseLimits :=
  bone_limits [bone_in "leg_l" [(5, 20)]] None.

(** [{ bones: { leg_l: [[30, 40]] } }]: no value in common with [limits_A]. *)
Definition limits_C : AssetDefinitionPoseLimits :=
  bone_limits [bone_in "leg_l" [(30, 40)]] None.

(** [{ bones: { k: [[0, 10]] }, options: [{ bones: { a: 0 } },
                                         { bones: { a: 1 } }] }] *)
Definition limits_K : AssetDefinitionPoseLimits :=
  bone_limits [bone_in "k" [(0, 10)]]
    (Some [bone_limits [bone_is "a" 0] None;
           bone_limits [bone_is "a" 1] None]).

(** [{ options: [{ bones: { a: 0, k: [[20, 30]] } }] }] *)
Definition limits_L : AssetDefinitionPoseLimits :=
  bone_limits []
    (Some [bone_limits [bone_is "a" 0; bone_in "k" [(20, 30)]] None]).

(** [{ bones: { k: [[0, 10]] }, options: [{ bones: { a: 0 } },
                                         { bones: { a: 100 } }] }] *)
Definition limits_M : AssetDefinitionPoseLimits :=
  bone_limits [bone_in "k" [(0, 10)]]
    (Some [bone_limits [bone_is "a" 0] None;
           bone_limits [bone_is "a" 100] None]).

(** [{ options: [{ bones: { a: 0, k: [[20, 30]] } },
                 { bones: { a: 100 } }] }] *)
Definition limits_N : AssetDefinitionPoseLimits :=
  bone_limits []
    (Some [bone_limits [bone_is "a" 0; bone_in "k" [(20, 30)]] None;
           bone_limits [bone_is "a" 100] None]).

Definition tree_of (ls : list AssetDefinitionPoseLimits)
    : AppearanceLimitTree :=
  @merge_all sample_schemas (@AppearanceLimitTree_new)
             (map Some ls).

(** The root left by merging [limits_A] into a new tree. *)
Definition node_A : TreeNode :=
  Node {[ "bones.leg_l" := [(-10, 10)] ]} None.

Definition pose_leg_30 : AppearancePose := bone_pose {[ "leg_l" := 30 ]}.
Definition pose_leg_10 : AppearancePose := bone_pose {[ "leg_l" := 10 ]}.
Definition pose_leg_35 : AppearancePose := bone_pose {[ "leg_l" := 35 ]}.
Definition pose_a0_k25 : AppearancePose := bone_pose {[ "a" := 0; "k" := 25 ]}.
Definition pose_a0_k5 : AppearancePose := bone_pose {[ "a" := 0; "k" := 5 ]}.
Definition pose_a0_k20 : AppearancePose := bone_pose {[ "a" := 0; "k" := 20 ]}.
Definition pose_a100_k5 : AppearancePose := bone_pose {[ "a" := 100; "k" := 5 ]}.

End LimitSamples.

Module ActionSamples.
Import AppearanceActions.

(** A small instance of the classes that [DoAppearanceAction] is parametric
    in: an appearance is the list of the ids of its items, an asset is its
    id. *)
Definition sample_manager : gmap AssetId string :=
  {[ "a/shirt" := "a/shirt" ]}.

Definition sample_getAssetById (m : gmap AssetId string) (id : AssetId)
    : option string := m !! id.
Definition sample_allowCreateItem (a : list ItemId) (id : ItemId)
    (asset : string) : bool := bool_decide (id ∉ a).
Definition sample_createItem (a : list ItemId) (id : ItemId) (asset : string)
    : list ItemId := a ++ [id].
Definition sample_allowRemoveItem (a : list ItemId) (id : ItemId) : bool :=
  bool_decide (id ∈ a).
Definition sample_removeItem (a : list ItemId) (id : ItemId) : list ItemId :=
  filter (λ i, i ≠ id) a.
Definition sample_importPose (a : list ItemId) (pose : gmap string Z)
    (type : PoseActionType) : list ItemId := a.

Definition sample_DoAppearanceAction :=
  DoAppearanceAction sample_getAssetById sample_allowCreateItem
    sample_createItem sample_allowRemoveItem sample_removeItem
    sample_importPose.

(** The player [c1] in a room with the characters [c1] and [c2]. *)
Definition sample_context : AppearanceActionContext :=
  mkContext "c1" {[ "c1" := ["i/1"]; "c2" := [] ]}.

End ActionSamples.

Module InventorySamples.
Import Inventory.

(** One possible content of the table [AssetSizeMapping]. *)
Definition sample_sizes (size : AssetSize) : option Z :=
  lookup_module size
    [("small", 1); ("medium", 2); ("large", 3); ("huge", 4); ("bodypart", 99)].

Definition pen : Asset := mkAsset "a/pen" "small" [].
Definition crate : Asset := mkAsset "a/crate" "huge" [].
Definition box_config : IModuleConfigStorage := mkConfig 2 "medium".
Definition box : Asset := mkAsset "a/box" "large" [("inside", box_config)].

Definition sample_manager : AssetManager :=
  {[ "a/pen" := pen; "a/crate" := crate; "a/box" := box ]}.

Definition pen_item (id : ItemId) : Item := mkItem id pen ["#ffffff"] [].
Definition crate_item (id : ItemId) : Item := mkItem id crate [] [].

(** A box that stores [contents]. *)
Definition box_item (id : ItemId) (contents : list Item) : Item :=
  mkItem id box [] [("inside", mkStorage sample_manager box_config contents)].



Definition pen_bundle (id : ItemId) : ItemBundle :=
  mkItemBundle id "a/pen" ["#ffffff"] [].
Definition crate_bundle (id : ItemId) : ItemBundle :=
  mkItemBundle id "a/crate" [] [].
Definition ghost_bundle (id : ItemId) : ItemBundle :=
  mkItemBundle id "a/ghost" [] [].
Definition box_bundle (id : ItemId) (contents : list ItemBundle)
    : ItemBundle :=
  mkItemBundle id "a/box" [] [("inside", contents)].

(** A bundle with a box that stores too much, an item of an unknown asset,
    a repeated item id, and a box that stores two items with the same id. *)
Definition messy_bundle : RoomInventoryBundle :=
  mkRoomInventoryBundle
    [box_bundle "i/1"
       [pen_bundle "i/2"; crate_bundle "i/9"; ghost_bundle "i/8";
        pen_bundle "i/3"; pen_bundle "i/4"];
     ghost_bundle "i/5";
     pen_bundle "i/1";
     box_bundle "i/6" [pen_bundle "i/7"; pen_bundle "i/7"];
     pen_bundle "i/10"].

End InventorySamples.

(** * Predicates used in the further statements *)

Module LimitExtraPredicates.
Import AppearanceLimit.

(** A distance is never negative. *)
Definition nonneg (d : Num) : Prop :=
  match d with
  | Fin z => 0 ≤ z
  | Infinity => True
  end.

(** A pose fits the schemas when each arm position is a value of [ArmsPose],
    each rotation and each finger pose is an option of its schema, the view
    is [FRONT], numbered [0], or the value [1], and it is a value of
    [CharacterView]; the default pose has no bone that the pose lacks, and
    the pose has no bone with the name [__proto__], which an assignment to a
    plain object does not store. *)
Definition pose_fits_schemas `{Schemas} (pose : AppearancePose) : Prop :=
  position (leftArm pose) ∈ ArmsPose_values
  ∧ position (rightArm pose) ∈ ArmsPose_values
  ∧ rotation (leftArm pose) ∈ ArmRotationSchema_options
  ∧ rotation (rightArm pose) ∈ ArmRotationSchema_options
  ∧ fingers (leftArm pose) ∈ ArmFingersSchema_options
  ∧ fingers (rightArm pose) ∈ ArmFingersSchema_options
  ∧ CharacterView_FRONT = 0
  ∧ (view pose = 0 ∨ view pose = 1)
  ∧ view pose ∈ CharacterView_values
  ∧ bones pose !! "__proto__" = None
  ∧ ∀ bone, is_Some (bones GetDefaultAppearanceBundle !! bone) →
            is_Some (bones pose !! bone).

End LimitExtraPredicates.

Module InventoryExtraPredicates.
Import Inventory InventoryPredicates.

(** The asset manager resolves the asset id of the bundle. *)
Definition known_asset (mgr : AssetManager) (b : ItemBundle) : bool :=
  bool_decide (is_Some (getAssetById mgr (b_asset b))).

(** Every asset of the manager is stored under its own id, and no asset
    configures two modules of the same name. *)
Definition manager_well_formed (mgr : AssetManager) : bool :=
  bool_decide (map_Forall (λ id asset,
                 asset_id asset = id
                 ∧ NoDup (map fst (asset_modules asset))) mgr).

(** The module refers to the items of its contents through its own asset
    manager: each of them is resolved against it. *)
Definition module_resolved (module : ItemModuleStorage) : bool :=
  forallb (Item_resolved (assetMananger module)) (contents module).

(** The item was constructed from the bundle by [newItem], with an asset that
    the manager resolves for the bundle; under load-time cleanup it also
    passed the size test and the validation of the constructor of
    [ItemModuleStorage]. *)
Definition loaded_from (AssetSizeMapping : AssetSize → option Z)
    (newItem : ItemId → Asset → ItemBundle → option Logger
               → Item * option Logger)
    (mgr : AssetManager) (cleanup : bool) (cfg : IModuleConfigStorage)
    (item : Item) (b : ItemBundle) : Prop :=
  ∃ asset lg,
    getAssetById mgr (b_asset b) = Some asset
    ∧ item = (newItem (b_id b) asset b lg).1
    ∧ (cleanup = true →
       (default 99 (AssetSizeMapping (asset_size asset))
        >? default 0 (AssetSizeMapping (maxAcceptedSize cfg))) = false
       ∧ Item_validate AssetSizeMapping item false = Success).

(** The asset manager resolves the asset of the item. *)
Definition known_item (mgr : AssetManager) (item : Item) : bool :=
  bool_decide (is_Some (getAssetById mgr (asset_id (item_asset item)))).

End InventoryExtraPredicates.

Module PropertiesSamples.
Import AppearanceLimit LimitSamples Properties.

#[local] Existing Instance sample_schemas.

(** Effects that merging leaves as they are, and whole amounts. *)
Definition sample_effects : Effects := {|
  EffectsDefinition := unit;
  PartialEffects := unit;
  EFFECTS_DEFAULT := tt;
  MergeEffects := λ base _, base;
|}.

Definition sample_amounts : Amounts := {|
  Amount := Z;
  amount_zero := 0;
  amount_add := Z.add;
|}.

#[local] Existing Instance sample_effects.
#[local] Existing Instance sample_amounts.

(** Properties of a glove: it occupies 5 of the slot [hands], and blocks
    its own removal. *)
Definition glove : AssetProperties :=
  mkProperties None None (Some ["Clothing"; "Handwear"]%string) None None
    (Some true) None None None None (Some ["hands"]%string)
    (Some {[ "hands" := Some (5 : Z) ]}) None None.

(** A result whose limits are invalid. *)
Definition broken_result : AssetPropertiesResult :=
  mkResult (mkTree None) tt ∅ ∅ (mkSlotResult ∅ ∅ ∅).

End PropertiesSamples.

Module LoadPredicates.
Import Inventory InventoryPredicates.

Section WithSizes.
Variable AssetSizeMapping : AssetSize → option Z.






(** The calls wrote at least [dropped] warnings to a logger that was
    passed. *)
Definition reports (before after : option Logger) (dropped : nat) : Prop :=
  ∀ written, before = Some written →
    ∃ written', after = Some written'
                ∧ (length written + dropped ≤ length written')%nat.

End WithSizes.

End LoadPredicates.

Module LoadSamples.
Import Inventory BundleSchema InventorySamples.

Definition as_string (data : Unknown) : option string :=
  match data with
  | UString value => Some value
  | _ => None
  end.

(** One possible [ItemBundleSchema]: an object with the strings [id] and
    [asset], an optional array [color] of strings, and an optional object
    [modules] whose values are objects with [type: 'storage'] and an array
    [contents] of values that the schema accepts. *)
Fixpoint sample_ItemBundleSchema (data : Unknown) : option ItemBundle :=
  match data with
  | UObject properties =>
      let parsed :=
        map (λ p : string * Unknown,
               (p.1,
                match p.2 with
                | UObject modules =>
                    mapM (λ m : string * Unknown,
                            match m.2 with
                            | UObject fields =>
                                let arrays :=
                                  map (λ f : string * Unknown,
                                         (f.1,
                                          match f.2 with
                                          | UArray elements =>
                                              mapM sample_ItemBundleSchema
                                                   elements
                                          | _ => None
                                          end)) fields in
                                match property "type" fields ≫= as_string with
                                | Some "storage" =>
                                    contents ← mjoin (lookup_module "contents"
                                                        arrays);
                                    Some (m.1, contents)
                                | _ => None
                                end
                            | _ => None
                            end) modules
                | _ => None
                end)) properties in
      id ← property "id" properties ≫= as_string;
      asset ← property "asset" properties ≫= as_string;
      color ← match property "color" properties with
              | Some (UArray elements) => mapM as_string elements
              | Some _ => None
              | None => Some []
              end;
      modules ← match lookup_module "modules" parsed with
                | Some modules => modules
                | None => Some []
                end;
      Some (mkItemBundle id asset color modules)
  | _ => None
  end.

Definition raw_item (id asset : string) (color : list string)
    (modules : list (string * list Unknown)) : Unknown :=
  UObject [("id", UString id); ("asset", UString asset);
           ("color", UArray (UString <$> color));
           ("modules",
            UObject ((λ m : string * list Unknown,
                        (m.1, UObject [("type", UString "storage");
                                       ("contents", UArray m.2)]))
                     <$> modules))].

Definition raw_pen (id : string) : Unknown :=
  raw_item id "a/pen" ["#ffffff"] [].

(** Stored data of a room: a box with a pen, a crate that is too large for
    it, an item of an unknown asset and two more pens, of which the box has
    room for one; an item of an unknown asset; a pen with the id of the box;
    and one more pen. *)
Definition raw_room : Unknown :=
  UObject [("items",
            UArray [raw_item "i/1" "a/box" []
                      [("inside",
                        [raw_pen "i/2"; raw_item "i/9" "a/crate" [] [];
                         raw_item "i/8" "a/ghost" [] []; raw_pen "i/3";
                         raw_pen "i/4"])];
                    raw_item "i/5" "a/ghost" [] [];
                    raw_pen "i/1";
                    raw_pen "i/10"])].



End LoadSamples.

Module SharedSamples.
Import AppearanceActions SharedAppearances ActionSamples.

Definition sample_DoAppearanceAction_shared :=
  DoAppearanceAction_shared sample_getAssetById sample_allowCreateItem
    sample_createItem sample_allowRemoveItem sample_removeItem
    sample_importPose.

(** The characters [c1] and [c2] hold the same object, which has the item
    [i/1]; [c3] holds an object of its own. *)
Definition twin_context : SharedContext :=
  mkSharedContext "c1" {[ "c1" := 1%positive; "c2" := 1%positive;
                          "c3" := 2%positive ]}
    (λ _, ["i/1"]).

End SharedSamples.

(** * Theorems *)

Module LimitTheorems.
Import AppearanceLimit LimitSamples LimitPredicates.

(** ** [force] on a consistent node *)

Lemma TreeNode_nested_ind (P : TreeNode → Prop) :
  (∀ limit children,
      match children with
      | Some cs => Forall P cs
      | None => True
      end → P (Node limit children)) →
  ∀ n, P n.
Proof.
  intros step. fix IH 1. intros [limit children]. apply step.
  destruct children as [cs |]; [| exact I].
  induction cs as [| c cs IHcs]; constructor.
  - apply IH.
  - exact IHcs.
Qed.

Lemma TreeLimit_validate_spec (limit : TreeLimit) (data : PoseData) :
  TreeLimit_validate limit data = true
  ↔ ∀ key intervals, limit !! key = Some intervals →
                     satisfies_at key intervals data.
Proof.
  unfold TreeLimit_validate, satisfies_at.
  apply (map_fold_weak_ind (λ (ok : bool) (m : PoseData),
           ok = true ↔ ∀ key intervals, limit !! key = Some intervals →
                        ∀ value, m !! key = Some value →
                                 existsb (in_interval value) intervals = true)).
  - split; [| reflexivity]. intros _ key intervals _ value Hv.
    by rewrite lookup_empty in Hv.
  - intros key value m ok Hfresh IH. rewrite andb_true_iff, IH. split.
    + intros [Hm Hkey] k ivs Hk v Hv.
      destruct (decide (key = k)) as [-> | Hne].
      * rewrite lookup_insert_eq in Hv. injection Hv as <-.
        rewrite Hk in Hkey. exact Hkey.
      * rewrite lookup_insert_ne in Hv by exact Hne. exact (Hm k ivs Hk v Hv).
    + intros Hall. split.
      * intros k ivs Hk v Hv. apply (Hall k ivs Hk).
        rewrite lookup_insert_ne; [exact Hv | congruence].
      * destruct (limit !! key) as [ivs |] eqn:Hk; [| reflexivity].
        apply (Hall key ivs Hk). apply lookup_insert_eq.
Qed.

(** One round of the loop over the intervals of one key. *)
Lemma force_value_cons (value min max : Z) (rest : list Interval)
    (minDiff : Num) (minDiffValue : Z) :
  force_value value ((min, max) :: rest) minDiff minDiffValue
  = if (value >=? min) && (value <=? max) then (Fin 0, value)
    else
      let best1 :=
        if Num_lt (Fin (Z.abs (value - min))) minDiff
        then (Fin (Z.abs (value - min)), min)
        else (minDiff, minDiffValue) in
      let best2 :=
        if Num_lt (Fin (Z.abs (value - max))) best1.1
        then (Fin (Z.abs (value - max)), max)
        else best1 in
      force_value value rest best2.1 best2.2.
Proof.
  cbn [force_value]. destruct ((value >=? min) && (value <=? max));
    [reflexivity |].
  destruct (Num_lt (Fin (Z.abs (value - min))) minDiff); cbn [fst snd];
    destruct (Num_lt (Fin (Z.abs (value - max))) _); reflexivity.
Qed.

(** The loop over the intervals of one key ends on a finite distance and
    on a value inside one of the intervals, when there is an interval and
    every interval has [min <= max]. *)
Lemma force_value_inside (all : list Interval) (value : Z)
    (intervals : list Interval) :
  ∀ minDiff minDiffValue,
    (∀ iv, iv ∈ intervals → iv ∈ all ∧ iv.1 ≤ iv.2) →
    (minDiff = Infinity
     ∨ finite minDiff ∧ existsb (in_interval minDiffValue) all = true) →
    (intervals ≠ [] ∨ minDiff ≠ Infinity) →
    finite (force_value value intervals minDiff minDiffValue).1
    ∧ existsb (in_interval (force_value value intervals minDiff minDiffValue).2)
              all = true.
Proof.
  induction intervals as [| [min max] rest IH];
    intros minDiff minDiffValue Hall Hbest Hsome.
  - simpl. destruct Hsome as [Hsome | Hsome]; [done |].
    destruct Hbest as [-> | Hbest]; [done | exact Hbest].
  - destruct (Hall (min, max)) as [Hin Hle]; [left |]. simpl in Hle.
    assert (Hedge : ∀ x, x = min ∨ x = max →
                         existsb (in_interval x) all = true).
    { intros x Hx. apply existsb_exists. exists (min, max).
      split; [apply list_elem_of_In, Hin |].
      unfold in_interval. simpl.
      apply andb_true_iff. split; [apply Z.geb_le | apply Z.leb_le];
        destruct Hx; subst; lia. }
    rewrite force_value_cons.
    destruct ((value >=? min) && (value <=? max)) eqn:Hinside.
    + split; [by exists 0 |]. apply existsb_exists. exists (min, max).
      split; [apply list_elem_of_In, Hin | exact Hinside].
    + cbv zeta.
      assert (Hbest1 :
        ∃ d1 v1, (if Num_lt (Fin (Z.abs (value - min))) minDiff
                  then (Fin (Z.abs (value - min)), min)
                  else (minDiff, minDiffValue)) = (d1, v1)
                 ∧ finite d1 ∧ existsb (in_interval v1) all = true).
      { destruct (Num_lt (Fin (Z.abs (value - min))) minDiff) eqn:Hmin.
        - eexists _, _. split; [reflexivity |].
          split; [by eexists | apply Hedge; by left].
        - exists minDiff, minDiffValue. split; [reflexivity |].
          destruct Hbest as [-> | Hbest]; [discriminate | exact Hbest]. }
      destruct Hbest1 as [d1 [v1 [-> [Hd1 Hv1]]]]. cbn [fst snd].
      apply IH.
      * intros iv Hiv. apply Hall. right. exact Hiv.
      * right. destruct (Num_lt (Fin (Z.abs (value - max))) d1); cbn [fst snd].
        -- split; [by eexists | apply Hedge; by right].
        -- split; assumption.
      * right. destruct (Num_lt (Fin (Z.abs (value - max))) d1); cbn [fst snd].
        -- discriminate.
        -- destruct Hd1 as [z ->]. discriminate.
Qed.

Lemma intervals_ok_spec (intervals : list Interval)
    (outer : option (list Interval)) :
  intervals_ok intervals outer = true →
  intervals ≠ []
  ∧ (∀ iv, iv ∈ intervals → iv.1 ≤ iv.2)
  ∧ (∀ os value, outer = Some os →
       existsb (in_interval value) intervals = true →
       existsb (in_interval value) os = true).
Proof.
  unfold intervals_ok. destruct intervals as [| iv0 rest]; [discriminate |].
  intros Hok. rewrite forallb_forall in Hok.
  split; [discriminate |]. split.
  - intros iv Hiv. apply list_elem_of_In, Hok, andb_true_iff in Hiv as [Hle _].
    by apply Z.leb_le.
  - intros os value -> Hvalue.
    apply existsb_exists in Hvalue as [iv [Hiv Hvalue]].
    apply Hok, andb_true_iff in Hiv as [_ Hwithin].
    apply existsb_exists in Hwithin as [ov [Hov Hwithin]].
    apply existsb_exists. exists ov. split; [exact Hov |].
    unfold in_interval, interval_within in *.
    apply andb_true_iff in Hvalue as [H1 H2].
    apply andb_true_iff in Hwithin as [H3 H4].
    apply Z.geb_le in H1. apply Z.leb_le in H2, H3, H4.
    apply andb_true_iff. split; [apply Z.geb_le | apply Z.leb_le]; lia.
Qed.

Lemma forced_value_inside (intervals : list Interval)
    (outer : option (list Interval)) (value : Z) :
  intervals_ok intervals outer = true →
  finite (force_value value intervals Infinity value).1
  ∧ existsb (in_interval (forced_value (Some intervals) value)) intervals = true.
Proof.
  intros Hok. apply intervals_ok_spec in Hok as [Hsome [Hle _]].
  apply force_value_inside.
  - intros iv Hiv. split; [exact Hiv | exact (Hle iv Hiv)].
  - by left.
  - by left.
Qed.

(** What [TreeLimit.force] returns: every value of [data] is replaced by its
    forced value; the distance is finite when the intervals are usable. *)
Lemma TreeLimit_force_spec (limit : TreeLimit) (env : TreeLimit)
    (data : PoseData) :
  map_Forall (λ key intervals, intervals_ok intervals (env !! key) = true) limit →
  finite (TreeLimit_force limit data).1
  ∧ ∀ key, (TreeLimit_force limit data).2 !! key
           = forced_value (limit !! key) <$> data !! key.
Proof.
  intros Hok. unfold TreeLimit_force.
  assert (Hrun : ∀ (base : PoseData) (m : PoseData),
            let r := map_fold (λ key value (acc : Num * PoseData),
                       let '(totalDiff, newData) := acc in
                       match limit !! key with
                       | None => (totalDiff, <[key := value]> newData)
                       | Some l =>
                           let '(minDiff, minDiffValue) :=
                             force_value value l Infinity value in
                           (Num_add totalDiff minDiff,
                            <[key := minDiffValue]> newData)
                       end) (Fin 0, base) m in
            finite r.1
            ∧ ∀ key, r.2 !! key
                     = match m !! key with
                       | Some value => Some (forced_value (limit !! key) value)
                       | None => base !! key
                       end).
  { intros base. apply (map_fold_weak_ind (λ (r : Num * PoseData) (m : PoseData),
      finite r.1
      ∧ ∀ key, r.2 !! key
               = match m !! key with
                 | Some value => Some (forced_value (limit !! key) value)
                 | None => base !! key
                 end)).
    - split; [by exists 0 |]. intros key. by rewrite lookup_empty.
    - intros key value m [totalDiff newData] Hfresh [[z Hz] IH].
      simpl in Hz, IH. subst totalDiff.
      destruct (limit !! key) as [l |] eqn:Hl.
      + pose proof (forced_value_inside l (env !! key) value
                      (map_Forall_lookup_1 _ _ _ _ Hok Hl)) as [[z' Hz'] _].
        destruct (force_value value l Infinity value)
          as [minDiff minDiffValue] eqn:Hforce.
        simpl in Hz'. subst minDiff. simpl. split; [by eexists |].
        intros k. destruct (decide (key = k)) as [-> | Hne].
        * rewrite !lookup_insert_eq, Hl. unfold forced_value.
          by rewrite Hforce.
        * rewrite !lookup_insert_ne by exact Hne. apply IH.
      + simpl. split; [by eexists |].
        intros k. destruct (decide (key = k)) as [-> | Hne].
        * rewrite !lookup_insert_eq, Hl. reflexivity.
        * rewrite !lookup_insert_ne by exact Hne. apply IH. }
  destruct (Hrun data data) as [Hfinite Hlookup].
  split; [exact Hfinite |].
  intros key. rewrite Hlookup. by destruct (data !! key).
Qed.

(** What the loop over the children returns: what it started with, or the
    result of one of the children. *)
Lemma force_children_spec (forceChild : TreeNode → Num * PoseData)
    (cs : list TreeNode) :
  ∀ minDiff minData,
    (∀ c, c ∈ cs → finite (forceChild c).1) →
    let r := force_children forceChild cs minDiff minData in
    (r = (minDiff, minData) ∧ (cs = [] ∨ minDiff ≠ Infinity))
    ∨ ∃ c, c ∈ cs ∧ r = ((forceChild c).1, Some (forceChild c).2).
Proof.
  induction cs as [| child rest IH]; intros minDiff minData Hfinite; simpl.
  - left. split; [reflexivity | by left].
  - destruct (Hfinite child) as [z Hz]; [left |].
    destruct (forceChild child) as [childDiff childData] eqn:Hchild.
    simpl in Hz. subst childDiff.
    assert (Hrest : ∀ c, c ∈ rest → finite (forceChild c).1)
      by (intros c Hc; apply Hfinite; right; exact Hc).
    destruct (Num_lt (Fin z) minDiff) eqn:Hlt.
    + destruct (Num_is_zero (Fin z)).
      * right. exists child. split; [left |]. by rewrite Hchild.
      * destruct (IH (Fin z) (Some childData) Hrest) as [[Hr _] | [c [Hc Hr]]].
        -- right. exists child. split; [left |]. by rewrite Hchild.
        -- right. exists c. split; [right; exact Hc | exact Hr].
    + assert (Hbest : minDiff ≠ Infinity) by (intros ->; discriminate).
      destruct (Num_is_zero minDiff).
      * left. split; [reflexivity | by right].
      * destruct (IH minDiff minData Hrest) as [[Hr _] | [c [Hc Hr]]].
        -- left. split; [exact Hr | by right].
        -- right. exists c. split; [right; exact Hc | exact Hr].
Qed.

(** On a consistent node, [force] ends on a finite distance and on data
    that the node validates, and it keeps the data within every interval of
    the enclosing nodes that it was within. *)
Lemma TreeNode_force_consistent (n : TreeNode) :
  ∀ env data,
    consistent env n = true →
    finite (TreeNode_force n data).1
    ∧ TreeNode_validate n (TreeNode_force n data).2 = true
    ∧ ∀ key intervals, env !! key = Some intervals →
        satisfies_at key intervals data →
        satisfies_at key intervals (TreeNode_force n data).2.
Proof.
  induction n as [limit children IH] using TreeNode_nested_ind.
  intros env data Hcons. cbn [consistent] in Hcons.
  apply andb_true_iff in Hcons as [Hlimit Hchildren].
  apply bool_decide_eq_true in Hlimit.
  cbn [TreeNode_force TreeNode_validate].
  destruct (TreeLimit_force_spec limit env data Hlimit) as [Hfinite Hlookup].
  destruct (TreeLimit_force limit data) as [diff newData].
  cbn [fst snd] in Hfinite, Hlookup.
  assert (Hnew_limit : ∀ key intervals, limit !! key = Some intervals →
                         satisfies_at key intervals newData).
  { intros key intervals Hkey value Hvalue. rewrite Hlookup, Hkey in Hvalue.
    destruct (data !! key) as [value0 |]; [| discriminate].
    injection Hvalue as <-.
    apply (forced_value_inside intervals (env !! key) value0).
    exact (map_Forall_lookup_1 _ _ _ _ Hlimit Hkey). }
  assert (Hwithin : ∀ key inner outer (d : PoseData),
            limit !! key = Some inner → env !! key = Some outer →
            satisfies_at key inner d → satisfies_at key outer d).
  { intros key inner outer d Hinner Houter Hsat value Hvalue.
    pose proof (map_Forall_lookup_1 _ _ _ _ Hlimit Hinner) as Hok.
    apply intervals_ok_spec in Hok as [_ [_ Hok]].
    exact (Hok outer value Houter (Hsat value Hvalue)). }
  assert (Hnew_env : ∀ key intervals, env !! key = Some intervals →
                       satisfies_at key intervals data →
                       satisfies_at key intervals newData).
  { intros key intervals Hkey Hsat.
    destruct (limit !! key) as [inner |] eqn:Hinner.
    - exact (Hwithin key inner intervals newData Hinner Hkey
               (Hnew_limit key inner Hinner)).
    - intros value Hvalue. rewrite Hlookup, Hinner in Hvalue.
      destruct (data !! key) as [value0 |] eqn:Hdata; [| discriminate].
      injection Hvalue as <-. exact (Hsat value0 Hdata). }
  destruct children as [cs |].
  - destruct cs as [| c0 cs']; [discriminate |].
    set (cs := c0 :: cs') in *.
    rewrite Forall_forall in IH. rewrite forallb_forall in Hchildren.
    assert (Hchild : ∀ c, c ∈ cs →
              finite (TreeNode_force c newData).1
              ∧ TreeNode_validate c (TreeNode_force c newData).2 = true
              ∧ ∀ key intervals, (limit ∪ env) !! key = Some intervals →
                  satisfies_at key intervals newData →
                  satisfies_at key intervals (TreeNode_force c newData).2).
    { intros c Hc. apply (IH c Hc). apply Hchildren, list_elem_of_In, Hc. }
    destruct (force_children_spec (λ child, TreeNode_force child newData) cs
                Infinity None (λ c Hc, proj1 (Hchild c Hc)))
      as [[_ [Hnil | Hinf]] | [c [Hc Hr]]]; [discriminate | done |].
    rewrite Hr. destruct (Hchild c Hc) as [[z Hz] [Hvalid Hkeep]].
    assert (Hc_limit : ∀ key intervals, limit !! key = Some intervals →
              satisfies_at key intervals (TreeNode_force c newData).2).
    { intros key intervals Hkey. apply Hkeep.
      - apply lookup_union_Some_l. exact Hkey.
      - exact (Hnew_limit key intervals Hkey). }
    cbn [fst snd]. split; [| split].
    + destruct Hfinite as [z0 ->]. rewrite Hz. by eexists.
    + rewrite (proj2 (TreeLimit_validate_spec limit _) Hc_limit).
      cbn [negb]. apply existsb_exists. exists c.
      split; [apply list_elem_of_In, Hc | exact Hvalid].
    + intros key intervals Hkey Hsat.
      destruct (limit !! key) as [inner |] eqn:Hinner.
      * exact (Hwithin key inner intervals _ Hinner Hkey
                 (Hc_limit key inner Hinner)).
      * apply Hkeep; [| exact (Hnew_env key intervals Hkey Hsat)].
        rewrite lookup_union_r; assumption.
  - cbn [fst snd]. split; [exact Hfinite |]. split; [| exact Hnew_env].
    by rewrite (proj2 (TreeLimit_validate_spec limit newData) Hnew_limit).
Qed.

(** Force convergence on consistent nodes: the data that [TreeNode.force]
    returns passes [TreeNode.validate]. *)
Theorem force_validates_on_consistent_node (n : TreeNode) (data : PoseData) :
  consistent ∅ n = true →
  TreeNode_validate n (TreeNode_force n data).2 = true.
Proof.
  intros Hcons. exact (proj1 (proj2 (TreeNode_force_consistent n ∅ data Hcons))).
Qed.

(** The tree of the spec's third scenario is consistent; the tree on which
    [force] returns a rejected pose is not. *)
Example consistent_examples :
  (consistent ∅ <$> root (tree_of [limits_A; limits_B])) = Some true
  ∧ (consistent ∅ <$> root (tree_of [limits_M; limits_N])) = Some false.
Proof. vm_compute. split; reflexivity. Qed.


(** ** [merge] without alternatives *)

Lemma TreeLimit_extend_lookup (this other : TreeLimit) (key : string) :
  TreeLimit_extend this other !! key
  = match this !! key with
    | Some intervals => Some intervals
    | None => other !! key
    end.
Proof.
  unfold TreeLimit_extend. revert key.
  apply (map_fold_weak_ind (λ (r : TreeLimit) (m : TreeLimit),
           ∀ key, r !! key = match this !! key with
                             | Some intervals => Some intervals
                             | None => m !! key
                             end)).
  - intros key. rewrite lookup_empty. by destruct (this !! key).
  - intros k intervals m r Hfresh IH key.
    destruct (r !! k) as [present |] eqn:Hr.
    + rewrite IH. destruct (decide (k = key)) as [-> | Hne].
      * rewrite IH in Hr. rewrite lookup_insert_eq.
        destruct (this !! key); [reflexivity | congruence].
      * by rewrite lookup_insert_ne.
    + destruct (decide (k = key)) as [-> | Hne].
      * rewrite !lookup_insert_eq. rewrite IH, Hfresh in Hr.
        by destruct (this !! key).
      * rewrite !lookup_insert_ne by exact Hne. apply IH.
Qed.

Lemma TreeLimit_intersection_lookup (this other result : TreeLimit)
    (key : string) :
  TreeLimit_intersection this other = Some result →
  result !! key
  = match this !! key, other !! key with
    | Some a, Some b => Some (IntervalSetIntersection a b)
    | _, _ => None
    end.
Proof.
  unfold TreeLimit_intersection. revert result key.
  apply (map_fold_weak_ind (λ (r : option TreeLimit) (m : TreeLimit),
           ∀ result key, r = Some result →
             result !! key
             = match m !! key, other !! key with
               | Some a, Some b => Some (IntervalSetIntersection a b)
               | _, _ => None
               end)).
  - intros result key [= <-]. by rewrite !lookup_empty.
  - intros k a m r Hfresh IH result key.
    destruct r as [newLimit |]; [| discriminate].
    specialize (IH newLimit).
    destruct (other !! k) as [b |] eqn:Hother.
    + case_bool_decide; [discriminate |]. intros [= <-].
      destruct (decide (k = key)) as [-> | Hne].
      * by rewrite !lookup_insert_eq, Hother.
      * rewrite !lookup_insert_ne by exact Hne. by apply IH.
    + intros [= <-]. destruct (decide (k = key)) as [-> | Hne].
      * rewrite lookup_insert_eq, Hother, (IH key eq_refl), Hfresh. reflexivity.
      * rewrite lookup_insert_ne by exact Hne. by apply IH.
Qed.

(** A value inside the intersection of two interval sets is inside the
    first. *)
Lemma IntervalSetIntersection_inside (a b : list Interval) (value : Z) :
  existsb (in_interval value) (IntervalSetIntersection a b) = true →
  existsb (in_interval value) a = true.
Proof.
  unfold IntervalSetIntersection. intros Hin.
  apply existsb_exists in Hin as [iv [Hiv Hvalue]].
  apply in_flat_map in Hiv as [x [Hx Hiv]].
  apply in_flat_map in Hiv as [y [Hy Hiv]].
  apply existsb_exists. exists x. split; [exact Hx |].
  destruct (Z.max x.1 y.1 <=? Z.min x.2 y.2); [| destruct Hiv].
  destruct Hiv as [<- | []].
  unfold in_interval in *. simpl in Hvalue.
  apply andb_true_iff in Hvalue as [H1 H2].
  apply Z.geb_le in H1. apply Z.leb_le in H2.
  apply andb_true_iff. split; [apply Z.geb_le | apply Z.leb_le]; lia.
Qed.

(** Intersecting a node without children with a limit leaves a node without
    children whose limit accepts no more data than before. *)
Lemma intersectionWithLimit_flat (limit other : TreeLimit) (next : TreeNode) :
  intersectionWithLimit (Node limit None) other false = Some next →
  node_children next = None
  ∧ ∀ data, TreeLimit_validate (node_limit next) data = true →
            TreeLimit_validate limit data = true.
Proof.
  cbn [intersectionWithLimit].
  destruct (TreeLimit_intersection limit other) as [common |] eqn:Hcommon;
    [| discriminate].
  intros [= <-]. split; [reflexivity |]. cbn [node_limit].
  intros data. rewrite !TreeLimit_validate_spec.
  intros Hnew key intervals Hkey value Hvalue.
  pose proof (TreeLimit_intersection_lookup _ _ _ key Hcommon) as Hlookup.
  rewrite Hkey in Hlookup.
  destruct (other !! key) as [b |] eqn:Hother.
  - apply (IntervalSetIntersection_inside intervals b).
    apply (Hnew key (IntervalSetIntersection intervals b)); [| exact Hvalue].
    rewrite !TreeLimit_extend_lookup, Hlookup. reflexivity.
  - apply (Hnew key intervals); [| exact Hvalue].
    rewrite !TreeLimit_extend_lookup, Hlookup, Hkey. reflexivity.
Qed.

Section Terminal.
Context `{Schemas}.

(** Once the root is [null], [merge] returns [false] and leaves the tree as
    it is. *)
Lemma merge_invalid (t : AppearanceLimitTree)
    (limits : option AssetDefinitionPoseLimits) :
  valid t = false → merge t limits = (false, t).
Proof.
  unfold valid, merge. destruct (root t); [discriminate | reflexivity].
Qed.

Lemma merge_all_invalid (t : AppearanceLimitTree)
    (ls : list (option AssetDefinitionPoseLimits)) :
  valid t = false → merge_all t ls = t.
Proof.
  intros Hinv. unfold merge_all. induction ls as [| l ls IH]; simpl.
  - reflexivity.
  - rewrite (merge_invalid t l Hinv). exact IH.
Qed.

Lemma merge_all_app (t : AppearanceLimitTree)
    (ls ls' : list (option AssetDefinitionPoseLimits)) :
  merge_all t (ls ++ ls') = merge_all (merge_all t ls) ls'.
Proof. unfold merge_all. apply foldl_app. Qed.

Lemma validate_invalid (t : AppearanceLimitTree)
    (pose : PartialAppearancePose) :
  valid t = false → validate t pose = false.
Proof.
  unfold valid, validate. destruct (root t); [discriminate | reflexivity].
Qed.

Lemma force_invalid (t : AppearanceLimitTree) (pose : AppearancePose) :
  valid t = false → force t pose = mkForceResult pose false.
Proof.
  unfold valid, force. destruct (root t); [discriminate | reflexivity].
Qed.

(** C5.  Invalidity is terminal: if the root is [null] after some sequence
    of merges, then it is still [null] after any further merges, and each
    of those further merges returns [false]. *)
Theorem invalidity_is_terminal (t : AppearanceLimitTree)
    (ls ls' : list (option AssetDefinitionPoseLimits))
    (limits : option AssetDefinitionPoseLimits) :
  valid (merge_all t ls) = false →
  valid (merge_all t (ls ++ ls')) = false
  ∧ root (merge_all t (ls ++ ls')) = None
  ∧ (merge (merge_all t (ls ++ ls')) limits).1 = false.
Proof.
  intros Hinv.
  rewrite merge_all_app, (merge_all_invalid _ ls' Hinv).
  split; [exact Hinv |]. split.
  - unfold valid in Hinv. destruct (root (merge_all t ls)); [discriminate | reflexivity].
  - rewrite (merge_invalid _ limits Hinv). reflexivity.
Qed.

(** C3 (as amended).  When the intersection computed by [merge] is empty,
    [merge] returns [false] and the root becomes [null]; after that, and
    after any further merges, [merge] returns [false], [validate] returns
    [false] for every pose, and [force] returns the pose it was given with
    [changed: false]. *)
Theorem empty_intersection_behaviour (r : TreeNode)
    (limits : AssetDefinitionPoseLimits)
    (ls : list (option AssetDefinitionPoseLimits))
    (later : option AssetDefinitionPoseLimits)
    (partial : PartialAppearancePose) (pose : AppearancePose) :
  TreeNode_intersection r (CreateTreeNode limits) = None →
  (merge (mkTree (Some r)) (Some limits)).1 = false
  ∧ let t := merge_all (merge (mkTree (Some r)) (Some limits)).2 ls in
    valid t = false
    ∧ (merge t later).1 = false
    ∧ validate t partial = false
    ∧ force t pose = mkForceResult pose false.
Proof.
  intros Hempty. unfold merge at 1 2. simpl. rewrite Hempty. simpl.
  split; [reflexivity |].
  assert (Hinv : valid (merge_all (mkTree None) ls) = false).
  { rewrite merge_all_invalid; reflexivity. }
  split; [exact Hinv |]. split; [| split].
  - rewrite (merge_invalid _ later Hinv). reflexivity.
  - apply validate_invalid, Hinv.
  - apply force_invalid, Hinv.
Qed.

(** Merging a definition without options into a tree without alternatives
    leaves a tree without alternatives, and every pose that the tree
    validates after the merge was validated before. *)
Lemma merge_flat (t : AppearanceLimitTree) (limits : AssetDefinitionPoseLimits)
    (pose : PartialAppearancePose) :
  flat t = true → no_options limits = true →
  flat (merge t (Some limits)).2 = true
  ∧ (validate (merge t (Some limits)).2 pose = true → validate t pose = true).
Proof.
  unfold flat, merge, validate. destruct t as [[[limit [cs |]] |]]; simpl;
    [discriminate | | intros _ _; split; [reflexivity | discriminate]].
  intros _ Hflat.
  destruct limits as [l_bones l_left l_right l_arms l_view [options |]];
    [discriminate |].
  cbn [CreateTreeNode TreeNode_intersection].
  destruct (intersectionWithLimit (Node limit None) _ false) as [next |] eqn:Hnext;
    simpl; [| split; [reflexivity | discriminate]].
  apply intersectionWithLimit_flat in Hnext as [Hchildren Hvalid].
  destruct next as [limit' children']. simpl in Hchildren, Hvalid.
  subst children'. split; [reflexivity |].
  specialize (Hvalid (FromPose pose)).
  cbn [TreeNode_validate].
  destruct (TreeLimit_validate limit' (FromPose pose)); simpl;
    [| intros Hno; discriminate Hno].
  intros _. by rewrite Hvalid.
Qed.

Lemma merge_all_flat (ls : list AssetDefinitionPoseLimits)
    (t : AppearanceLimitTree) :
  flat t = true → forallb no_options ls = true →
  flat (merge_all t (map Some ls)) = true.
Proof.
  revert t. induction ls as [| l ls IH]; intros t Hflat Hls; simpl.
  - exact Hflat.
  - apply andb_true_iff in Hls as [Hl Hls].
    apply IH; [| exact Hls].
    exact (proj1 (merge_flat t l (mkPartialPose None None None None None)
                    Hflat Hl)).
Qed.

(** Constraint monotonicity for definitions without options: after any
    sequence of merges of such definitions into a new tree, one more such
    merge does not make the tree validate a pose that it rejected. *)
Theorem merge_monotone_without_options
    (ls : list AssetDefinitionPoseLimits) (limits : AssetDefinitionPoseLimits)
    (pose : PartialAppearancePose) :
  forallb no_options ls = true → no_options limits = true →
  validate (merge (merge_all AppearanceLimitTree_new (map Some ls))
                  (Some limits)).2 pose = true →
  validate (merge_all AppearanceLimitTree_new (map Some ls)) pose = true.
Proof.
  intros Hls Hlimits.
  apply merge_flat; [| exact Hlimits].
  apply merge_all_flat; [reflexivity | exact Hls].
Qed.

End Terminal.

#[local] Existing Instance sample_schemas.

Lemma invalidity_is_terminal_witness :
  valid (merge_all AppearanceLimitTree_new [Some limits_A; Some limits_C]) = false
  ∧ valid (merge_all AppearanceLimitTree_new
             ([Some limits_A; Some limits_C] ++ [Some limits_B; None])) = false.
Proof.
  assert (Hinv : valid (merge_all AppearanceLimitTree_new
                          [Some limits_A; Some limits_C]) = false)
    by (vm_compute; reflexivity).
  split; [exact Hinv |].
  exact (proj1 (invalidity_is_terminal AppearanceLimitTree_new
                  [Some limits_A; Some limits_C] [Some limits_B; None] None Hinv)).
Defined.

Lemma empty_intersection_behaviour_witness :
  TreeNode_intersection node_A (CreateTreeNode limits_C) = None
  ∧ (merge (mkTree (Some node_A)) (Some limits_C)).1 = false.
Proof.
  assert (Hempty : TreeNode_intersection node_A (CreateTreeNode limits_C) = None)
    by (vm_compute; reflexivity).
  split; [exact Hempty |].
  exact (proj1 (empty_intersection_behaviour node_A limits_C [] None
                  (to_partial pose_leg_35) pose_leg_35 Hempty)).
Defined.

(** C3, the claim as stated fails.  Merging [limits_C] into the tree of
    [limits_A] yields an empty intersection: [merge] returns [false] and the
    tree is invalid.  [force] on that tree then returns the pose it was
    given with [changed: false], which is how it reports a pose that needs
    no change. *)
Lemma force_after_failed_merge_reports_unchanged :
  root (tree_of [limits_A]) = Some node_A
  ∧ (merge (tree_of [limits_A]) (Some limits_C)).1 = false
  ∧ valid (merge (tree_of [limits_A]) (Some limits_C)).2 = false
  ∧ fr_changed (force (merge (tree_of [limits_A]) (Some limits_C)).2 pose_leg_35)
    = false
  ∧ fr_pose (force (merge (tree_of [limits_A]) (Some limits_C)).2 pose_leg_35)
    = pose_leg_35.
Proof. vm_compute. repeat split; reflexivity. Qed.

(** The third scenario of the spec: with [leg_l] limited to [[-10, 10]] by
    one item and to [[5, 20]] by another, [{ leg_l: 30 }] is rejected and
    forced to [{ leg_l: 10 }]. *)
Example scenario_two_leg_limits :
  validate (tree_of [limits_A; limits_B]) (to_partial pose_leg_30) = false
  ∧ force (tree_of [limits_A; limits_B]) pose_leg_30
    = mkForceResult pose_leg_10 true
  ∧ validate (tree_of [limits_A; limits_B]) (to_partial pose_leg_10) = true.
Proof. vm_compute. repeat split; reflexivity. Qed.

(** C4, evaluated at a failing input.  The tree of [limits_K] rejects the
    pose [{ a: 0, k: 25 }] ([k] is limited to [[0, 10]]); merging [limits_L]
    into it succeeds, and the tree after the merge accepts that pose: the
    one surviving branch replaces the root and keeps its own [k] interval
    [[20, 30]] in place of the root's. *)
Theorem merge_accepts_rejected_pose :
  validate (tree_of [limits_K]) (to_partial pose_a0_k25) = false
  ∧ (merge (tree_of [limits_K]) (Some limits_L)).1 = true
  ∧ root (merge (tree_of [limits_K]) (Some limits_L)).2
    = Some (Node {[ "bones.a" := [(0, 0)]; "bones.k" := [(20, 30)] ]} None)
  ∧ validate (merge (tree_of [limits_K]) (Some limits_L)).2
             (to_partial pose_a0_k25) = true.
Proof. vm_compute. repeat split; reflexivity. Qed.

(** C2, evaluated at a failing input.  The tree of [limits_M] and
    [limits_N] is valid and accepts the pose [{ a: 100, k: 5 }]; on the pose
    [{ a: 0, k: 5 }], [force] returns [{ a: 0, k: 20 }] with
    [changed: true], and [validate] rejects that pose: the root limits [k]
    to [[0, 10]]. *)
Theorem force_returns_rejected_pose :
  valid (tree_of [limits_M; limits_N]) = true
  ∧ root (tree_of [limits_M; limits_N])
    = Some (Node {[ "bones.k" := [(0, 10)] ]}
              (Some [Node {[ "bones.a" := [(0, 0)]; "bones.k" := [(20, 30)] ]} None;
                     Node {[ "bones.a" := [(100, 100)] ]} None]))
  ∧ validate (tree_of [limits_M; limits_N]) (to_partial pose_a100_k5) = true
  ∧ force (tree_of [limits_M; limits_N]) pose_a0_k5
    = mkForceResult pose_a0_k20 true
  ∧ validate (tree_of [limits_M; limits_N])
             (to_partial (fr_pose (force (tree_of [limits_M; limits_N]) pose_a0_k5)))
    = false.
Proof. vm_compute. repeat split; reflexivity. Qed.

End LimitTheorems.

Module ActionTheorems.
Import AppearanceActions ActionPredicates ActionSamples.

Section Actions.
Context {Appearance Asset AssetManager : Type}.
Variable getAssetById : AssetManager → AssetId → option Asset.
Variable allowCreateItem : Appearance → ItemId → Asset → bool.
Variable createItem : Appearance → ItemId → Asset → Appearance.
Variable allowRemoveItem : Appearance → ItemId → bool.
Variable removeItem : Appearance → ItemId → Appearance.
Variable importPose : Appearance → gmap string Z → PoseActionType → Appearance.

Local Abbreviation Do :=
  (DoAppearanceAction getAssetById allowCreateItem createItem
     allowRemoveItem removeItem importPose).

Local Abbreviation validate_phase :=
  (spec_validate_phase getAssetById allowCreateItem allowRemoveItem).
Local Abbreviation commit :=
  (spec_commit getAssetById createItem removeItem importPose).

(** [DoAppearanceAction] is the validation phase, followed by the commit
    when the validation succeeds and the call is not a dry run. *)
Lemma DoAppearanceAction_phases (action : AppearanceAction)
    (context : AppearanceActionContext) (assetManager : AssetManager)
    (dryRun : bool) :
  Do action context assetManager dryRun
  = (validate_phase action context assetManager,
     if validate_phase action context assetManager && negb dryRun
     then commit action context assetManager
     else context).
Proof.
  unfold DoAppearanceAction, spec_validate_phase, spec_commit.
  destruct (characters context !! action_target action) as [appearance |];
    [| reflexivity].
  destruct action as [target itemId assetId | target itemId | target pose
                      | target pose]; simpl.
  - destruct (getAssetById assetManager assetId) as [asset |]; [| reflexivity].
    destruct (allowCreateItem appearance itemId asset), dryRun; reflexivity.
  - destruct (allowRemoveItem appearance itemId), dryRun; reflexivity.
  - destruct (bool_decide (player context = target)), dryRun; reflexivity.
  - destruct (bool_decide (player context = target)), dryRun; reflexivity.
Qed.

(** C1.  A dry run leaves the context (every character's appearance) as it
    was, and returns the result of the validation phase, which is also what
    the call without [dryRun] returns on the same action, context and asset
    manager. *)
Theorem dryRun_changes_nothing_and_agrees (action : AppearanceAction)
    (context : AppearanceActionContext) (assetManager : AssetManager) :
  (Do action context assetManager true).2 = context
  ∧ (Do action context assetManager true).1
    = validate_phase action context assetManager
  ∧ (Do action context assetManager true).1
    = (Do action context assetManager false).1.
Proof.
  rewrite !DoAppearanceAction_phases. simpl.
  rewrite andb_false_r. repeat split; reflexivity.
Qed.

(** C9 (as amended).  When the context has no appearance for the target of
    the action, [DoAppearanceAction] returns [false], with or without
    [dryRun], and leaves the context as it was. *)
Theorem unknown_target_fails (action : AppearanceAction)
    (context : AppearanceActionContext) (assetManager : AssetManager)
    (dryRun : bool) :
  characters context !! action_target action = None →
  Do action context assetManager dryRun = (false, context).
Proof.
  intros Hnone. unfold DoAppearanceAction. rewrite Hnone. reflexivity.
Qed.

(** C10.  A [pose] or [body] action whose target is not the player fails,
    with or without [dryRun], whatever the appearance methods answer, and
    leaves the context as it was. *)
Theorem pose_of_other_character_fails (target : CharacterId)
    (pose : gmap string Z) (context : AppearanceActionContext)
    (assetManager : AssetManager) (dryRun : bool) :
  player context ≠ target →
  Do (ActionPose target pose) context assetManager dryRun = (false, context)
  ∧ Do (ActionBody target pose) context assetManager dryRun = (false, context).
Proof.
  intros Hother. unfold DoAppearanceAction. simpl.
  destruct (characters context !! target) as [appearance |];
    [| split; reflexivity].
  rewrite bool_decide_eq_false_2 by exact Hother.
  split; reflexivity.
Qed.

End Actions.

Lemma unknown_target_fails_witness :
  characters sample_context !! action_target (ActionDelete "c3" "i/1") = None
  ∧ sample_DoAppearanceAction (ActionDelete "c3" "i/1") sample_context
      sample_manager false = (false, sample_context).
Proof.
  assert (Hnone : characters sample_context
                    !! action_target (ActionDelete "c3" "i/1") = None)
    by (vm_compute; reflexivity).
  split; [exact Hnone |].
  exact (unknown_target_fails sample_getAssetById sample_allowCreateItem
           sample_createItem sample_allowRemoveItem sample_removeItem
           sample_importPose (ActionDelete "c3" "i/1") sample_context
           sample_manager false Hnone).
Defined.

(** C9, the claim as stated fails.  The result of [DoAppearanceAction] is a
    boolean.  On a target that the context does not have it is [false], the
    value that is also returned when a known target is posed by another
    player: no reading of the result yields [targetNotFound] in the first
    case only. *)
Lemma unknown_target_gives_no_reason :
  sample_DoAppearanceAction (ActionDelete "c3" "i/1") sample_context
    sample_manager false = (false, sample_context)
  ∧ sample_DoAppearanceAction (ActionPose "c2" ∅) sample_context
      sample_manager false = (false, sample_context)
  ∧ ¬ ∃ reason_of : bool → string,
        reason_of (sample_DoAppearanceAction (ActionDelete "c3" "i/1")
                     sample_context sample_manager false).1
        = "targetNotFound"
        ∧ reason_of (sample_DoAppearanceAction (ActionPose "c2" ∅)
                       sample_context sample_manager false).1
          ≠ "targetNotFound".
Proof.
  assert (H1 : sample_DoAppearanceAction (ActionDelete "c3" "i/1")
                 sample_context sample_manager false = (false, sample_context))
    by (vm_compute; reflexivity).
  assert (H2 : sample_DoAppearanceAction (ActionPose "c2" ∅) sample_context
                 sample_manager false = (false, sample_context))
    by (vm_compute; reflexivity).
  split; [exact H1 |]. split; [exact H2 |].
  rewrite H1, H2. intros [reason_of [Hyes Hno]]. exact (Hno Hyes).
Qed.

Lemma pose_of_other_character_fails_witness :
  player sample_context ≠ "c2"
  ∧ sample_DoAppearanceAction (ActionPose "c2" {[ "leg_l" := 5 ]})
      sample_context sample_manager false = (false, sample_context).
Proof.
  assert (Hother : player sample_context ≠ "c2") by (simpl; discriminate).
  split; [exact Hother |].
  exact (proj1 (pose_of_other_character_fails sample_getAssetById
                  sample_allowCreateItem sample_createItem
                  sample_allowRemoveItem sample_removeItem sample_importPose
                  "c2" {[ "leg_l" := 5 ]} sample_context sample_manager false
                  Hother)).
Defined.

End ActionTheorems.

Module InventoryTheorems.
Import Inventory InventorySamples InventoryPredicates.

Section Storage.
Variable AssetSizeMapping : AssetSize → option Z.

(** *** The three building blocks of [ValidateStorage] *)

Lemma has_repeated_id_false (ids : gset ItemId) (contents : AppearanceItems) :
  has_repeated_id ids contents = false
  ↔ (∀ i, i ∈ contents → item_id i ∉ ids) ∧ NoDup (map item_id contents).
Proof.
  revert ids. induction contents as [| item rest IH]; intros ids; simpl.
  - split; [intros _ | reflexivity].
    split; [intros i Hi; inversion Hi | constructor].
  - case_bool_decide as Hin.
    + split; [discriminate |]. intros [Hfresh _].
      exfalso. apply (Hfresh item); [left | exact Hin].
    + rewrite IH, NoDup_cons. split.
      * intros [Hrest Hnodup]. split; [| split; [| exact Hnodup]].
        -- intros i Hi. apply elem_of_cons in Hi as [-> | Hi]; [exact Hin |].
           intros Hi'. apply (Hrest i Hi), elem_of_union. right. exact Hi'.
        -- intros Hdup. apply list_elem_of_fmap in Hdup as [i [Heq Hi]].
           apply (Hrest i Hi), elem_of_union. left.
           apply elem_of_singleton. symmetry. exact Heq.
      * intros [Hfresh [Hnotin Hnodup]]. split; [| exact Hnodup].
        intros i Hi Hi'. apply elem_of_union in Hi' as [Hi' | Hi'].
        -- apply elem_of_singleton in Hi'. apply Hnotin.
           apply list_elem_of_fmap. exists i. split; [symmetry |]; assumption.
        -- apply (Hfresh i); [right |]; assumption.
Qed.

Lemma has_repeated_id_NoDup (contents : AppearanceItems) :
  has_repeated_id ∅ contents = false ↔ NoDup (map item_id contents).
Proof.
  rewrite has_repeated_id_false. split; [intros [_ H]; exact H |].
  intros H. split; [| exact H]. intros i _. apply not_elem_of_empty.
Qed.

Lemma combine_results_success (acc : AppearanceValidationResult)
    (results : list AppearanceValidationResult) :
  foldl AppearanceValidationCombineResults acc results = Success
  ↔ acc = Success ∧ Forall (λ r, r = Success) results.
Proof.
  revert acc. induction results as [| r results IH]; intros acc; simpl.
  - split; [intros ->; split; [reflexivity | constructor] | intros [-> _]; reflexivity].
  - rewrite IH, Forall_cons. destruct acc as [| e]; simpl.
    + tauto.
    + split; [intros [Hf _]; discriminate | intros [Hf _]; discriminate].
Qed.

Lemma find_None_Forall {A} (f : A → bool) (l : list A) :
  find f l = None ↔ Forall (λ x, f x = false) l.
Proof.
  induction l as [| x l IH]; simpl.
  - split; [constructor | reflexivity].
  - rewrite Forall_cons. destruct (f x); [| tauto].
    split; [discriminate | intros [Hx _]; discriminate].
Qed.

Lemma find_Some_elem {A} (f : A → bool) (l : list A) (x : A) :
  find f l = Some x → x ∈ l ∧ f x = true.
Proof.
  induction l as [| y l IH]; simpl; [discriminate |].
  destruct (f y) eqn:Hy.
  - intros [= ->]. split; [left | exact Hy].
  - intros Hfind. destruct (IH Hfind) as [Hin Hx].
    split; [right |]; assumption.
Qed.

(** [ValidateStorage] succeeds exactly when the four checks pass. *)
Lemma ValidateStorage_success
    (validate : Item → bool → AppearanceValidationResult)
    (contents : AppearanceItems) (config : IModuleConfigStorage) :
  ValidateStorage AssetSizeMapping validate contents config = Success
  ↔ NoDup (map item_id contents)
    ∧ Z.of_nat (length contents) ≤ maxCount config
    ∧ Forall (λ i, exceeds_size AssetSizeMapping config i = false) contents
    ∧ Forall (λ i, validate i false = Success) contents.
Proof.
  unfold ValidateStorage.
  destruct (has_repeated_id ∅ contents) eqn:Hrep.
  { split; [discriminate |]. intros [Hnodup _].
    apply has_repeated_id_NoDup in Hnodup. congruence. }
  apply has_repeated_id_NoDup in Hrep.
  destruct (Z.gtb_spec (Z.of_nat (length contents)) (maxCount config)) as [Hgt | Hle].
  { split; [discriminate |]. intros [_ [Hle _]]. lia. }
  fold (exceeds_size AssetSizeMapping config).
  destruct (find (exceeds_size AssetSizeMapping config) contents) as [p |] eqn:Hfind.
  { split; [discriminate |]. intros [_ [_ [Hsize _]]].
    apply find_None_Forall in Hsize. congruence. }
  apply find_None_Forall in Hfind.
  rewrite combine_results_success, Forall_fmap.
  split.
  - intros [_ Hall]. repeat split; assumption.
  - intros [_ [_ [_ Hall]]]. split; [reflexivity | exact Hall].
Qed.

(** C7 (as amended).  [ValidateStorage] runs its checks in a fixed order and
    reports the first that fails: a repeated item id gives [invalid]; with
    distinct ids, more items than [maxCount] gives [tooManyItems] with the
    configured limit; with distinct ids and at most [maxCount] items, an
    item whose size class is above [maxAcceptedSize] gives
    [contentNotAllowed] for such an item; and the validation succeeds exactly
    when none of these applies and every contained item validates. *)
Theorem ValidateStorage_caps
    (validate : Item → bool → AppearanceValidationResult)
    (contents : AppearanceItems) (config : IModuleConfigStorage) :
  (¬ NoDup (map item_id contents) →
     ValidateStorage AssetSizeMapping validate contents config
     = Failure ProblemInvalid)
  ∧ (NoDup (map item_id contents) →
     Z.of_nat (length contents) > maxCount config →
     ValidateStorage AssetSizeMapping validate contents config
     = Failure (ProblemTooManyItems None (maxCount config)))
  ∧ (NoDup (map item_id contents) →
     Z.of_nat (length contents) ≤ maxCount config →
     Exists (λ i, exceeds_size AssetSizeMapping config i = true) contents →
     ∃ problematic,
       problematic ∈ contents
       ∧ exceeds_size AssetSizeMapping config problematic = true
       ∧ ValidateStorage AssetSizeMapping validate contents config
         = Failure (ProblemContentNotAllowed (asset_id (item_asset problematic))))
  ∧ (ValidateStorage AssetSizeMapping validate contents config = Success
     ↔ NoDup (map item_id contents)
       ∧ Z.of_nat (length contents) ≤ maxCount config
       ∧ Forall (λ i, exceeds_size AssetSizeMapping config i = false) contents
       ∧ Forall (λ i, validate i false = Success) contents).
Proof.
  split; [| split; [| split]].
  - intros Hdup. unfold ValidateStorage.
    destruct (has_repeated_id ∅ contents) eqn:Hrep; [reflexivity |].
    apply has_repeated_id_NoDup in Hrep. contradiction.
  - intros Hnodup Hgt. unfold ValidateStorage.
    apply has_repeated_id_NoDup in Hnodup. rewrite Hnodup.
    destruct (Z.gtb_spec (Z.of_nat (length contents)) (maxCount config));
      [reflexivity | lia].
  - intros Hnodup Hle Hbig. unfold ValidateStorage.
    apply has_repeated_id_NoDup in Hnodup. rewrite Hnodup.
    destruct (Z.gtb_spec (Z.of_nat (length contents)) (maxCount config));
      [lia |].
    fold (exceeds_size AssetSizeMapping config).
    destruct (find (exceeds_size AssetSizeMapping config) contents)
      as [p |] eqn:Hfind.
    + destruct (find_Some_elem _ _ _ Hfind) as [Hin Hp].
      exists p. repeat split; assumption.
    + apply find_None_Forall in Hfind. exfalso.
      apply Exists_exists in Hbig as [i [Hi Hbig]].
      rewrite Forall_forall in Hfind. specialize (Hfind i Hi). congruence.
  - apply ValidateStorage_success.
Qed.

(** *** Induction on bundles and items through their nested lists *)

Lemma ItemBundle_nested_ind (P : ItemBundle → Prop) :
  (∀ id asset color modules,
      Forall (λ m : string * list ItemBundle, Forall P m.2) modules →
      P (mkItemBundle id asset color modules)) →
  ∀ bundle, P bundle.
Proof.
  intros step. fix IH 1. intros [id asset color modules]. apply step.
  induction modules as [| [name data] modules IHmodules]; constructor.
  - simpl. induction data as [| b data IHdata]; constructor.
    + apply IH.
    + exact IHdata.
  - exact IHmodules.
Qed.

Lemma Item_nested_ind (P : Item → Prop) :
  (∀ id asset color modules,
      Forall (λ m : string * ItemModuleStorage, Forall P (contents m.2)) modules →
      P (mkItem id asset color modules)) →
  ∀ item, P item.
Proof.
  intros step. fix IH 1. intros [id asset color modules]. apply step.
  induction modules as [| [name [mgr cfg cs]] modules IHmodules]; constructor.
  - simpl. induction cs as [| c cs IHcs]; constructor.
    + apply IH.
    + exact IHcs.
  - exact IHmodules.
Qed.

(** *** The logger only grows *)

Lemma logger_extends_refl (logger : option Logger) :
  logger_extends logger logger.
Proof. destruct logger; simpl; reflexivity. Qed.

Lemma logger_extends_trans (l1 l2 l3 : option Logger) :
  logger_extends l1 l2 → logger_extends l2 l3 → logger_extends l1 l3.
Proof.
  destruct l1, l2, l3; simpl; try tauto. intros H1 H2. by etrans.
Qed.

Lemma logger_extends_warning (logger : option Logger) (message : string) :
  logger_extends logger (warning logger message).
Proof.
  destruct logger as [written |]; simpl; [| exact I].
  by apply prefix_app_r.
Qed.




(** *** [Item_new], as the loop over the modules of the asset *)

Lemma lookup_module_map {A B : Type} (g : A → B) (name : string)
    (l : list (string * A)) :
  lookup_module name (map (λ e : string * A, (e.1, g e.2)) l)
  = g <$> lookup_module name l.
Proof.
  induction l as [| [n a] l IH]; simpl; [reflexivity |].
  case_bool_decide; [reflexivity | exact IH].
Qed.

Lemma lookup_module_elem {A : Type} (name : string) (l : list (string * A))
    (a : A) :
  lookup_module name l = Some a → (name, a) ∈ l.
Proof.
  induction l as [| [n b] l IH]; simpl; [discriminate |].
  case_bool_decide as Hn.
  - intros [= ->]. subst n. left.
  - intros Hl. right. exact (IH Hl).
Qed.

Lemma foldl_ext_all {A S : Type} (f g : S → A → S) (l : list A) (st : S) :
  (∀ st x, f st x = g st x) → foldl f st l = foldl g st l.
Proof.
  intros Hfg. revert st. induction l as [| x l IH]; intros st; simpl.
  - reflexivity.
  - rewrite Hfg. apply IH.
Qed.

Lemma Item_new_unfold (mgr : AssetManager) (cleanup : bool) (id : ItemId)
    (asset : Asset) (bundle : ItemBundle) (logger : option Logger) :
  Item_new AssetSizeMapping mgr cleanup id asset bundle logger
  = let loaded :=
      foldl (load_module_step AssetSizeMapping mgr cleanup (b_modules bundle)) ([], logger)
            (asset_modules asset) in
    (mkItem id asset (b_color bundle) loaded.1, loaded.2).
Proof.
  destruct bundle as [bid basset color modules]. simpl.
  match goal with
  | |- (let '(_, _) := foldl ?f ?st ?l in _) = _ =>
      rewrite (foldl_ext_all f (load_module_step AssetSizeMapping mgr cleanup modules) l st)
  end.
  - destruct (foldl _ _ _). reflexivity.
  - intros [loaded lg] [name cfg]. unfold load_module_step. simpl.
    pose proof (lookup_module_map
      (λ (data : list ItemBundle) (config : IModuleConfigStorage)
         (logger : option Logger),
         ItemModuleStorage_new AssetSizeMapping
           (Item_new AssetSizeMapping mgr cleanup) config data mgr cleanup
           logger) name modules) as Hlookup.
    cbv beta in Hlookup. rewrite Hlookup. clear Hlookup.
    destruct (lookup_module name modules) as [data |]; simpl;
      [| reflexivity].
    match goal with
    | |- context [ItemModuleStorage_new ?a ?b ?c ?d ?e ?f ?g] =>
        destruct (ItemModuleStorage_new a b c d e f g)
    end. reflexivity.
Qed.

Lemma Item_new_id_asset (mgr : AssetManager) (cleanup : bool) (id : ItemId)
    (asset : Asset) (bundle : ItemBundle) (logger : option Logger) :
  item_id (Item_new AssetSizeMapping mgr cleanup id asset bundle logger).1 = id
  ∧ item_asset (Item_new AssetSizeMapping mgr cleanup id asset bundle logger).1
    = asset.
Proof. rewrite Item_new_unfold. split; reflexivity. Qed.


(** *** Load-time cleanup in the constructor of [ItemModuleStorage] *)

(** With [doLoadTimeCleanup], the contents of the constructed module are
    within the count limit (or empty), and each item is within the size
    limit and validates.  Items that repeat an id are not dropped. *)
Lemma ItemModuleStorage_new_cleanup (mgr : AssetManager)
    (cfg : IModuleConfigStorage) (data : list ItemBundle)
    (logger : option Logger) :
  ∀ module,
    module = (ItemModuleStorage_new AssetSizeMapping
                (Item_new AssetSizeMapping mgr true) cfg data mgr true logger).1 →
    (contents module = [] ∨ Z.of_nat (length (contents module)) ≤ maxCount cfg)
    ∧ Forall (λ c, exceeds_size AssetSizeMapping cfg c = false
                   ∧ Item_validate AssetSizeMapping c false = Success)
             (contents module).
Proof.
  intros module ->. unfold ItemModuleStorage_new.
  match goal with
  | |- context [foldl ?f (_, logger) data] =>
      assert (Hrun : ∀ bs acc lg,
                (acc = [] ∨ Z.of_nat (length acc) ≤ maxCount cfg) →
                Forall (λ c, exceeds_size AssetSizeMapping cfg c = false
                             ∧ Item_validate AssetSizeMapping c false = Success)
                       acc →
                ((foldl f (acc, lg) bs).1 = []
                 ∨ Z.of_nat (length (foldl f (acc, lg) bs).1) ≤ maxCount cfg)
                ∧ Forall (λ c, exceeds_size AssetSizeMapping cfg c = false
                               ∧ Item_validate AssetSizeMapping c false = Success)
                         (foldl f (acc, lg) bs).1)
  end.
  { induction bs as [| b bs IH]; intros acc lg Hcount Hall; simpl.
    - split; assumption.
    - destruct (getAssetById mgr (b_asset b)) as [asset |];
        [| apply IH; assumption].
      pose proof (Item_new_id_asset mgr true (b_id b) asset b lg) as [_ Hasset].
      destruct (Item_new AssetSizeMapping mgr true (b_id b) asset b lg)
        as [item lg'].
      simpl in Hasset. simpl andb.
      destruct (Z.geb_spec (Z.of_nat (length acc)) (maxCount cfg)) as [Hfull | Hroom];
        [apply IH; assumption |].
      destruct (default 99 (AssetSizeMapping (asset_size asset))
                >? default 0 (AssetSizeMapping (maxAcceptedSize cfg))) eqn:Hsize;
        [apply IH; assumption |].
      destruct (Item_validate AssetSizeMapping item false) eqn:Hitem; simpl;
        [| apply IH; assumption].
      apply IH.
      + right. rewrite length_app. simpl. lia.
      + apply Forall_app. split; [exact Hall |]. constructor; [| constructor].
        split; [| exact Hitem]. unfold exceeds_size. rewrite Hasset. exact Hsize. }
  specialize (Hrun data [] logger (or_introl eq_refl) (Forall_nil_2 _)).
  destruct (foldl _ _ _) as [content lg']. exact Hrun.
Qed.

(** *** Loading a room inventory *)

Lemma ValidateRoomInventoryItems_success (mgr : AssetManager)
    (items : AppearanceItems) :
  success (ValidateRoomInventoryItems AssetSizeMapping mgr items) = true
  ↔ NoDup (map item_id items)
    ∧ Forall (λ i, Item_validate AssetSizeMapping i false = Success) items.
Proof.
  unfold ValidateRoomInventoryItems.
  destruct (has_repeated_id ∅ items) eqn:Hrep.
  - split; [discriminate |]. intros [Hnodup _].
    apply has_repeated_id_NoDup in Hnodup. congruence.
  - apply has_repeated_id_NoDup in Hrep.
    pose proof (combine_results_success Success
                  (map (λ i, Item_validate AssetSizeMapping i false) items))
      as Hcombine.
    rewrite Forall_fmap in Hcombine.
    destruct (foldl AppearanceValidationCombineResults Success _); simpl.
    + split; [intros _; split; [exact Hrep | apply Hcombine; reflexivity]
             | reflexivity].
    + split; [discriminate |]. intros [_ Hall].
      assert (Hno : Failure error = Success) by (apply Hcombine; tauto).
      discriminate.
Qed.

Lemma RoomInventoryLoadAndValidate_run (mgr : AssetManager)
    (loaded : list Item) (acc : AppearanceItems) (lg : option Logger) :
  success (ValidateRoomInventoryItems AssetSizeMapping mgr acc) = true →
  ∀ f, f = (λ (state : AppearanceItems * option Logger) (itemToAdd : Item),
              let '(resultItems, logger) := state in
              let tryItems := resultItems ++ [itemToAdd] in
              if success (ValidateRoomInventoryItems AssetSizeMapping mgr tryItems)
              then (tryItems, logger)
              else (resultItems,
                    warning logger ("Skipping invalid item " +:+ item_id itemToAdd))) →
  success (ValidateRoomInventoryItems AssetSizeMapping mgr
             (foldl f (acc, lg) loaded).1) = true
  ∧ (∀ i, i ∈ (foldl f (acc, lg) loaded).1 → i ∈ acc ∨ i ∈ loaded)
  ∧ logger_extends lg (foldl f (acc, lg) loaded).2.
Proof.
  intros Hacc f ->. revert acc lg Hacc.
  induction loaded as [| item loaded IH]; intros acc lg Hacc; simpl.
  - split; [exact Hacc |]. split; [intros i Hi; left; exact Hi |].
    apply logger_extends_refl.
  - destruct (success (ValidateRoomInventoryItems AssetSizeMapping mgr
                         (acc ++ [item]))) eqn:Htry.
    + destruct (IH (acc ++ [item]) lg Htry) as [Hvalid [Hfrom Hlog]].
      split; [exact Hvalid |]. split; [| exact Hlog].
      intros i Hi. destruct (Hfrom i Hi) as [Hin | Hin].
      * apply elem_of_app in Hin as [Hin | Hin]; [left; exact Hin |].
        apply list_elem_of_singleton in Hin as ->. right. left.
      * right. right. exact Hin.
    + destruct (IH acc (warning lg ("Skipping invalid item " +:+ item_id item))
                  Hacc) as [Hvalid [Hfrom Hlog]].
      split; [exact Hvalid |]. split.
      * intros i Hi. destruct (Hfrom i Hi) as [Hin | Hin];
          [left | right; right]; exact Hin.
      * eapply logger_extends_trans; [apply logger_extends_warning | exact Hlog].
Qed.

Lemma RoomInventoryLoadAndValidate_valid (mgr : AssetManager)
    (loaded : list Item) (logger : option Logger) :
  success (ValidateRoomInventoryItems AssetSizeMapping mgr
             (RoomInventoryLoadAndValidate AssetSizeMapping mgr loaded logger).1)
  = true
  ∧ (∀ i, i ∈ (RoomInventoryLoadAndValidate AssetSizeMapping mgr loaded logger).1
          → i ∈ loaded)
  ∧ logger_extends logger
      (RoomInventoryLoadAndValidate AssetSizeMapping mgr loaded logger).2.
Proof.
  unfold RoomInventoryLoadAndValidate.
  edestruct (RoomInventoryLoadAndValidate_run mgr loaded [] logger)
    as [Hvalid [Hfrom Hlog]]; [reflexivity | reflexivity |].
  split; [exact Hvalid |]. split; [| exact Hlog].
  intros i Hi. destruct (Hfrom i Hi) as [Hin | Hin]; [| exact Hin].
  by apply elem_of_nil in Hin.
Qed.



(** *** Reloading what was exported *)

Lemma export_id_asset (item : Item) :
  b_id (Item_exportToBundle item) = item_id item
  ∧ b_asset (Item_exportToBundle item) = asset_id (item_asset item)
  ∧ b_color (Item_exportToBundle item) = item_color item
  ∧ b_modules (Item_exportToBundle item)
    = map (λ m : string * ItemModuleStorage,
             (m.1, map Item_exportToBundle (contents m.2)))
          (item_modules item).
Proof. destruct item. repeat split; reflexivity. Qed.

(** The constructor of [ItemModuleStorage] keeps every item of exported
    contents that are within the caps of the module. *)
Lemma ItemModuleStorage_new_keeps
    (newItem : ItemId → Asset → ItemBundle → option Logger
               → Item * option Logger)
    (cfg : IModuleConfigStorage) (mgr : AssetManager) (cleanup : bool)
    (cs : list Item) :
  Forall (λ c, getAssetById mgr (asset_id (item_asset c)) = Some (item_asset c)
               ∧ ∀ lg, (newItem (item_id c) (item_asset c)
                          (Item_exportToBundle c) lg).1 = c) cs →
  Z.of_nat (length cs) ≤ maxCount cfg →
  Forall (λ c, exceeds_size AssetSizeMapping cfg c = false) cs →
  Forall (λ c, Item_validate AssetSizeMapping c false = Success) cs →
  ∀ lg,
    (ItemModuleStorage_new AssetSizeMapping newItem cfg
       (map Item_exportToBundle cs) mgr cleanup lg).1
    = mkStorage mgr cfg cs.
Proof.
  intros Hnew Hcount Hsize Hvalid lg. unfold ItemModuleStorage_new.
  match goal with
  | |- context [foldl ?f (_, lg) _] =>
      assert (Hrun : ∀ cs' acc lg,
                Forall (λ c, c ∈ cs) cs' →
                Z.of_nat (length acc + length cs') ≤ maxCount cfg →
                (foldl f (acc, lg) (map Item_exportToBundle cs')).1 = acc ++ cs')
  end.
  { clear lg. induction cs' as [| c cs' IH]; intros acc lg Hin Hlen; simpl.
    - by rewrite app_nil_r.
    - apply Forall_cons in Hin as [Hc Hin].
      rewrite Forall_forall in Hnew, Hsize, Hvalid.
      destruct (Hnew c Hc) as [Hasset Hitem].
      destruct (export_id_asset c) as [Hbid [Hbasset _]].
      rewrite Hbid, Hbasset, Hasset.
      specialize (Hitem lg).
      destruct (newItem (item_id c) (item_asset c) (Item_exportToBundle c) lg)
        as [item lg'].
      simpl in Hitem. subst item.
      assert (Hroom : (Z.of_nat (length acc) >=? maxCount cfg) = false).
      { rewrite Z.geb_leb. apply Z.leb_gt. cbn [length] in Hlen. lia. }
      rewrite Hroom.
      pose proof (Hsize c Hc) as Hc_size. unfold exceeds_size in Hc_size.
      rewrite Hc_size, (Hvalid c Hc). simpl.
      rewrite !andb_false_r.
      rewrite IH; [by rewrite <- app_assoc | exact Hin |].
      rewrite length_app. cbn [length] in Hlen |- *. lia. }
  specialize (Hrun cs [] lg).
  destruct (foldl _ _ _) as [content lg'].
  simpl in *. rewrite Hrun; [reflexivity | | exact Hcount].
  apply Forall_forall. intros c Hc. exact Hc.
Qed.

Lemma lookup_module_NoDup {A : Type} (name : string) (a : A)
    (l : list (string * A)) :
  NoDup (map fst l) → (name, a) ∈ l → lookup_module name l = Some a.
Proof.
  induction l as [| [n b] l IH]; simpl; intros Hnodup Hin.
  - by apply elem_of_nil in Hin.
  - apply NoDup_cons in Hnodup as [Hfresh Hnodup].
    apply elem_of_cons in Hin as [[= -> ->] | Hin].
    + by rewrite bool_decide_eq_true_2.
    + case_bool_decide as Hn; [| exact (IH Hnodup Hin)].
      subst n. exfalso. apply Hfresh.
      apply list_elem_of_fmap. exists (name, a). split; [reflexivity | exact Hin].
Qed.

Lemma modules_of_asset (modules : list (string * ItemModuleStorage))
    (configured : list (string * IModuleConfigStorage)) :
  map fst modules = map fst configured →
  map (λ m : string * ItemModuleStorage, config m.2) modules = map snd configured →
  configured = map (λ m : string * ItemModuleStorage, (m.1, config m.2)) modules.
Proof.
  revert configured.
  induction modules as [| [n m] modules IH]; intros [| [n' c] configured];
    simpl; try discriminate; [reflexivity |].
  intros [= -> Hnames] [= -> Hconfigs]. f_equal. apply IH; assumption.
Qed.

Lemma Item_validate_modules (id : ItemId) (asset : Asset) (color : list string)
    (modules : list (string * ItemModuleStorage)) :
  Item_validate AssetSizeMapping (mkItem id asset color modules) false = Success →
  Forall (λ m : string * ItemModuleStorage,
            ValidateStorage AssetSizeMapping (Item_validate AssetSizeMapping)
              (contents m.2) (config m.2) = Success) modules.
Proof.
  simpl. rewrite combine_results_success, Forall_fmap.
  intros [_ H]. exact H.
Qed.

(** A resolved, valid item is rebuilt by [Item_new] from its own bundle. *)
Lemma Item_reload (mgr : AssetManager) (cleanup : bool) (item : Item) :
  Item_resolved mgr item = true →
  Item_validate AssetSizeMapping item false = Success →
  ∀ logger,
    (Item_new AssetSizeMapping mgr cleanup (item_id item) (item_asset item)
       (Item_exportToBundle item) logger).1 = item.
Proof.
  induction item as [id asset color modules IH] using Item_nested_ind.
  intros Hres Hvalid logger. rewrite Item_new_unfold.
  destruct (export_id_asset (mkItem id asset color modules))
    as [_ [_ [-> ->]]].
  simpl item_color. simpl item_modules. simpl item_id. simpl item_asset.
  simpl in Hres. rewrite !andb_true_iff, !bool_decide_eq_true in Hres.
  destruct Hres as [[[[Hasset Hnodup] Hnames] Hconfigs] Hmods].
  rewrite (modules_of_asset _ _ Hnames Hconfigs).
  apply Item_validate_modules in Hvalid.
  rewrite <- Hnames in Hnodup.
  set (stored := map (λ m : string * ItemModuleStorage,
                        (m.1, map Item_exportToBundle (contents m.2))) modules).
  assert (Hrun : ∀ ms acc lg,
            Forall (λ m, m ∈ modules) ms →
            (foldl (load_module_step AssetSizeMapping mgr cleanup stored) (acc, lg)
               (map (λ m : string * ItemModuleStorage, (m.1, config m.2)) ms)).1
            = acc ++ ms).
  { induction ms as [| [name m] ms IHms]; intros acc lg Hin; simpl.
    - by rewrite app_nil_r.
    - apply Forall_cons in Hin as [Hm Hin].
      rewrite Forall_forall in IH, Hvalid.
      pose proof (IH _ Hm) as IHm. pose proof (Hvalid _ Hm) as Hvm.
      simpl in IHm, Hvm.
      apply ValidateStorage_success in Hvm as [_ [Hcount [Hsize Hitems]]].
      rewrite forallb_forall in Hmods.
      pose proof (Hmods (name, m)) as Hmod.
      rewrite <- list_elem_of_In in Hmod. specialize (Hmod Hm).
      simpl in Hmod. rewrite andb_true_iff, bool_decide_eq_true in Hmod.
      destruct Hmod as [Hmgr Hcontents].
      rewrite forallb_forall in Hcontents.
      unfold load_module_step at 2. simpl.
      rewrite (lookup_module_NoDup name (map Item_exportToBundle (contents m)) stored).
      + simpl. rewrite ItemModuleStorage_new_keeps; try assumption.
        * replace (mkStorage mgr (config m) (contents m)) with m
            by (destruct m; simpl in *; congruence).
          rewrite IHms; [by rewrite <- app_assoc | exact Hin].
        * rewrite Forall_forall in IHm, Hitems. apply Forall_forall.
          intros c Hc.
          assert (Hcres : Item_resolved mgr c = true)
            by (apply Hcontents, list_elem_of_In, Hc).
          split.
          -- destruct c as [cid casset ccolor cmods]. simpl in Hcres |- *.
             rewrite !andb_true_iff, !bool_decide_eq_true in Hcres. tauto.
          -- intros lg0. apply (IHm c Hc Hcres (Hitems c Hc)).
      + unfold stored. rewrite map_map. simpl. exact Hnodup.
      + unfold stored. apply list_elem_of_fmap. exists (name, m).
        split; [reflexivity | exact Hm]. }
  simpl. rewrite (Hrun modules [] logger); [reflexivity |].
  apply Forall_forall. intros m Hm. exact Hm.
Qed.

Lemma loadItems_exported (mgr : AssetManager) (items : list Item)
    (logger : option Logger) :
  Forall (λ i, Item_resolved mgr i = true) items →
  Forall (λ i, Item_validate AssetSizeMapping i false = Success) items →
  (loadItems AssetSizeMapping mgr (map Item_exportToBundle items) logger).1
  = items.
Proof.
  intros Hres Hvalid. unfold loadItems.
  match goal with
  | |- context [foldl ?f (_, logger) _] =>
      assert (Hrun : ∀ rest acc lg,
                Forall (λ i, i ∈ items) rest →
                (foldl f (acc, lg) (map Item_exportToBundle rest)).1
                = acc ++ rest)
  end.
  { induction rest as [| i rest IH]; intros acc lg Hin; simpl.
    - by rewrite app_nil_r.
    - apply Forall_cons in Hin as [Hi Hin].
      rewrite Forall_forall in Hres, Hvalid.
      pose proof (Hres i Hi) as Hi_res.
      pose proof (Item_reload mgr true i Hi_res (Hvalid i Hi) lg) as Hreload.
      destruct (export_id_asset i) as [Hbid [Hbasset _]].
      rewrite Hbid, Hbasset.
      assert (Hasset : getAssetById mgr (asset_id (item_asset i))
                       = Some (item_asset i)).
      { destruct i as [iid iasset icolor imods]. simpl in Hi_res |- *.
        rewrite !andb_true_iff, !bool_decide_eq_true in Hi_res. tauto. }
      rewrite Hasset. unfold createItem.
      destruct (Item_new AssetSizeMapping mgr true (item_id i) (item_asset i)
                  (Item_exportToBundle i) lg) as [item lg'].
      simpl in Hreload. subst item.
      rewrite IH; [by rewrite <- app_assoc | exact Hin]. }
  rewrite (Hrun items [] logger); [reflexivity |].
  apply Forall_forall. intros i Hi. exact Hi.
Qed.

Lemma RoomInventoryLoadAndValidate_keeps (mgr : AssetManager)
    (items : list Item) (logger : option Logger) :
  success (ValidateRoomInventoryItems AssetSizeMapping mgr items) = true →
  RoomInventoryLoadAndValidate AssetSizeMapping mgr items logger
  = (items, logger).
Proof.
  intros Hvalid. unfold RoomInventoryLoadAndValidate.
  match goal with
  | |- foldl ?f _ _ = _ =>
      assert (Hrun : ∀ rest acc,
                success (ValidateRoomInventoryItems AssetSizeMapping mgr
                           (acc ++ rest)) = true →
                foldl f (acc, logger) rest = (acc ++ rest, logger))
  end.
  { induction rest as [| i rest IH]; intros acc Hall; simpl.
    - by rewrite app_nil_r.
    - assert (Hprefix : success (ValidateRoomInventoryItems AssetSizeMapping mgr
                                   (acc ++ [i])) = true).
      { apply ValidateRoomInventoryItems_success.
        apply ValidateRoomInventoryItems_success in Hall as [Hnodup Hitems].
        replace (acc ++ i :: rest) with ((acc ++ [i]) ++ rest) in Hnodup, Hitems
          by (by rewrite <- app_assoc).
        rewrite map_app in Hnodup. apply NoDup_app in Hnodup as [Hnodup _].
        apply Forall_app in Hitems as [Hitems _]. split; assumption. }
      rewrite Hprefix. rewrite IH; [by rewrite <- app_assoc |].
      by rewrite <- app_assoc. }
  exact (Hrun items [] Hvalid).
Qed.


End Storage.

(** C7, the claim as stated fails.  A storage with [maxCount: 2] that holds
    three items, two of them with the same id, has more items than
    [maxCount], and a storage that holds three items, one of them of size
    [huge], holds an item above [maxAcceptedSize: 'medium']; the first is
    reported as [invalid], the second as [tooManyItems]. *)
Lemma ValidateStorage_reports_first_failed_check :
  Z.of_nat (length [pen_item "i/1"; pen_item "i/1"; pen_item "i/2"])
  > maxCount box_config
  ∧ ValidateStorage sample_sizes (Item_validate sample_sizes)
      [pen_item "i/1"; pen_item "i/1"; pen_item "i/2"] box_config
    = Failure ProblemInvalid
  ∧ exceeds_size sample_sizes box_config (crate_item "i/3") = true
  ∧ ValidateStorage sample_sizes (Item_validate sample_sizes)
      [pen_item "i/1"; pen_item "i/2"; crate_item "i/3"] box_config
    = Failure (ProblemTooManyItems None 2).
Proof. vm_compute. repeat split; reflexivity. Qed.

(** Loading [messy_bundle]: the box keeps the two pens that fit, the items
    that cannot be loaded or do not validate are skipped with a warning, and
    the load returns. *)
Example loadFromBundle_messy_bundle :
  loadFromBundle sample_sizes sample_manager messy_bundle (Some [])
  = (Returned (mkRoomState sample_manager
                 [box_item "i/1" [pen_item "i/2"; pen_item "i/3"];
                  pen_item "i/10"]),
     Some ["Skipping stored item over size limit a/crate";
           "Skipping unknown asset a/ghost";
           "Skipping stored item over count limit a/pen";
           "Skipping unknown asset a/ghost";
           "Skipping invalid item i/1";
           "Skipping invalid item i/6"]).
Proof. vm_compute. reflexivity. Qed.



End InventoryTheorems.

(** * Further properties of the embedded code *)

Module LimitExtras.
Import AppearanceLimit LimitPredicates LimitExtraPredicates LimitSamples.

(** ** [TreeLimit] *)

(** [TreeLimit.force] keeps every key of the data and stores the forced
    value under it; a key without a limit keeps its value. *)
Lemma TreeLimit_force_lookup (limit : TreeLimit) (data : PoseData)
    (key : string) :
  (TreeLimit_force limit data).2 !! key
  = forced_value (limit !! key) <$> data !! key.
Proof.
  unfold TreeLimit_force.
  assert (Hrun : ∀ (base m : PoseData) (d0 : Num),
            (map_fold (λ key value (acc : Num * PoseData),
               let '(totalDiff, newData) := acc in
               match limit !! key with
               | None => (totalDiff, <[key := value]> newData)
               | Some l =>
                   let '(minDiff, minDiffValue) :=
                     force_value value l Infinity value in
                   (Num_add totalDiff minDiff, <[key := minDiffValue]> newData)
               end) (d0, base) m).2 !! key
            = match m !! key with
              | Some value => Some (forced_value (limit !! key) value)
              | None => base !! key
              end).
  { intros base m d0.
    apply (map_fold_weak_ind (λ (r : Num * PoseData) (m : PoseData),
      r.2 !! key = match m !! key with
                   | Some value => Some (forced_value (limit !! key) value)
                   | None => base !! key
                   end)).
    - by rewrite lookup_empty.
    - intros k value m' [totalDiff newData] Hfresh IH. simpl in IH.
      destruct (limit !! k) as [l |] eqn:Hl.
      + destruct (force_value value l Infinity value)
          as [minDiff minDiffValue] eqn:Hforce. simpl.
        destruct (decide (k = key)) as [-> | Hne].
        * rewrite !lookup_insert_eq, Hl. unfold forced_value. by rewrite Hforce.
        * rewrite !lookup_insert_ne by exact Hne. exact IH.
      + simpl. destruct (decide (k = key)) as [-> | Hne].
        * by rewrite !lookup_insert_eq, Hl.
        * rewrite !lookup_insert_ne by exact Hne. exact IH. }
  rewrite Hrun. by destruct (data !! key).
Qed.

(** X1.  [TreeLimit.validate] accepts the data exactly when every key of the
    limit that the data have holds a value inside one of the intervals of the
    key; a key that the data do not have is not checked, and neither is a key
    that the limit does not mention. *)
Theorem TreeLimit_validate_iff (limit : TreeLimit) (data : PoseData) :
  TreeLimit_validate limit data = true
  ↔ ∀ key intervals value,
      limit !! key = Some intervals → data !! key = Some value →
      existsb (in_interval value) intervals = true.
Proof.
  rewrite LimitTheorems.TreeLimit_validate_spec. unfold satisfies_at.
  split; intros Hall key intervals; [intros value Hkey | intros Hkey value];
    by apply (Hall key intervals).
Qed.

(** X2.  [TreeLimit.force] never adds or removes a key, and it leaves the
    value of every key that the limit does not mention as it was. *)
Theorem TreeLimit_force_keys (limit : TreeLimit) (data : PoseData)
    (key : string) :
  (is_Some ((TreeLimit_force limit data).2 !! key) ↔ is_Some (data !! key))
  ∧ (limit !! key = None →
     (TreeLimit_force limit data).2 !! key = data !! key).
Proof.
  rewrite TreeLimit_force_lookup. split.
  - by rewrite fmap_is_Some.
  - intros ->. by destruct (data !! key).
Qed.

(** [TreeLimit.prune], key by key. *)
Lemma TreeLimit_prune_lookup (this other : TreeLimit) (key : string) :
  TreeLimit_prune this other !! key
  = match this !! key, other !! key with
    | Some a, Some b => if bool_decide (a = b) then None else Some a
    | kept, _ => kept
    end.
Proof.
  unfold TreeLimit_prune. revert key.
  apply (map_fold_weak_ind (λ (r : TreeLimit) (m : TreeLimit),
           ∀ key, r !! key
                  = match this !! key, m !! key with
                    | Some a, Some b => if bool_decide (a = b) then None else Some a
                    | kept, _ => kept
                    end)).
  - intros key. rewrite lookup_empty. by destruct (this !! key).
  - intros k b m r Hfresh IH key.
    destruct (decide (k = key)) as [-> | Hne].
    + rewrite lookup_insert_eq. pose proof (IH key) as Hkey.
      rewrite Hfresh in Hkey.
      assert (Hr : r !! key = this !! key) by (by destruct (this !! key)).
      rewrite Hr. destruct (this !! key) as [a |] eqn:Hthis.
      * case_bool_decide.
        -- by rewrite lookup_delete_eq.
        -- by rewrite Hr.
      * by rewrite Hr.
    + rewrite (lookup_insert_ne m k key) by exact Hne. rewrite <- IH.
      destruct (r !! k) as [present |]; [| reflexivity].
      case_bool_decide; [| reflexivity]. by rewrite lookup_delete_ne.
Qed.

(** [TreeLimit.intersection] fails exactly when a key that both limits
    mention has an empty intersection. *)
Lemma TreeLimit_intersection_None (this other : TreeLimit) :
  TreeLimit_intersection this other = None
  ↔ ∃ key a b, this !! key = Some a ∧ other !! key = Some b
               ∧ IntervalSetIntersection a b = [].
Proof.
  unfold TreeLimit_intersection.
  apply (map_fold_weak_ind (λ (r : option TreeLimit) (m : TreeLimit),
           r = None
           ↔ ∃ key a b, m !! key = Some a ∧ other !! key = Some b
                        ∧ IntervalSetIntersection a b = [])).
  - split; [discriminate |]. intros [key [a [b [Hkey _]]]].
    by rewrite lookup_empty in Hkey.
  - intros k a m r Hfresh IH.
    assert (Hold : (∃ key a0 b, m !! key = Some a0 ∧ other !! key = Some b
                        ∧ IntervalSetIntersection a0 b = [])
                   → ∃ key a0 b, <[k := a]> m !! key = Some a0
                        ∧ other !! key = Some b
                        ∧ IntervalSetIntersection a0 b = []).
    { intros [key [a0 [b [Hkey Hrest]]]]. exists key, a0, b.
      split; [| exact Hrest]. rewrite lookup_insert_ne; [exact Hkey |].
      intros ->. congruence. }
    assert (Hnew : (∃ key a0 b, <[k := a]> m !! key = Some a0
                        ∧ other !! key = Some b
                        ∧ IntervalSetIntersection a0 b = [])
                   → (∃ b, other !! k = Some b ∧ IntervalSetIntersection a b = [])
                     ∨ ∃ key a0 b, m !! key = Some a0 ∧ other !! key = Some b
                        ∧ IntervalSetIntersection a0 b = []).
    { intros [key [a0 [b [Hkey [Hother Hempty]]]]].
      destruct (decide (k = key)) as [-> | Hne].
      - rewrite lookup_insert_eq in Hkey. injection Hkey as <-.
        left. by exists b.
      - rewrite lookup_insert_ne in Hkey by exact Hne.
        right. by exists key, a0, b. }
    destruct r as [newLimit |].
    + destruct (other !! k) as [b |] eqn:Hother.
      * case_bool_decide as Hlen.
        -- split; [intros _ | reflexivity]. exists k, a, b.
           rewrite lookup_insert_eq. split; [reflexivity |].
           split; [exact Hother |]. by apply length_zero_iff_nil.
        -- split; [discriminate |]. intros Hex.
           destruct (Hnew Hex) as [[b' [[= <-] Hempty]] | Hm].
           ++ rewrite Hempty in Hlen. by exfalso; apply Hlen.
           ++ by apply IH in Hm.
      * split; [intros Hno; apply Hold, IH, Hno |]. intros Hex.
        destruct (Hnew Hex) as [[b' [Hb' _]] | Hm]; [discriminate |].
        by apply IH in Hm.
    + split; [intros _; apply Hold, IH; reflexivity | reflexivity].
Qed.

(** X3.  [TreeLimit.extend] keeps every entry of the limit and adds the
    entries of [other] whose key the limit does not have; [TreeLimit.prune]
    keeps the entries of the limit except those that [other] holds with an
    equal value. *)
Theorem TreeLimit_extend_prune (this other : TreeLimit) (key : string) :
  TreeLimit_extend this other !! key
  = match this !! key with
    | Some intervals => Some intervals
    | None => other !! key
    end
  ∧ TreeLimit_prune this other !! key
    = match this !! key, other !! key with
      | Some a, Some b => if bool_decide (a = b) then None else Some a
      | kept, _ => kept
      end.
Proof.
  split; [apply LimitTheorems.TreeLimit_extend_lookup
         | apply TreeLimit_prune_lookup].
Qed.

(** X4.  [TreeLimit.intersection] returns [null] exactly when some key that
    both limits mention has an empty interval intersection; otherwise its
    result holds, for exactly the keys that both limits mention, the
    intersection of their intervals. *)
Theorem TreeLimit_intersection_result (this other : TreeLimit) :
  (TreeLimit_intersection this other = None
   ↔ ∃ key a b, this !! key = Some a ∧ other !! key = Some b
                ∧ IntervalSetIntersection a b = [])
  ∧ ∀ result key,
      TreeLimit_intersection this other = Some result →
      result !! key
      = match this !! key, other !! key with
        | Some a, Some b => Some (IntervalSetIntersection a b)
        | _, _ => None
        end.
Proof.
  split; [apply TreeLimit_intersection_None |].
  intros result key. apply LimitTheorems.TreeLimit_intersection_lookup.
Qed.

(** X5.  [prune] undoes [extend]: a limit that is extended by another and
    then pruned by it is the limit again, when the two have no key in
    common. *)
Theorem prune_extend_disjoint (this other : TreeLimit) :
  (∀ key, this !! key = None ∨ other !! key = None) →
  TreeLimit_prune (TreeLimit_extend this other) other = this.
Proof.
  intros Hdisjoint. apply map_eq. intros key.
  rewrite TreeLimit_prune_lookup, LimitTheorems.TreeLimit_extend_lookup.
  destruct (Hdisjoint key) as [Hthis | Hother].
  - rewrite Hthis. destruct (other !! key); [| reflexivity].
    by rewrite bool_decide_eq_true_2.
  - rewrite Hother. by destruct (this !! key).
Qed.

(** ** Distances *)

Lemma Num_add_zero (a b : Num) :
  nonneg a → nonneg b → Num_add a b = Fin 0 → a = Fin 0 ∧ b = Fin 0.
Proof.
  destruct a as [x |], b as [y |]; simpl; try discriminate.
  intros Hx Hy [= Hsum]. split; f_equal; lia.
Qed.

Lemma Num_add_nonneg (a b : Num) : nonneg a → nonneg b → nonneg (Num_add a b).
Proof. destruct a, b; simpl; try done. lia. Qed.

(** The loop over the intervals of one key returns a distance that is not
    negative, and the value itself when the distance is zero. *)
Lemma force_value_zero (value : Z) (intervals : list Interval) :
  ∀ minDiff minDiffValue,
    nonneg minDiff → (minDiff = Fin 0 → minDiffValue = value) →
    nonneg (force_value value intervals minDiff minDiffValue).1
    ∧ ((force_value value intervals minDiff minDiffValue).1 = Fin 0 →
       (force_value value intervals minDiff minDiffValue).2 = value).
Proof.
  induction intervals as [| [min max] rest IH];
    intros minDiff minDiffValue Hnonneg Hzero.
  - simpl. split; assumption.
  - rewrite LimitTheorems.force_value_cons.
    destruct ((value >=? min) && (value <=? max)).
    + simpl. split; [lia | reflexivity].
    + cbv zeta. apply IH.
      * destruct (Num_lt (Fin (Z.abs (value - min))) minDiff); cbn [fst snd];
          destruct (Num_lt (Fin (Z.abs (value - max))) _); cbn [fst snd];
          simpl; try lia; exact Hnonneg.
      * destruct (Num_lt (Fin (Z.abs (value - min))) minDiff); cbn [fst snd];
          destruct (Num_lt (Fin (Z.abs (value - max))) _); cbn [fst snd];
          try exact Hzero; intros [= Habs]; lia.
Qed.

(** On a value inside one of the intervals the loop returns distance zero
    and the value. *)
Lemma force_value_inside_range (value : Z) (intervals : list Interval) :
  existsb (in_interval value) intervals = true →
  ∀ minDiff minDiffValue,
    force_value value intervals minDiff minDiffValue = (Fin 0, value).
Proof.
  induction intervals as [| [min max] rest IH]; [discriminate |].
  intros Hin minDiff minDiffValue. rewrite LimitTheorems.force_value_cons.
  simpl in Hin. unfold in_interval in Hin at 1. simpl in Hin.
  destruct ((value >=? min) && (value <=? max)); [reflexivity |].
  cbv zeta. apply IH. exact Hin.
Qed.

(** The fold of [TreeLimit.force], started on any distance and base. *)
Lemma TreeLimit_force_fold (limit : TreeLimit) (P : Num → PoseData → Prop) :
  P (Fin 0) ∅ →
  (∀ key value m d, m !! key = None → P d m →
     P (Num_add d (match limit !! key with
                   | None => Fin 0
                   | Some l => (force_value value l Infinity value).1
                   end)) (<[key := value]> m)) →
  ∀ data, P (TreeLimit_force limit data).1 data.
Proof.
  intros Hempty Hstep data. unfold TreeLimit_force.
  apply (map_fold_weak_ind (λ (r : Num * PoseData) (m : PoseData), P r.1 m)).
  - exact Hempty.
  - intros key value m [d newData] Hfresh IH. simpl in IH.
    specialize (Hstep key value m d Hfresh IH).
    destruct (limit !! key) as [l |].
    + destruct (force_value value l Infinity value). exact Hstep.
    + simpl. replace d with (Num_add d (Fin 0)); [exact Hstep |].
      destruct d; simpl; [f_equal; lia | reflexivity].
Qed.

Lemma TreeLimit_force_zero (limit : TreeLimit) (data : PoseData) :
  nonneg (TreeLimit_force limit data).1
  ∧ ((TreeLimit_force limit data).1 = Fin 0 →
     (TreeLimit_force limit data).2 = data).
Proof.
  assert (Hfold : nonneg (TreeLimit_force limit data).1
                  ∧ ((TreeLimit_force limit data).1 = Fin 0 →
                     ∀ key value, data !! key = Some value →
                       forced_value (limit !! key) value = value)).
  { apply (TreeLimit_force_fold limit (λ d m,
             nonneg d ∧ (d = Fin 0 → ∀ key value, m !! key = Some value →
                           forced_value (limit !! key) value = value))).
    - split; [simpl; lia |]. intros _ key value Hkey.
      by rewrite lookup_empty in Hkey.
    - intros key value m d Hfresh [Hnonneg IH].
      assert (Hone : nonneg (match limit !! key with
                             | None => Fin 0
                             | Some l => (force_value value l Infinity value).1
                             end)
                     ∧ (match limit !! key with
                        | None => Fin 0
                        | Some l => (force_value value l Infinity value).1
                        end = Fin 0 →
                        forced_value (limit !! key) value = value)).
      { destruct (limit !! key) as [l |]; simpl.
        - apply force_value_zero; [exact I | discriminate].
        - split; [lia | reflexivity]. }
      destruct Hone as [Hnonneg1 Hzero1].
      split; [by apply Num_add_nonneg |].
      intros Hsum. apply Num_add_zero in Hsum as [Hd H1]; try assumption.
      intros k v Hk. destruct (decide (key = k)) as [-> | Hne].
      + rewrite lookup_insert_eq in Hk. injection Hk as <-. exact (Hzero1 H1).
      + rewrite lookup_insert_ne in Hk by exact Hne. exact (IH Hd k v Hk). }
  destruct Hfold as [Hnonneg Hzero]. split; [exact Hnonneg |].
  intros Hdiff. apply map_eq. intros key. rewrite TreeLimit_force_lookup.
  destruct (data !! key) as [value |] eqn:Hkey; [| reflexivity].
  simpl. f_equal. exact (Hzero Hdiff key value Hkey).
Qed.

Lemma TreeLimit_force_valid (limit : TreeLimit) (data : PoseData) :
  TreeLimit_validate limit data = true →
  TreeLimit_force limit data = (Fin 0, data).
Proof.
  intros Hvalid. rewrite LimitTheorems.TreeLimit_validate_spec in Hvalid.
  assert (Hdiff : (TreeLimit_force limit data).1 = Fin 0).
  { revert Hvalid.
    apply (TreeLimit_force_fold limit (λ d m,
             (∀ key intervals, limit !! key = Some intervals →
                satisfies_at key intervals m) → d = Fin 0)).
    - reflexivity.
    - intros key value m d Hfresh IH Hall.
      rewrite IH.
      + destruct (limit !! key) as [l |] eqn:Hl; [| reflexivity].
        rewrite force_value_inside_range; [reflexivity |].
        apply (Hall key l Hl). apply lookup_insert_eq.
      + intros k ivs Hk v Hv. apply (Hall k ivs Hk).
        rewrite lookup_insert_ne; [exact Hv | congruence]. }
  destruct (TreeLimit_force_zero limit data) as [_ Hzero].
  specialize (Hzero Hdiff).
  destruct (TreeLimit_force limit data) as [d newData]. simpl in *. congruence.
Qed.

(** ** [TreeNode.force] *)

(** The loop over the children returns what it started with or the result
    of one of the children. *)
Lemma force_children_result (forceChild : TreeNode → Num * PoseData)
    (cs : list TreeNode) :
  ∀ minDiff minData,
    force_children forceChild cs minDiff minData = (minDiff, minData)
    ∨ ∃ c, c ∈ cs
           ∧ force_children forceChild cs minDiff minData
             = ((forceChild c).1, Some (forceChild c).2).
Proof.
  induction cs as [| child rest IH]; intros minDiff minData; simpl.
  - by left.
  - destruct (forceChild child) as [childDiff childData] eqn:Hchild.
    destruct (Num_lt childDiff minDiff).
    + destruct (Num_is_zero childDiff).
      * right. exists child. split; [left |]. by rewrite Hchild.
      * destruct (IH childDiff (Some childData)) as [Hr | [c [Hc Hr]]].
        -- right. exists child. split; [left |]. by rewrite Hchild.
        -- right. exists c. split; [right; exact Hc | exact Hr].
    + destruct (Num_is_zero minDiff); [by left |].
      destruct (IH minDiff minData) as [Hr | [c [Hc Hr]]]; [by left |].
      right. exists c. split; [right; exact Hc | exact Hr].
Qed.

(** [TreeNode.force] returns a distance that is not negative, and the data
    it was given when the distance is zero. *)
Lemma TreeNode_force_zero (n : TreeNode) :
  ∀ data,
    nonneg (TreeNode_force n data).1
    ∧ ((TreeNode_force n data).1 = Fin 0 → (TreeNode_force n data).2 = data).
Proof.
  induction n as [limit children IH] using LimitTheorems.TreeNode_nested_ind.
  intros data. cbn [TreeNode_force].
  destruct (TreeLimit_force_zero limit data) as [Hnonneg Hzero].
  destruct (TreeLimit_force limit data) as [diff newData].
  cbn [fst snd] in Hnonneg, Hzero.
  destruct children as [cs |]; [| split; assumption].
  destruct (force_children_result (λ child, TreeNode_force child newData) cs
              Infinity None) as [-> | [c [Hc ->]]]; [split; assumption |].
  rewrite Forall_forall in IH. destruct (IH c Hc newData) as [Hc_nonneg Hc_zero].
  cbn [fst snd]. split; [by apply Num_add_nonneg |].
  intros Hsum. apply Num_add_zero in Hsum as [Hdiff Hchild]; try assumption.
  rewrite (Hc_zero Hchild). exact (Hzero Hdiff).
Qed.

(** The loop over the children ends on distance zero and on the data when a
    child returns that. *)
Lemma force_children_valid (forceChild : TreeNode → Num * PoseData)
    (data : PoseData) (cs : list TreeNode) :
  (∀ c, c ∈ cs → nonneg (forceChild c).1
                 ∧ ((forceChild c).1 = Fin 0 → (forceChild c).2 = data)) →
  (∃ c, c ∈ cs ∧ forceChild c = (Fin 0, data)) →
  ∀ minDiff minData,
    nonneg minDiff → minDiff ≠ Fin 0 →
    force_children forceChild cs minDiff minData = (Fin 0, Some data).
Proof.
  induction cs as [| child rest IH];
    intros Hall [c [Hc Hvalid]] minDiff minData Hnonneg Hnonzero.
  - by apply elem_of_nil in Hc.
  - simpl. destruct (Hall child) as [Hchild_nonneg Hchild_zero]; [left |].
    destruct (forceChild child) as [childDiff childData] eqn:Hchild.
    cbn [fst snd] in Hchild_nonneg, Hchild_zero.
    assert (Hrest : ∀ c, c ∈ rest →
              nonneg (forceChild c).1
              ∧ ((forceChild c).1 = Fin 0 → (forceChild c).2 = data))
      by (intros c' Hc'; apply Hall; right; exact Hc').
    destruct childDiff as [z |].
    + destruct (decide (z = 0)) as [-> | Hz].
      * assert (Hlt : Num_lt (Fin 0) minDiff = true).
        { destruct minDiff as [y |]; [| reflexivity]. simpl in *.
          apply Z.ltb_lt. assert (y ≠ 0) by congruence. lia. }
        rewrite Hlt. simpl. by rewrite Hchild_zero.
      * assert (Hin_rest : ∃ c, c ∈ rest ∧ forceChild c = (Fin 0, data)).
        { apply elem_of_cons in Hc as [-> | Hc]; [| by exists c].
          rewrite Hchild in Hvalid. congruence. }
        destruct (Num_lt (Fin z) minDiff).
        -- replace (Num_is_zero (Fin z)) with false
             by (symmetry; simpl; by apply Z.eqb_neq).
           apply IH; try assumption. congruence.
        -- replace (Num_is_zero minDiff) with false.
           ++ by apply IH.
           ++ symmetry. destruct minDiff as [y |]; [| reflexivity].
              simpl. apply Z.eqb_neq. congruence.
    + assert (Hin_rest : ∃ c, c ∈ rest ∧ forceChild c = (Fin 0, data)).
      { apply elem_of_cons in Hc as [-> | Hc]; [| by exists c].
        rewrite Hchild in Hvalid. congruence. }
      simpl. replace (Num_is_zero minDiff) with false.
      * by apply IH.
      * symmetry. destruct minDiff as [y |]; [| reflexivity].
        simpl. apply Z.eqb_neq. congruence.
Qed.

Lemma TreeNode_force_valid (n : TreeNode) :
  ∀ data, TreeNode_validate n data = true →
          TreeNode_force n data = (Fin 0, data).
Proof.
  induction n as [limit children IH] using LimitTheorems.TreeNode_nested_ind.
  intros data. cbn [TreeNode_validate TreeNode_force].
  destruct (TreeLimit_validate limit data) eqn:Hlimit; [| discriminate].
  rewrite (TreeLimit_force_valid limit data Hlimit). cbn [negb].
  destruct children as [cs |]; [| reflexivity].
  intros Hsome. apply existsb_exists in Hsome as [c [Hc Hvalid]].
  rewrite Forall_forall in IH. apply list_elem_of_In in Hc.
  rewrite (force_children_valid (λ child, TreeNode_force child data) data cs).
  - reflexivity.
  - intros c' _. apply TreeNode_force_zero.
  - exists c. split; [exact Hc | exact (IH c Hc data Hvalid)].
  - exact I.
  - discriminate.
Qed.

(** X6.  The distance that [TreeNode.force] returns is never negative, and
    when it is zero the data come back unchanged: whenever the solver moves a
    value, the distance is positive (or [Infinity]). *)
Theorem TreeNode_force_distance_zero (n : TreeNode) (data : PoseData) :
  nonneg (TreeNode_force n data).1
  ∧ ((TreeNode_force n data).1 = Fin 0 → (TreeNode_force n data).2 = data).
Proof. apply TreeNode_force_zero. Qed.

(** X7.  On data that the node validates, [TreeNode.force] returns distance
    zero and the data themselves. *)
Theorem TreeNode_force_on_valid_data (n : TreeNode) (data : PoseData) :
  TreeNode_validate n data = true →
  TreeNode_force n data = (Fin 0, data).
Proof. apply TreeNode_force_valid. Qed.

Lemma TreeNode_force_on_valid_data_witness :
  TreeNode_validate node_A {[ "bones.leg_l" := 5 ]} = true
  ∧ TreeNode_force node_A {[ "bones.leg_l" := 5 ]}
    = (Fin 0, {[ "bones.leg_l" := 5 ]}).
Proof.
  assert (Hvalid : TreeNode_validate node_A {[ "bones.leg_l" := 5 ]} = true)
    by (vm_compute; reflexivity).
  split; [exact Hvalid |].
  exact (TreeNode_force_on_valid_data node_A {[ "bones.leg_l" := 5 ]} Hvalid).
Defined.

(** X8.  [TreeNode.force] converges on a consistent node: it ends at a finite
    distance on data that the node validates, and forcing these data again
    changes nothing. *)
Theorem force_converges (n : TreeNode) (data : PoseData) :
  consistent ∅ n = true →
  finite (TreeNode_force n data).1
  ∧ TreeNode_validate n (TreeNode_force n data).2 = true
  ∧ TreeNode_force n (TreeNode_force n data).2
    = (Fin 0, (TreeNode_force n data).2).
Proof.
  intros Hcons.
  destruct (LimitTheorems.TreeNode_force_consistent n ∅ data Hcons)
    as [Hfinite [Hvalid _]].
  split; [exact Hfinite |]. split; [exact Hvalid |].
  by apply TreeNode_force_valid.
Qed.

(** On a consistent node the distance is zero exactly on the data that the
    node validates. *)
Lemma consistent_zero_iff_valid (n : TreeNode) (data : PoseData) :
  consistent ∅ n = true →
  ((TreeNode_force n data).1 = Fin 0 ↔ TreeNode_validate n data = true).
Proof.
  intros Hcons. split.
  - intros Hzero.
    destruct (LimitTheorems.TreeNode_force_consistent n ∅ data Hcons)
      as [_ [Hvalid _]].
    destruct (TreeNode_force_zero n data) as [_ Hsame].
    by rewrite (Hsame Hzero) in Hvalid.
  - intros Hvalid. by rewrite (TreeNode_force_valid n data Hvalid).
Qed.

(** Validation looks only at the keys that the data have: data with fewer
    keys are validated as well. *)
Lemma TreeNode_validate_subseteq (n : TreeNode) :
  ∀ data data', data' ⊆ data →
    TreeNode_validate n data = true → TreeNode_validate n data' = true.
Proof.
  induction n as [limit children IH] using LimitTheorems.TreeNode_nested_ind.
  intros data data' Hsub. cbn [TreeNode_validate].
  destruct (TreeLimit_validate limit data) eqn:Hlimit; [| discriminate].
  assert (Hlimit' : TreeLimit_validate limit data' = true).
  { apply LimitTheorems.TreeLimit_validate_spec.
    rewrite LimitTheorems.TreeLimit_validate_spec in Hlimit.
    intros key intervals Hkey value Hvalue.
    apply (Hlimit key intervals Hkey value).
    exact (lookup_weaken _ _ _ _ Hvalue Hsub). }
  rewrite Hlimit'. cbn [negb].
  destruct children as [cs |]; [| reflexivity].
  intros Hsome. apply existsb_exists in Hsome as [c [Hc Hvalid]].
  apply existsb_exists. exists c. split; [exact Hc |].
  rewrite Forall_forall in IH.
  exact (IH c (proj2 (list_elem_of_In _ _) Hc) data data' Hsub Hvalid).
Qed.

(** ** [FromPose] and [ToPose] *)

Lemma strip_prefix_app (prefix s : string) :
  strip_prefix prefix (prefix +:+ s) = Some s.
Proof.
  induction prefix as [| a prefix IH]; simpl; [by destruct s |].
  by rewrite bool_decide_eq_true_2.
Qed.

Lemma strip_prefix_Some (prefix s rest : string) :
  strip_prefix prefix s = Some rest → s = prefix +:+ rest.
Proof.
  revert s. induction prefix as [| a prefix IH]; intros s; simpl.
  - by intros [= ->].
  - destruct s as [| b s]; [discriminate |].
    case_bool_decide as Hab; [| discriminate]. subst b.
    intros Hrest. by rewrite (IH s Hrest).
Qed.

(** The bones of a pose, as [FromPose] stores them. *)
Lemma FromPose_bones_lookup (bones : gmap string Z) (key : string) :
  map_fold (λ k value (data : PoseData), <["bones." +:+ k := value]> data)
           ∅ bones !! key
  = strip_prefix "bones." key ≫= λ bone, bones !! bone.
Proof.
  revert key.
  apply (map_fold_weak_ind (λ (r : PoseData) (m : gmap string Z),
           ∀ key, r !! key = strip_prefix "bones." key ≫= λ bone, m !! bone)).
  - intros key. rewrite lookup_empty.
    destruct (strip_prefix "bones." key); reflexivity.
  - intros k value m r Hfresh IH key.
    destruct (decide ("bones." +:+ k = key)) as [<- | Hne].
    + rewrite lookup_insert_eq, strip_prefix_app. simpl.
      by rewrite lookup_insert_eq.
    + rewrite lookup_insert_ne by exact Hne. rewrite IH.
      destruct (strip_prefix "bones." key) as [bone |] eqn:Hstrip;
        [| reflexivity].
      simpl. rewrite lookup_insert_ne; [reflexivity |].
      intros ->. apply Hne. symmetry. by apply strip_prefix_Some.
Qed.

(** The bones that [ToPose] reads from the data. *)
Lemma ToPose_bones_lookup (base : gmap string Z) (data : PoseData)
    (bone : string) :
  map_fold (λ key value (bones : gmap string Z),
     match strip_prefix "bones." key with
     | None => bones
     | Some b =>
         if bool_decide (b = "__proto__") then bones
         else <[b := value]> bones
     end) base data !! bone
  = if bool_decide (bone = "__proto__") then base !! bone
    else match data !! ("bones." +:+ bone) with
         | Some value => Some value
         | None => base !! bone
         end.
Proof.
  revert bone.
  apply (map_fold_weak_ind (λ (r : gmap string Z) (m : PoseData),
           ∀ bone, r !! bone
                   = if bool_decide (bone = "__proto__") then base !! bone
                     else match m !! ("bones." +:+ bone) with
                          | Some value => Some value
                          | None => base !! bone
                          end)).
  - intros bone. rewrite lookup_empty. by case_bool_decide.
  - intros key value m r Hfresh IH bone.
    destruct (strip_prefix "bones." key) as [b |] eqn:Hstrip.
    + apply strip_prefix_Some in Hstrip. subst key.
      destruct (decide (b = bone)) as [-> | Hne].
      * rewrite lookup_insert_eq. case_bool_decide as Hproto.
        -- rewrite IH. by rewrite bool_decide_eq_true_2.
        -- by rewrite lookup_insert_eq.
      * assert (Hkeys : "bones." +:+ b ≠ "bones." +:+ bone).
        { intros Heq. apply Hne. simpl in Heq. by simplify_eq. }
        rewrite (lookup_insert_ne _ _ _ _ Hkeys).
        case_bool_decide as Hproto; [apply IH |].
        rewrite lookup_insert_ne by exact Hne. apply IH.
    + rewrite lookup_insert_ne; [apply IH |].
      intros ->. by rewrite strip_prefix_app in Hstrip.
Qed.

Lemma option_at_indexOf (l : list string) (x : string) :
  x ∈ l → option_at l (indexOf l x) = Some x.
Proof.
  unfold indexOf, option_at.
  assert (Hfrom : ∀ i, 0 ≤ i → x ∈ l →
            0 ≤ indexOf_from i l x - i
            ∧ i ≤ indexOf_from i l x
            ∧ l !! Z.to_nat (indexOf_from i l x - i) = Some x).
  { induction l as [| y l IH]; intros i Hi Hin.
    - by apply elem_of_nil in Hin.
    - simpl. case_bool_decide as Hy.
      + subst y. rewrite Z.sub_diag. split; [lia | split; [lia | reflexivity]].
      + apply elem_of_cons in Hin as [-> | Hin]; [done |].
        destruct (IH (i + 1) ltac:(lia) Hin) as [H1 [H2 H3]].
        split; [lia | split; [lia |]].
        replace (Z.to_nat (indexOf_from (i + 1) l x - i))
          with (S (Z.to_nat (indexOf_from (i + 1) l x - (i + 1)))) by lia.
        exact H3. }
  intros Hin. destruct (Hfrom 0 ltac:(lia) Hin) as [H1 [H2 H3]].
  rewrite Z.sub_0_r in H3.
  destruct (Z.ltb_spec (indexOf_from 0 l x) 0); [lia | exact H3].
Qed.

(** ** Merging definitions without options *)

Lemma in_interval_bounds (value : Z) (iv : Interval) :
  in_interval value iv = true ↔ iv.1 ≤ value ≤ iv.2.
Proof.
  unfold in_interval. rewrite andb_true_iff, Z.geb_le, Z.leb_le. lia.
Qed.

Lemma IntervalSetIntersection_elem (a b : list Interval) (iv : Interval) :
  iv ∈ IntervalSetIntersection a b
  ↔ ∃ x y, x ∈ a ∧ y ∈ b
           ∧ iv = (Z.max x.1 y.1, Z.min x.2 y.2)
           ∧ Z.max x.1 y.1 ≤ Z.min x.2 y.2.
Proof.
  unfold IntervalSetIntersection. rewrite list_elem_of_In, in_flat_map. split.
  - intros [x [Hx Hiv]]. apply in_flat_map in Hiv as [y [Hy Hiv]].
    exists x, y. rewrite !list_elem_of_In.
    destruct (Z.leb_spec (Z.max x.1 y.1) (Z.min x.2 y.2)); [| destruct Hiv].
    destruct Hiv as [<- | []]. repeat split; assumption.
  - intros [x [y [Hx [Hy [-> Hle]]]]]. exists x.
    split; [by apply list_elem_of_In |].
    apply in_flat_map. exists y. split; [by apply list_elem_of_In |].
    rewrite (proj2 (Z.leb_le _ _) Hle). by left.
Qed.

(** A value is inside the intersection of two interval sets exactly when it
    is inside both. *)
Lemma IntervalSetIntersection_inside_iff (a b : list Interval) (value : Z) :
  existsb (in_interval value) (IntervalSetIntersection a b) = true
  ↔ existsb (in_interval value) a = true ∧ existsb (in_interval value) b = true.
Proof.
  rewrite !existsb_exists. split.
  - intros [iv [Hiv Hvalue]].
    apply list_elem_of_In, IntervalSetIntersection_elem in Hiv
      as [x [y [Hx [Hy [-> _]]]]].
    apply in_interval_bounds in Hvalue. simpl in Hvalue.
    split; [exists x | exists y];
      (split; [by apply list_elem_of_In | apply in_interval_bounds; lia]).
  - intros [[x [Hx Hvx]] [y [Hy Hvy]]].
    apply in_interval_bounds in Hvx, Hvy.
    exists (Z.max x.1 y.1, Z.min x.2 y.2). split.
    + apply list_elem_of_In, IntervalSetIntersection_elem. exists x, y.
      rewrite !list_elem_of_In. repeat split; try assumption. lia.
    + apply in_interval_bounds. simpl. lia.
Qed.

(** The intersection of two interval sets is empty exactly when no value is
    inside both. *)
Lemma IntervalSetIntersection_empty (a b : list Interval) :
  IntervalSetIntersection a b = []
  ↔ ∀ value, ¬ (existsb (in_interval value) a = true
                ∧ existsb (in_interval value) b = true).
Proof.
  split.
  - intros Hempty value Hboth.
    apply IntervalSetIntersection_inside_iff in Hboth.
    rewrite Hempty in Hboth. discriminate.
  - intros Hnone.
    destruct (IntervalSetIntersection a b) as [| iv rest] eqn:Hisi;
      [reflexivity |].
    exfalso.
    assert (Hiv : iv ∈ IntervalSetIntersection a b) by (rewrite Hisi; left).
    apply IntervalSetIntersection_elem in Hiv as [x [y [Hx [Hy [-> Hle]]]]].
    apply (Hnone (Z.max x.1 y.1)).
    rewrite !existsb_exists. split; [exists x | exists y];
      (split; [by apply list_elem_of_In | apply in_interval_bounds; lia]).
Qed.

(** Intersecting a node without children with a limit: the node that is
    left validates the data that the node validated and that satisfy the
    limit. *)
Lemma intersectionWithLimit_flat_exact (limit other : TreeLimit)
    (next : TreeNode) (data : PoseData) :
  intersectionWithLimit (Node limit None) other false = Some next →
  node_children next = None
  ∧ TreeLimit_validate (node_limit next) data
    = TreeLimit_validate limit data && TreeLimit_validate other data.
Proof.
  cbn [intersectionWithLimit].
  destruct (TreeLimit_intersection limit other) as [common |] eqn:Hcommon;
    [| discriminate].
  intros [= <-]. split; [reflexivity |]. cbn [node_limit].
  apply eq_true_iff_eq.
  rewrite andb_true_iff, !LimitTheorems.TreeLimit_validate_spec.
  assert (Hnext : ∀ key,
            TreeLimit_extend (TreeLimit_extend common limit) other !! key
            = match limit !! key, other !! key with
              | Some a, Some b => Some (IntervalSetIntersection a b)
              | Some a, None => Some a
              | None, o => o
              end).
  { intros key. rewrite !LimitTheorems.TreeLimit_extend_lookup.
    rewrite (LimitTheorems.TreeLimit_intersection_lookup _ _ _ key Hcommon).
    destruct (limit !! key), (other !! key); reflexivity. }
  split.
  - intros Hall. split; intros key intervals Hkey value Hvalue.
    + specialize (Hnext key). rewrite Hkey in Hnext.
      destruct (other !! key) as [b |].
      * pose proof (Hall key _ Hnext value Hvalue) as Hin.
        by apply IntervalSetIntersection_inside_iff in Hin as [Hin _].
      * exact (Hall key _ Hnext value Hvalue).
    + specialize (Hnext key). rewrite Hkey in Hnext.
      destruct (limit !! key) as [a |].
      * pose proof (Hall key _ Hnext value Hvalue) as Hin.
        by apply IntervalSetIntersection_inside_iff in Hin as [_ Hin].
      * exact (Hall key _ Hnext value Hvalue).
  - intros [Hlimit Hother] key intervals Hkey value Hvalue.
    rewrite Hnext in Hkey.
    destruct (limit !! key) as [a |] eqn:Ha, (other !! key) as [b |] eqn:Hb;
      try discriminate; injection Hkey as <-.
    + apply IntervalSetIntersection_inside_iff.
      split; [exact (Hlimit key a Ha value Hvalue)
             | exact (Hother key b Hb value Hvalue)].
    + exact (Hlimit key a Ha value Hvalue).
    + exact (Hother key b Hb value Hvalue).
Qed.

Section Trees.
Context `{Schemas}.

(** X9.  [force] on a pose that the tree validates returns that pose with
    [changed: false]. *)
Theorem force_on_valid_pose (t : AppearanceLimitTree) (pose : AppearancePose) :
  validate t (to_partial pose) = true →
  force t pose = mkForceResult pose false.
Proof.
  unfold validate, force. destruct (root t) as [r |]; [| discriminate].
  intros Hvalid. by rewrite (TreeNode_force_valid r _ Hvalid).
Qed.

(** X10.  On a tree whose root is consistent, [force] reports [changed]
    exactly for the poses that the tree does not validate. *)
Theorem force_changed_iff_invalid (t : AppearanceLimitTree) (r : TreeNode)
    (pose : AppearancePose) :
  root t = Some r → consistent ∅ r = true →
  fr_changed (force t pose) = negb (validate t (to_partial pose)).
Proof.
  intros Hroot Hcons. unfold force, validate. rewrite Hroot.
  pose proof (consistent_zero_iff_valid r (FromPose (to_partial pose)) Hcons)
    as Hiff.
  destruct (TreeNode_force r (FromPose (to_partial pose))) as [diff data].
  cbn [fst] in Hiff.
  destruct (TreeNode_validate r (FromPose (to_partial pose))).
  - rewrite (proj2 Hiff eq_refl). reflexivity.
  - destruct (Num_is_zero diff) eqn:Hzero; [| reflexivity].
    destruct diff as [z |]; [| discriminate]. simpl in Hzero.
    apply Z.eqb_eq in Hzero. subst z. by apply Hiff.
Qed.

Lemma hasNoLimits_valid (t : AppearanceLimitTree)
    (pose : PartialAppearancePose) :
  hasNoLimits t = true → validate t pose = true.
Proof.
  unfold hasNoLimits, validate, TreeNode_hasNoLimits, TreeLimit_hasNoLimits.
  destruct (root t) as [[limit [cs |]] |]; simpl;
    [by rewrite andb_false_r | | discriminate].
  rewrite andb_true_r. intros Hempty. apply bool_decide_eq_true in Hempty.
  apply map_size_empty_iff in Hempty. subst limit.
  assert (Hvalid : TreeLimit_validate ∅ (FromPose pose) = true).
  { apply LimitTheorems.TreeLimit_validate_spec. intros key intervals Hkey.
    by rewrite lookup_empty in Hkey. }
  by rewrite Hvalid.
Qed.

(** X11.  A tree without limits validates every pose, and [force] returns
    every pose as it is. *)
Theorem hasNoLimits_validates_all (t : AppearanceLimitTree)
    (partial : PartialAppearancePose) (pose : AppearancePose) :
  hasNoLimits t = true →
  validate t partial = true ∧ force t pose = mkForceResult pose false.
Proof.
  intros Hnone. split; [by apply hasNoLimits_valid |].
  pose proof (hasNoLimits_valid t (to_partial pose) Hnone) as Hvalid.
  unfold validate, force in *. destruct (root t) as [r |]; [| discriminate].
  by rewrite (TreeNode_force_valid r _ Hvalid).
Qed.

(** The data of a full pose: its bones under their prefixed names, the six
    arm keys and the view. *)
Lemma FromPose_full (pose : AppearancePose) :
  FromPose (to_partial pose)
  = <["view" := if bool_decide (view pose = CharacterView_FRONT) then 0 else 1]>
    (<["rightArm.fingers" := indexOf ArmFingersSchema_options (fingers (rightArm pose))]>
    (<["rightArm.rotation" := indexOf ArmRotationSchema_options (rotation (rightArm pose))]>
    (<["rightArm.position" := position (rightArm pose)]>
    (<["leftArm.fingers" := indexOf ArmFingersSchema_options (fingers (leftArm pose))]>
    (<["leftArm.rotation" := indexOf ArmRotationSchema_options (rotation (leftArm pose))]>
    (<["leftArm.position" := position (leftArm pose)]>
    (map_fold (λ k value (data : PoseData), <["bones." +:+ k := value]> data)
              ∅ (bones pose)))))))).
Proof. reflexivity. Qed.

Lemma FromPose_full_lookup (pose : AppearancePose) :
  let data := FromPose (to_partial pose) in
  data !! "leftArm.position" = Some (position (leftArm pose))
  ∧ data !! "leftArm.rotation"
    = Some (indexOf ArmRotationSchema_options (rotation (leftArm pose)))
  ∧ data !! "leftArm.fingers"
    = Some (indexOf ArmFingersSchema_options (fingers (leftArm pose)))
  ∧ data !! "rightArm.position" = Some (position (rightArm pose))
  ∧ data !! "rightArm.rotation"
    = Some (indexOf ArmRotationSchema_options (rotation (rightArm pose)))
  ∧ data !! "rightArm.fingers"
    = Some (indexOf ArmFingersSchema_options (fingers (rightArm pose)))
  ∧ data !! "view"
    = Some (if bool_decide (view pose = CharacterView_FRONT) then 0 else 1)
  ∧ ∀ bone, data !! ("bones." +:+ bone) = bones pose !! bone.
Proof.
  cbv zeta. rewrite FromPose_full.
  repeat split;
    try (repeat (rewrite lookup_insert_ne by discriminate);
         by rewrite lookup_insert_eq).
  intros bone. repeat (rewrite lookup_insert_ne by discriminate).
  by rewrite FromPose_bones_lookup, strip_prefix_app.
Qed.

(** X12.  [ToPose] undoes [FromPose] on every pose that fits the schemas
    and has no bone with the name [__proto__]: the conversion of such a pose
    to the solver's data loses nothing. *)
Theorem ToPose_FromPose (pose : AppearancePose) :
  pose_fits_schemas pose →
  ToPose (FromPose (to_partial pose)) = pose.
Proof.
  intros (Hlp & Hrp & Hlr & Hrr & Hlf & Hrf & Hfront & Hview & Hvalues
          & Hproto & Hbones).
  destruct (FromPose_full_lookup pose)
    as (Dlp & Dlr & Dlf & Drp & Drr & Drf & Dview & Dbones).
  unfold ToPose, ToArmPose.
  change ("leftArm" +:+ ".position") with "leftArm.position".
  change ("leftArm" +:+ ".rotation") with "leftArm.rotation".
  change ("leftArm" +:+ ".fingers") with "leftArm.fingers".
  change ("rightArm" +:+ ".position") with "rightArm.position".
  change ("rightArm" +:+ ".rotation") with "rightArm.rotation".
  change ("rightArm" +:+ ".fingers") with "rightArm.fingers".
  rewrite Dlp, Dlr, Dlf, Drp, Drr, Drf, Dview.
  rewrite !option_at_indexOf by assumption.
  rewrite !bool_decide_eq_true_2 by assumption.
  assert (Hv : (if bool_decide (view pose = CharacterView_FRONT) then 0 else 1)
               = view pose).
  { case_bool_decide as Hf; [congruence |].
    destruct Hview as [Hv | Hv]; [congruence | by rewrite Hv]. }
  rewrite Hv. rewrite bool_decide_eq_true_2 by exact Hvalues.
  destruct pose as [pbones [lp lr lf] [rp rr rf] pview]. simpl in *.
  f_equal. apply map_eq. intros bone.
  rewrite ToPose_bones_lookup, Dbones.
  assert (Hdefault : pbones !! bone = None →
            AppearanceLimit.bones GetDefaultAppearanceBundle !! bone = None).
  { intros Hbone.
    destruct (AppearanceLimit.bones GetDefaultAppearanceBundle !! bone)
      as [value |] eqn:Hdefault; [| reflexivity].
    destruct (Hbones bone (mk_is_Some _ _ Hdefault)) as [present Hpresent].
    congruence. }
  destruct (decide (bone = "__proto__")) as [-> | Hname].
  - rewrite bool_decide_eq_true_2 by reflexivity.
    rewrite Hproto. by apply Hdefault.
  - rewrite bool_decide_eq_false_2 by exact Hname.
    destruct (pbones !! bone) as [value |] eqn:Hbone; [reflexivity |].
    by apply Hdefault.
Qed.

(** X13.  A pose that the tree validates is still validated when only its
    bones are submitted. *)
Theorem validate_bones_only (t : AppearanceLimitTree) (pose : AppearancePose) :
  validate t (to_partial pose) = true →
  validate t (mkPartialPose (Some (bones pose)) None None None None) = true.
Proof.
  unfold validate. destruct (root t) as [r |]; [| discriminate].
  apply TreeNode_validate_subseteq. rewrite FromPose_full.
  assert (Hfresh : ∀ key, strip_prefix "bones." key = None →
            map_fold (λ k value (data : PoseData), <["bones." +:+ k := value]> data)
                     ∅ (bones pose) !! key = None).
  { intros key Hkey. by rewrite FromPose_bones_lookup, Hkey. }
  change (FromPose (mkPartialPose (Some (bones pose)) None None None None))
    with (map_fold (λ k value (data : PoseData), <["bones." +:+ k := value]> data)
                   ∅ (bones pose)).
  repeat (apply insert_subseteq_r; [by apply Hfresh |]).
  reflexivity.
Qed.

(** The limit of a definition: the limit of the node that [CreateTreeNode]
    makes of it. *)
Lemma merge_flat_exact (t : AppearanceLimitTree)
    (limits : AssetDefinitionPoseLimits) (pose : PartialAppearancePose) :
  flat t = true → no_options limits = true →
  valid (merge t (Some limits)).2 = true →
  validate (merge t (Some limits)).2 pose
  = validate t pose
    && TreeLimit_validate (node_limit (CreateTreeNode limits)) (FromPose pose).
Proof.
  unfold flat, merge, validate, valid.
  destruct t as [[[limit [cs |]] |]]; simpl; [discriminate | | discriminate].
  intros _ Hflat.
  destruct limits as [l_bones l_left l_right l_arms l_view [options |]];
    [discriminate |].
  cbn [CreateTreeNode TreeNode_intersection node_limit].
  destruct (intersectionWithLimit (Node limit None) _ false) as [next |] eqn:Hnext;
    simpl; [| discriminate].
  intros _.
  apply (intersectionWithLimit_flat_exact _ _ _ (FromPose pose)) in Hnext
    as [Hchildren Hvalid].
  destruct next as [limit' children']. simpl in Hchildren, Hvalid.
  subst children'. cbn [TreeNode_validate]. rewrite Hvalid.
  destruct (TreeLimit_validate limit (FromPose pose));
    destruct (TreeLimit_validate (FromLimit _ _ _ _ _) (FromPose pose));
    reflexivity.
Qed.

(** X14.  A tree built by merging definitions without options into a new
    tree, if it is still valid, validates exactly the poses that satisfy the
    limit of every definition. *)
Theorem merged_definitions_validate (ls : list AssetDefinitionPoseLimits)
    (pose : PartialAppearancePose) :
  forallb no_options ls = true →
  valid (merge_all AppearanceLimitTree_new (map Some ls)) = true →
  validate (merge_all AppearanceLimitTree_new (map Some ls)) pose
  = forallb (λ limits,
       TreeLimit_validate (node_limit (CreateTreeNode limits)) (FromPose pose))
      ls.
Proof.
  induction ls as [| limits ls IH] using rev_ind; intros Hflat Hvalid.
  - simpl. apply (hasNoLimits_valid AppearanceLimitTree_new pose).
    reflexivity.
  - rewrite forallb_app in Hflat. apply andb_true_iff in Hflat as [Hls Hlimits].
    simpl in Hlimits. rewrite andb_true_r in Hlimits.
    rewrite map_app, LimitTheorems.merge_all_app in Hvalid |- *.
    cbn [map merge_all foldl] in Hvalid |- *.
    assert (Hprefix : valid (merge_all AppearanceLimitTree_new (map Some ls)) = true).
    { destruct (valid (merge_all AppearanceLimitTree_new (map Some ls))) eqn:Hv;
        [reflexivity |].
      rewrite (LimitTheorems.merge_invalid _ (Some limits) Hv) in Hvalid.
      simpl in Hvalid. congruence. }
    rewrite merge_flat_exact; try assumption.
    + rewrite (IH Hls Hprefix), forallb_app. simpl. by rewrite andb_true_r.
    + apply LimitTheorems.merge_all_flat; [reflexivity | exact Hls].
Qed.

(** X15.  Merging a definition without options into a valid tree without
    alternatives fails exactly when some key that both the tree and the
    definition limit has no value inside both interval sets. *)
Theorem merge_fails_iff_no_common_value (limit : TreeLimit)
    (limits : AssetDefinitionPoseLimits) :
  no_options limits = true →
  ((merge (mkTree (Some (Node limit None))) (Some limits)).1 = false
   ↔ ∃ key a b,
       limit !! key = Some a
       ∧ node_limit (CreateTreeNode limits) !! key = Some b
       ∧ ∀ value, ¬ (existsb (in_interval value) a = true
                     ∧ existsb (in_interval value) b = true)).
Proof.
  intros Hflat.
  destruct limits as [l_bones l_left l_right l_arms l_view [options |]];
    [discriminate |].
  unfold merge. cbn [root CreateTreeNode TreeNode_intersection
                     intersectionWithLimit node_limit fst].
  pose proof (TreeLimit_intersection_None limit
                (FromLimit l_bones l_left l_right l_arms l_view)) as Hnone.
  destruct (TreeLimit_intersection limit _) as [common |].
  - split; [discriminate |]. intros [key [a [b [Ha [Hb Hempty]]]]].
    assert (Hno : Some common = None); [| discriminate].
    apply Hnone. exists key, a, b. repeat split; try assumption.
    by apply IntervalSetIntersection_empty.
  - split; [intros _ | reflexivity].
    destruct (proj1 Hnone eq_refl) as [key [a [b [Ha [Hb Hempty]]]]].
    exists key, a, b. repeat split; try assumption.
    by apply IntervalSetIntersection_empty.
Qed.

(** X16.  Merging only restricts: after any number of definitions without
    options is merged into a tree without alternatives, every pose that the
    tree validates was validated before the merges. *)
Theorem merges_only_restrict (ls : list AssetDefinitionPoseLimits)
    (t : AppearanceLimitTree) (pose : PartialAppearancePose) :
  flat t = true → forallb no_options ls = true →
  validate (merge_all t (map Some ls)) pose = true →
  validate t pose = true.
Proof.
  revert t. induction ls as [| limits ls IH]; intros t Hflat Hls;
    [by intros Hvalid |].
  cbn [forallb] in Hls. apply andb_true_iff in Hls as [Hlimits Hls].
  destruct (LimitTheorems.merge_flat t limits pose Hflat Hlimits)
    as [Hflat' Hstep].
  intros Hvalid. apply Hstep. exact (IH _ Hflat' Hls Hvalid).
Qed.

End Trees.

(** ** The theorems at the sample limits *)

#[local] Existing Instance sample_schemas.

Lemma prune_extend_disjoint_witness :
  (∀ key, ({[ "view" := [(0, 0)] ]} : TreeLimit) !! key = None
          ∨ ({[ "bones.leg_l" := [(5, 20)] ]} : TreeLimit) !! key = None)
  ∧ TreeLimit_prune
      (TreeLimit_extend {[ "view" := [(0, 0)] ]}
                        {[ "bones.leg_l" := [(5, 20)] ]})
      {[ "bones.leg_l" := [(5, 20)] ]}
    = {[ "view" := [(0, 0)] ]}.
Proof.
  assert (Hdisjoint : ∀ key,
            ({[ "view" := [(0, 0)] ]} : TreeLimit) !! key = None
            ∨ ({[ "bones.leg_l" := [(5, 20)] ]} : TreeLimit) !! key = None).
  { intros key. destruct (decide (key = "view")) as [-> | Hne].
    - right. reflexivity.
    - left. by apply lookup_singleton_ne. }
  split; [exact Hdisjoint |].
  exact (prune_extend_disjoint _ _ Hdisjoint).
Defined.

Lemma force_converges_witness :
  consistent ∅ node_A = true
  ∧ TreeNode_validate node_A
      (TreeNode_force node_A {[ "bones.leg_l" := 30 ]}).2 = true.
Proof.
  assert (Hcons : consistent ∅ node_A = true) by (vm_compute; reflexivity).
  split; [exact Hcons |].
  exact (proj1 (proj2 (force_converges node_A {[ "bones.leg_l" := 30 ]}
                         Hcons))).
Defined.

Lemma force_on_valid_pose_witness :
  validate (tree_of [limits_A]) (to_partial pose_leg_10) = true
  ∧ force (tree_of [limits_A]) pose_leg_10 = mkForceResult pose_leg_10 false.
Proof.
  assert (Hvalid : validate (tree_of [limits_A]) (to_partial pose_leg_10) = true)
    by (vm_compute; reflexivity).
  split; [exact Hvalid |].
  exact (force_on_valid_pose (tree_of [limits_A]) pose_leg_10 Hvalid).
Defined.

Lemma force_changed_iff_invalid_witness :
  root (tree_of [limits_A; limits_B])
  = Some (Node {[ "bones.leg_l" := [(5, 10)] ]} None)
  ∧ consistent ∅ (Node {[ "bones.leg_l" := [(5, 10)] ]} None) = true
  ∧ fr_changed (force (tree_of [limits_A; limits_B]) pose_leg_30)
    = negb (validate (tree_of [limits_A; limits_B]) (to_partial pose_leg_30)).
Proof.
  assert (Hroot : root (tree_of [limits_A; limits_B])
                  = Some (Node {[ "bones.leg_l" := [(5, 10)] ]} None))
    by (vm_compute; reflexivity).
  assert (Hcons : consistent ∅ (Node {[ "bones.leg_l" := [(5, 10)] ]} None)
                  = true) by (vm_compute; reflexivity).
  split; [exact Hroot |]. split; [exact Hcons |].
  exact (force_changed_iff_invalid (tree_of [limits_A; limits_B]) _
           pose_leg_30 Hroot Hcons).
Defined.

Lemma hasNoLimits_validates_all_witness :
  hasNoLimits AppearanceLimitTree_new = true
  ∧ validate AppearanceLimitTree_new (to_partial pose_leg_30) = true
  ∧ force AppearanceLimitTree_new pose_leg_30
    = mkForceResult pose_leg_30 false.
Proof.
  assert (Hnone : hasNoLimits AppearanceLimitTree_new = true)
    by (vm_compute; reflexivity).
  split; [exact Hnone |].
  exact (hasNoLimits_validates_all AppearanceLimitTree_new
           (to_partial pose_leg_30) pose_leg_30 Hnone).
Defined.

Lemma ToPose_FromPose_witness :
  pose_fits_schemas pose_leg_10
  ∧ ToPose (FromPose (to_partial pose_leg_10)) = pose_leg_10.
Proof.
  assert (Hfits : pose_fits_schemas pose_leg_10).
  { unfold pose_fits_schemas.
    repeat match goal with
           | |- _ ∧ _ => split
           | |- _ ∈ _ => apply (bool_decide_unpack _); vm_compute; exact I
           end.
    - reflexivity.
    - left. reflexivity.
    - reflexivity.
    - intros bone [value Hvalue]. simpl in Hvalue.
      by rewrite lookup_empty in Hvalue. }
  split; [exact Hfits |].
  exact (ToPose_FromPose pose_leg_10 Hfits).
Defined.

(** A bone with the name [__proto__] does not come back: the data hold it,
    and [ToPose] does not store it. *)
Example ToPose_drops_proto_bone :
  FromPose (to_partial (bone_pose {[ "__proto__" := 5 ]})) !! "bones.__proto__"
  = Some 5
  ∧ ToPose (FromPose (to_partial (bone_pose {[ "__proto__" := 5 ]})))
    = bone_pose ∅.
Proof. vm_compute. split; reflexivity. Qed.

Lemma validate_bones_only_witness :
  validate (tree_of [limits_A]) (to_partial pose_leg_10) = true
  ∧ validate (tree_of [limits_A])
      (mkPartialPose (Some (bones pose_leg_10)) None None None None) = true.
Proof.
  assert (Hvalid : validate (tree_of [limits_A]) (to_partial pose_leg_10) = true)
    by (vm_compute; reflexivity).
  split; [exact Hvalid |].
  exact (validate_bones_only (tree_of [limits_A]) pose_leg_10 Hvalid).
Defined.

Lemma merged_definitions_validate_witness :
  forallb no_options [limits_A; limits_B] = true
  ∧ valid (merge_all AppearanceLimitTree_new (map Some [limits_A; limits_B]))
    = true
  ∧ validate (merge_all AppearanceLimitTree_new (map Some [limits_A; limits_B]))
      (to_partial pose_leg_30)
    = forallb (λ limits,
         TreeLimit_validate (node_limit (CreateTreeNode limits))
           (FromPose (to_partial pose_leg_30)))
        [limits_A; limits_B].
Proof.
  assert (Hflat : forallb no_options [limits_A; limits_B] = true)
    by reflexivity.
  assert (Hvalid : valid (merge_all AppearanceLimitTree_new
                            (map Some [limits_A; limits_B])) = true)
    by (vm_compute; reflexivity).
  split; [exact Hflat |]. split; [exact Hvalid |].
  exact (merged_definitions_validate [limits_A; limits_B]
           (to_partial pose_leg_30) Hflat Hvalid).
Defined.

Lemma merge_fails_iff_no_common_value_witness :
  no_options limits_C = true
  ∧ ((merge (mkTree (Some (Node {[ "bones.leg_l" := [(-10, 10)] ]} None)))
        (Some limits_C)).1 = false
     ↔ ∃ key a b,
         ({[ "bones.leg_l" := [(-10, 10)] ]} : TreeLimit) !! key = Some a
         ∧ node_limit (CreateTreeNode limits_C) !! key = Some b
         ∧ ∀ value, ¬ (existsb (in_interval value) a = true
                       ∧ existsb (in_interval value) b = true)).
Proof.
  assert (Hflat : no_options limits_C = true) by reflexivity.
  split; [exact Hflat |].
  exact (merge_fails_iff_no_common_value {[ "bones.leg_l" := [(-10, 10)] ]}
           limits_C Hflat).
Defined.

Lemma merges_only_restrict_witness :
  flat (tree_of [limits_A]) = true
  ∧ forallb no_options [limits_B] = true
  ∧ validate (merge_all (tree_of [limits_A]) (map Some [limits_B]))
      (to_partial pose_leg_10) = true
  ∧ validate (tree_of [limits_A]) (to_partial pose_leg_10) = true.
Proof.
  assert (Hflat : flat (tree_of [limits_A]) = true)
    by (vm_compute; reflexivity).
  assert (Hls : forallb no_options [limits_B] = true) by reflexivity.
  assert (Hvalid : validate
                     (merge_all (tree_of [limits_A]) (map Some [limits_B]))
                     (to_partial pose_leg_10) = true)
    by (vm_compute; reflexivity).
  split; [exact Hflat |]. split; [exact Hls |]. split; [exact Hvalid |].
  exact (merges_only_restrict [limits_B] (tree_of [limits_A])
           (to_partial pose_leg_10) Hflat Hls Hvalid).
Defined.

End LimitExtras.

Module ActionExtras.
Import AppearanceActions SharedAppearances ActionPredicates ActionSamples
  SharedSamples.

Section Actions.
Context {Appearance Asset AssetManager : Type}.
Variable getAssetById : AssetManager → AssetId → option Asset.
Variable allowCreateItem : Appearance → ItemId → Asset → bool.
Variable createItem : Appearance → ItemId → Asset → Appearance.
Variable allowRemoveItem : Appearance → ItemId → bool.
Variable removeItem : Appearance → ItemId → Appearance.
Variable importPose : Appearance → gmap string Z → PoseActionType → Appearance.

Local Abbreviation Do :=
  (DoAppearanceAction getAssetById allowCreateItem createItem
     allowRemoveItem removeItem importPose).
Local Abbreviation DoShared :=
  (DoAppearanceAction_shared getAssetById allowCreateItem createItem
     allowRemoveItem removeItem importPose).

(** X17.  An action that [DoAppearanceAction] rejects changes nothing, also
    when the call is not a dry run. *)
Theorem rejected_action_changes_nothing (action : AppearanceAction)
    (context : AppearanceActionContext) (assetManager : AssetManager)
    (dryRun : bool) :
  (Do action context assetManager dryRun).1 = false →
  (Do action context assetManager dryRun).2 = context.
Proof.
  rewrite ActionTheorems.DoAppearanceAction_phases. cbn [fst snd].
  by intros ->.
Qed.


End Actions.

Lemma rejected_action_changes_nothing_witness :
  (sample_DoAppearanceAction (ActionDelete "c2" "i/9") sample_context
     sample_manager false).1 = false
  ∧ (sample_DoAppearanceAction (ActionDelete "c2" "i/9") sample_context
       sample_manager false).2 = sample_context.
Proof.
  assert (Hrejected : (sample_DoAppearanceAction (ActionDelete "c2" "i/9")
                         sample_context sample_manager false).1 = false)
    by (vm_compute; reflexivity).
  split; [exact Hrejected |].
  exact (rejected_action_changes_nothing sample_getAssetById
           sample_allowCreateItem sample_createItem sample_allowRemoveItem
           sample_removeItem sample_importPose (ActionDelete "c2" "i/9")
           sample_context sample_manager false Hrejected).
Defined.

(** An object that two ids hold changes under both: deleting [i/1] from
    [c1] in [twin_context] also empties what [c2] shows, and leaves [c3] as
    it was. *)
Example shared_object_changes_under_both_ids :
  appearance_of twin_context "c2" = Some ["i/1"]
  ∧ (sample_DoAppearanceAction_shared (ActionDelete "c1" "i/1") twin_context
       sample_manager false).1 = true
  ∧ appearance_of
      (sample_DoAppearanceAction_shared (ActionDelete "c1" "i/1") twin_context
         sample_manager false).2 "c2" = Some []
  ∧ appearance_of
      (sample_DoAppearanceAction_shared (ActionDelete "c1" "i/1") twin_context
         sample_manager false).2 "c3" = Some ["i/1"].
Proof. vm_compute. repeat split; reflexivity. Qed.

End ActionExtras.

Module InventoryExtras.
Import Inventory InventoryPredicates InventoryExtraPredicates InventorySamples.

Section Storage.
Variable AssetSizeMapping : AssetSize → option Z.

(** ** The constructor of [ItemModuleStorage] *)

Lemma sublist_map {A B : Type} (f : A → B) (l1 l2 : list A) :
  l1 `sublist_of` l2 → map f l1 `sublist_of` map f l2.
Proof.
  induction 1; simpl; [constructor | by apply sublist_skip | by apply sublist_cons].
Qed.

Lemma sublist_Forall {A : Type} (P : A → Prop) (l1 l2 : list A) :
  l1 `sublist_of` l2 → Forall P l2 → Forall P l1.
Proof.
  intros Hsub Hall. rewrite Forall_forall in Hall |- *.
  intros x Hx. apply Hall. exact (elem_of_sublist _ _ _ Hx Hsub).
Qed.

(** The run of the loop of the constructor: the items of the module come, in
    order, from bundles whose asset the manager resolves; without cleanup no
    such bundle is left out, with cleanup the count limit is kept. *)
Lemma ItemModuleStorage_new_trace
    (newItem : ItemId → Asset → ItemBundle → option Logger
               → Item * option Logger)
    (cfg : IModuleConfigStorage) (data : list ItemBundle)
    (mgr : AssetManager) (cleanup : bool) (logger : option Logger) :
  ∀ module,
    module = (ItemModuleStorage_new AssetSizeMapping newItem cfg data mgr
                cleanup logger).1 →
    assetMananger module = mgr
    ∧ config module = cfg
    ∧ ∃ kept,
        kept `sublist_of` filter (λ b, known_asset mgr b = true) data
        ∧ Forall2 (loaded_from AssetSizeMapping newItem mgr cleanup cfg)
                  (contents module) kept
        ∧ (cleanup = false →
           kept = filter (λ b, known_asset mgr b = true) data)
        ∧ (cleanup = true →
           contents module = []
           ∨ Z.of_nat (length (contents module)) ≤ maxCount cfg).
Proof.
  intros module ->. unfold ItemModuleStorage_new.
  match goal with
  | |- context [foldl ?f (_, logger) data] => set (step := f)
  end.
  set (R := loaded_from AssetSizeMapping newItem mgr cleanup cfg).
  set (known := λ b, known_asset mgr b = true).
  assert (Hrun : ∀ bs st kept0,
            Forall2 R st.1 kept0 →
            (cleanup = true →
             st.1 = [] ∨ Z.of_nat (length st.1) ≤ maxCount cfg) →
            ∃ kept, kept `sublist_of` filter known bs
                    ∧ Forall2 R (foldl step st bs).1 (kept0 ++ kept)
                    ∧ (cleanup = false → kept = filter known bs)
                    ∧ (cleanup = true →
                       (foldl step st bs).1 = []
                       ∨ Z.of_nat (length (foldl step st bs).1) ≤ maxCount cfg)).
  { induction bs as [| b bs IH]; intros st kept0 Hacc Hcount.
    - simpl. exists []. rewrite app_nil_r.
      split; [constructor |]. split; [exact Hacc |]. by split.
    - cbn [foldl]. rewrite filter_cons.
      destruct (getAssetById mgr (b_asset b)) as [asset |] eqn:Hasset.
      + assert (Hknown : known b).
        { unfold known, known_asset. rewrite Hasset.
          by apply bool_decide_eq_true_2. }
        rewrite decide_True by exact Hknown.
        assert (Hstep : ((step st b).1 = st.1 ∧ cleanup = true)
                        ∨ ∃ item, (step st b).1 = st.1 ++ [item]
                                  ∧ R item b
                                  ∧ (cleanup = true →
                                     Z.of_nat (length st.1) < maxCount cfg)).
        { destruct st as [acc lg]. unfold step. cbn [fst]. rewrite Hasset.
          destruct (newItem (b_id b) asset b lg) as [item lg'] eqn:Hitem.
          assert (Hitem' : item = (newItem (b_id b) asset b lg).1)
            by (by rewrite Hitem).
          destruct cleanup; cbn [andb].
          - destruct (Z.geb_spec (Z.of_nat (length acc)) (maxCount cfg))
              as [Hfull | Hroom]; [left; by split |].
            destruct (default 99 (AssetSizeMapping (asset_size asset))
                      >? default 0 (AssetSizeMapping (maxAcceptedSize cfg)))
              eqn:Hsize; [left; by split |].
            destruct (Item_validate AssetSizeMapping item false) eqn:Hvalid;
              cbn [success negb]; [| left; by split].
            right. exists item. split; [reflexivity |].
            split; [| intros _; exact Hroom].
            exists asset, lg. split; [exact Hasset |].
            split; [exact Hitem' |]. intros _. by split.
          - right. exists item. split; [reflexivity |].
            split; [| discriminate].
            exists asset, lg. split; [exact Hasset |].
            split; [exact Hitem' | discriminate]. }
        destruct Hstep as [[Hsame Hclean] | [item [Hpush [HR Hroom]]]].
        * destruct (IH (step st b) kept0) as [kept [Hsub [Hall [_ Hlen]]]];
            [by rewrite Hsame | by rewrite Hsame |].
          exists kept. split; [by apply sublist_cons |].
          split; [exact Hall |]. split; [congruence | exact Hlen].
        * destruct (IH (step st b) (kept0 ++ [b]))
            as [kept [Hsub [Hall [Hfull Hlen]]]].
          { rewrite Hpush. apply Forall2_app; [exact Hacc |].
            by constructor. }
          { intros Hclean. right. rewrite Hpush, length_app. cbn [length].
            specialize (Hroom Hclean). lia. }
          exists (b :: kept). split; [by apply sublist_skip |].
          split; [by rewrite <- app_assoc in Hall |].
          split; [| exact Hlen].
          intros Hclean. by rewrite (Hfull Hclean).
      + assert (Hknown : ¬ known b).
        { unfold known, known_asset. rewrite Hasset.
          rewrite bool_decide_eq_false_2 by (intros [? ?]; discriminate).
          discriminate. }
        rewrite decide_False by exact Hknown.
        assert (Hsame : (step st b).1 = st.1).
        { destruct st as [acc lg]. unfold step. cbn [fst].
          by rewrite Hasset. }
        apply IH; by rewrite Hsame. }
  destruct (Hrun data ([], logger) []) as [kept Hkept];
    [constructor | by left |].
  destruct (foldl step _ data) as [content lg']. cbn [fst] in *.
  split; [reflexivity |]. split; [reflexivity |].
  exists kept. exact Hkept.
Qed.

Lemma loaded_from_ids
    (newItem : ItemId → Asset → ItemBundle → option Logger
               → Item * option Logger)
    (mgr : AssetManager) (cleanup : bool) (cfg : IModuleConfigStorage)
    (items : list Item) (kept : list ItemBundle) :
  (∀ id asset b lg, item_id (newItem id asset b lg).1 = id) →
  Forall2 (loaded_from AssetSizeMapping newItem mgr cleanup cfg) items kept →
  map item_id items = map b_id kept.
Proof.
  intros Hid. induction 1 as [| item b items kept Hitem _ IH]; simpl;
    [reflexivity |].
  destruct Hitem as [asset [lg [_ [-> _]]]]. by rewrite Hid, IH.
Qed.

Lemma loaded_from_checked
    (newItem : ItemId → Asset → ItemBundle → option Logger
               → Item * option Logger)
    (mgr : AssetManager) (cfg : IModuleConfigStorage)
    (items : list Item) (kept : list ItemBundle) :
  (∀ id asset b lg, item_asset (newItem id asset b lg).1 = asset) →
  Forall2 (loaded_from AssetSizeMapping newItem mgr true cfg) items kept →
  Forall (λ i, exceeds_size AssetSizeMapping cfg i = false) items
  ∧ Forall (λ i, Item_validate AssetSizeMapping i false = Success) items.
Proof.
  intros Hasset. induction 1 as [| item b items kept Hitem _ [IHs IHv]];
    [split; constructor |].
  destruct Hitem as [asset [lg [_ [Hitem Hchecked]]]].
  destruct (Hchecked eq_refl) as [Hsize Hvalid].
  split; constructor; try assumption.
  unfold exceeds_size. by rewrite Hitem, Hasset.
Qed.

(** ** [ValidateStorage] *)

(** X19.  A storage that validates still validates after items are removed
    from it and the rest is reordered: [ValidateStorage] succeeds on every
    list that is, up to the order, contained in a list on which it succeeds. *)
Theorem ValidateStorage_submseteq
    (validate : Item → bool → AppearanceValidationResult)
    (contents rest : AppearanceItems) (config : IModuleConfigStorage) :
  rest ⊆+ contents →
  ValidateStorage AssetSizeMapping validate contents config = Success →
  ValidateStorage AssetSizeMapping validate rest config = Success.
Proof.
  intros Hsub Hvalid.
  apply InventoryTheorems.ValidateStorage_success in Hvalid
    as [Hnodup [Hcount [Hsize Hitems]]].
  apply InventoryTheorems.ValidateStorage_success.
  pose proof (submseteq_length _ _ Hsub) as Hlen.
  apply submseteq_Permutation in Hsub as [dropped Hperm].
  rewrite Hperm in Hsize, Hitems.
  apply Forall_app in Hsize as [Hsize _].
  apply Forall_app in Hitems as [Hitems _].
  split; [| split; [lia | by split]].
  assert (Hids : map item_id contents ≡ₚ map item_id rest ++ map item_id dropped).
  { rewrite <- map_app. by apply Permutation_map. }
  rewrite Hids in Hnodup. by apply NoDup_app in Hnodup as [Hnodup _].
Qed.

(** ** What the constructor of [ItemModuleStorage] keeps *)

(** X20.  The constructor only drops items: for an item constructor that
    gives the item the id it is called with, the ids of the contents of the
    new module are, in the same order, ids of bundles of the data whose asset
    the manager resolves.  Without load-time cleanup they are the ids of all
    of these bundles: nothing but an unknown asset drops an item, whatever
    the limits of the configuration are. *)
Theorem ItemModuleStorage_new_only_drops
    (newItem : ItemId → Asset → ItemBundle → option Logger
               → Item * option Logger)
    (cfg : IModuleConfigStorage) (data : list ItemBundle)
    (mgr : AssetManager) (cleanup : bool) (logger : option Logger) :
  (∀ id asset b lg, item_id (newItem id asset b lg).1 = id) →
  map item_id
      (contents (ItemModuleStorage_new AssetSizeMapping newItem cfg data mgr
                   cleanup logger).1)
    `sublist_of` map b_id (filter (λ b, known_asset mgr b = true) data)
  ∧ (cleanup = false →
     map item_id
         (contents (ItemModuleStorage_new AssetSizeMapping newItem cfg data mgr
                      cleanup logger).1)
     = map b_id (filter (λ b, known_asset mgr b = true) data)).
Proof.
  intros Hid.
  destruct (ItemModuleStorage_new_trace newItem cfg data mgr cleanup logger
              _ eq_refl) as [_ [_ [kept [Hsub [Hall [Hfull _]]]]]].
  rewrite (loaded_from_ids _ _ _ _ _ _ Hid Hall).
  split; [by apply sublist_map |].
  intros Hclean. by rewrite (Hfull Hclean).
Qed.

(** X21.  After load-time cleanup the validation of the module can only fail
    on repeated ids.  For an item constructor that gives the item the id and
    the asset it is called with, and a count limit that is not negative, the
    module built with [doLoadTimeCleanup] validates exactly when the ids of
    its contents are distinct, and fails with [invalid] otherwise; it
    validates whenever the ids of the bundles are distinct. *)
Theorem validate_after_cleanup
    (newItem : ItemId → Asset → ItemBundle → option Logger
               → Item * option Logger)
    (cfg : IModuleConfigStorage) (data : list ItemBundle)
    (mgr : AssetManager) (logger : option Logger) (isWorn : bool) :
  (∀ id asset b lg, item_id (newItem id asset b lg).1 = id
                    ∧ item_asset (newItem id asset b lg).1 = asset) →
  0 ≤ maxCount cfg →
  ItemModuleStorage_validate AssetSizeMapping
    (ItemModuleStorage_new AssetSizeMapping newItem cfg data mgr true logger).1
    isWorn
  = (if has_repeated_id ∅
          (contents (ItemModuleStorage_new AssetSizeMapping newItem cfg data
                       mgr true logger).1)
     then Failure ProblemInvalid else Success)
  ∧ (NoDup (map b_id data) →
     ItemModuleStorage_validate AssetSizeMapping
       (ItemModuleStorage_new AssetSizeMapping newItem cfg data mgr true
          logger).1 isWorn
     = Success).
Proof.
  intros Hnew Hmax.
  destruct (ItemModuleStorage_new_trace newItem cfg data mgr true logger
              _ eq_refl) as [_ [Hcfg [kept [Hsub [Hall [_ Hcount]]]]]].
  pose proof (loaded_from_ids newItem mgr true cfg _ _
                (λ id asset b lg, proj1 (Hnew id asset b lg)) Hall) as Hids.
  destruct (loaded_from_checked newItem mgr cfg _ _
              (λ id asset b lg, proj2 (Hnew id asset b lg)) Hall)
    as [Hsize Hvalid].
  set (module := (ItemModuleStorage_new AssetSizeMapping newItem cfg data mgr
                    true logger).1) in *.
  assert (Hlen : Z.of_nat (length (contents module)) ≤ maxCount cfg).
  { destruct (Hcount eq_refl) as [-> | Hlen]; [simpl; lia | exact Hlen]. }
  assert (Hiff : NoDup (map item_id (contents module)) →
                 ItemModuleStorage_validate AssetSizeMapping module isWorn
                 = Success).
  { intros Hnodup. unfold ItemModuleStorage_validate.
    apply InventoryTheorems.ValidateStorage_success. rewrite Hcfg.
    split; [exact Hnodup |]. split; [exact Hlen |]. by split. }
  split.
  - destruct (has_repeated_id ∅ (contents module)) eqn:Hrep.
    + unfold ItemModuleStorage_validate, ValidateStorage. by rewrite Hrep.
    + apply Hiff. by apply InventoryTheorems.has_repeated_id_NoDup.
  - intros Hnodup. apply Hiff. rewrite Hids.
    apply (sublist_NoDup _ (map b_id data)); [exact Hnodup |].
    apply sublist_map. etrans; [exact Hsub |]. apply sublist_filter.
Qed.

(** X22.  Load-time cleanup does not remove repeated ids: a bundle that is
    loaded without complaint on its own gives, when the data holds it twice
    and the count limit allows two items, a module with two items of the same
    id, whose validation fails with [invalid]. *)
Theorem cleanup_keeps_repeated_ids
    (newItem : ItemId → Asset → ItemBundle → option Logger
               → Item * option Logger)
    (cfg : IModuleConfigStorage) (b : ItemBundle) (asset : Asset)
    (mgr : AssetManager) (logger : option Logger) (isWorn : bool) :
  (∀ id asset b lg, item_id (newItem id asset b lg).1 = id) →
  getAssetById mgr (b_asset b) = Some asset →
  2 ≤ maxCount cfg →
  (default 99 (AssetSizeMapping (asset_size asset))
   >? default 0 (AssetSizeMapping (maxAcceptedSize cfg))) = false →
  (∀ lg, Item_validate AssetSizeMapping (newItem (b_id b) asset b lg).1 false
         = Success) →
  map item_id
      (contents (ItemModuleStorage_new AssetSizeMapping newItem cfg [b; b] mgr
                   true logger).1)
  = [b_id b; b_id b]
  ∧ ItemModuleStorage_validate AssetSizeMapping
      (ItemModuleStorage_new AssetSizeMapping newItem cfg [b; b] mgr true
         logger).1 isWorn
    = Failure ProblemInvalid.
Proof.
  intros Hid Hasset Hmax Hsize Hvalid.
  assert (Hids : map item_id
                   (contents (ItemModuleStorage_new AssetSizeMapping newItem
                                cfg [b; b] mgr true logger).1)
                 = [b_id b; b_id b]).
  { unfold ItemModuleStorage_new. cbn [foldl]. rewrite Hasset.
    pose proof (Hvalid logger) as Hv1. pose proof (Hid (b_id b) asset b logger) as Hi1.
    destruct (newItem (b_id b) asset b logger) as [item1 lg1].
    cbn [fst] in Hv1, Hi1. cbn [length app andb].
    assert (H0 : (Z.of_nat 0 >=? maxCount cfg) = false)
      by (rewrite Z.geb_leb; apply Z.leb_gt; lia).
    rewrite H0, Hsize, Hv1. cbn [success negb length app andb].
    pose proof (Hvalid lg1) as Hv2. pose proof (Hid (b_id b) asset b lg1) as Hi2.
    destruct (newItem (b_id b) asset b lg1) as [item2 lg2].
    cbn [fst] in Hv2, Hi2.
    assert (H1 : (Z.of_nat 1 >=? maxCount cfg) = false)
      by (rewrite Z.geb_leb; apply Z.leb_gt; lia).
    rewrite H1, Hv2. cbn [success negb andb fst contents app map].
    by rewrite Hi1, Hi2. }
  split; [exact Hids |].
  unfold ItemModuleStorage_validate, ValidateStorage.
  destruct (has_repeated_id ∅ _) eqn:Hrep; [reflexivity |].
  apply InventoryTheorems.has_repeated_id_NoDup in Hrep.
  rewrite Hids in Hrep. apply NoDup_cons in Hrep as [Hfresh _].
  exfalso. apply Hfresh. left.
Qed.

(** ** [setContents] and [getContents] *)

(** Without load-time cleanup the constructor keeps every item of exported
    contents, whatever the caps of the module are. *)
Lemma ItemModuleStorage_new_keeps_all
    (newItem : ItemId → Asset → ItemBundle → option Logger
               → Item * option Logger)
    (cfg : IModuleConfigStorage) (mgr : AssetManager) (cs : list Item) :
  Forall (λ c, getAssetById mgr (asset_id (item_asset c)) = Some (item_asset c)
               ∧ ∀ lg, (newItem (item_id c) (item_asset c)
                          (Item_exportToBundle c) lg).1 = c) cs →
  ∀ lg,
    (ItemModuleStorage_new AssetSizeMapping newItem cfg
       (map Item_exportToBundle cs) mgr false lg).1
    = mkStorage mgr cfg cs.
Proof.
  intros Hnew lg. unfold ItemModuleStorage_new.
  match goal with
  | |- context [foldl ?f (_, lg) _] =>
      assert (Hrun : ∀ cs' acc lg,
                Forall (λ c, c ∈ cs) cs' →
                (foldl f (acc, lg) (map Item_exportToBundle cs')).1 = acc ++ cs')
  end.
  { clear lg. induction cs' as [| c cs' IH]; intros acc lg Hin; simpl.
    - by rewrite app_nil_r.
    - apply Forall_cons in Hin as [Hc Hin].
      rewrite Forall_forall in Hnew.
      destruct (Hnew c Hc) as [Hasset Hitem].
      destruct (InventoryTheorems.export_id_asset c) as [Hbid [Hbasset _]].
      rewrite Hbid, Hbasset, Hasset.
      specialize (Hitem lg).
      destruct (newItem (item_id c) (item_asset c) (Item_exportToBundle c) lg)
        as [item lg'].
      simpl in Hitem. subst item.
      rewrite IH; [by rewrite <- app_assoc | exact Hin]. }
  specialize (Hrun cs [] lg).
  destruct (foldl _ _ _) as [content lg'].
  simpl in *. rewrite Hrun; [reflexivity |].
  apply Forall_forall. intros c Hc. exact Hc.
Qed.

Lemma Item_resolved_asset (mgr : AssetManager) (item : Item) :
  Item_resolved mgr item = true →
  getAssetById mgr (asset_id (item_asset item)) = Some (item_asset item).
Proof.
  destruct item as [id asset color modules]. simpl.
  rewrite !andb_true_iff, !bool_decide_eq_true. tauto.
Qed.

(** A resolved item is rebuilt from its own bundle when nothing is cleaned
    up, whether it validates or not. *)
Lemma Item_reload_as_is (mgr : AssetManager) (item : Item) :
  Item_resolved mgr item = true →
  ∀ logger,
    (Item_new AssetSizeMapping mgr false (item_id item) (item_asset item)
       (Item_exportToBundle item) logger).1 = item.
Proof.
  induction item as [id asset color modules IH]
    using InventoryTheorems.Item_nested_ind.
  intros Hres logger. rewrite InventoryTheorems.Item_new_unfold.
  destruct (InventoryTheorems.export_id_asset (mkItem id asset color modules))
    as [_ [_ [-> ->]]].
  simpl item_color. simpl item_modules. simpl item_id. simpl item_asset.
  simpl in Hres. rewrite !andb_true_iff, !bool_decide_eq_true in Hres.
  destruct Hres as [[[[Hasset Hnodup] Hnames] Hconfigs] Hmods].
  rewrite (InventoryTheorems.modules_of_asset _ _ Hnames Hconfigs).
  rewrite <- Hnames in Hnodup.
  set (stored := map (λ m : string * ItemModuleStorage,
                        (m.1, map Item_exportToBundle (contents m.2))) modules).
  assert (Hrun : ∀ ms acc lg,
            Forall (λ m, m ∈ modules) ms →
            (foldl (load_module_step AssetSizeMapping mgr false stored) (acc, lg)
               (map (λ m : string * ItemModuleStorage, (m.1, config m.2)) ms)).1
            = acc ++ ms).
  { induction ms as [| [name m] ms IHms]; intros acc lg Hin; simpl.
    - by rewrite app_nil_r.
    - apply Forall_cons in Hin as [Hm Hin].
      rewrite Forall_forall in IH.
      pose proof (IH _ Hm) as IHm. simpl in IHm.
      rewrite forallb_forall in Hmods.
      pose proof (Hmods (name, m)) as Hmod.
      rewrite <- list_elem_of_In in Hmod. specialize (Hmod Hm).
      simpl in Hmod. rewrite andb_true_iff, bool_decide_eq_true in Hmod.
      destruct Hmod as [Hmgr Hcontents].
      rewrite forallb_forall in Hcontents.
      unfold load_module_step at 2. simpl.
      rewrite (InventoryTheorems.lookup_module_NoDup name
                 (map Item_exportToBundle (contents m)) stored).
      + simpl. rewrite ItemModuleStorage_new_keeps_all.
        * replace (mkStorage mgr (config m) (contents m)) with m
            by (destruct m; simpl in *; congruence).
          rewrite IHms; [by rewrite <- app_assoc | exact Hin].
        * rewrite Forall_forall in IHm. apply Forall_forall.
          intros c Hc.
          assert (Hcres : Item_resolved mgr c = true)
            by (apply Hcontents, list_elem_of_In, Hc).
          split; [by apply Item_resolved_asset |].
          intros lg0. apply (IHm c Hc Hcres).
      + unfold stored. rewrite map_map. simpl. exact Hnodup.
      + unfold stored. apply list_elem_of_fmap. exists (name, m).
        split; [reflexivity | exact Hm]. }
  simpl. rewrite (Hrun modules [] logger); [reflexivity |].
  apply Forall_forall. intros m Hm. exact Hm.
Qed.

Lemma filter_known_exported (mgr : AssetManager) (items : list Item) :
  map b_id (filter (λ b, known_asset mgr b = true)
                   (map Item_exportToBundle items))
  = map item_id (filter (λ i, known_item mgr i = true) items).
Proof.
  induction items as [| i items IH]; [reflexivity |].
  cbn [map]. rewrite !filter_cons.
  destruct (InventoryTheorems.export_id_asset i) as [Hid [Hasset _]].
  assert (Hsame : known_asset mgr (Item_exportToBundle i) = known_item mgr i)
    by (unfold known_asset, known_item; by rewrite Hasset).
  destruct (known_item mgr i) eqn:Hknown.
  - rewrite decide_True by exact Hsame. rewrite decide_True by reflexivity.
    cbn [map]. by rewrite Hid, IH.
  - rewrite decide_False by (rewrite Hsame; discriminate).
    rewrite decide_False by discriminate. exact IH.
Qed.

(** X23.  [setContents] applies no limit of the module: the new module has
    the asset manager and the configuration of the old one, and its items
    have, in order, the ids of all the given items whose asset the manager
    of the module resolves, however many and however large they are. *)
Theorem setContents_ids (module : ItemModuleStorage) (items : AppearanceItems) :
  assetMananger (setContents AssetSizeMapping module items)
  = assetMananger module
  ∧ config (setContents AssetSizeMapping module items) = config module
  ∧ map item_id (getContents (setContents AssetSizeMapping module items))
    = map item_id
          (filter (λ i, known_item (assetMananger module) i = true) items).
Proof.
  unfold setContents, getContents.
  destruct (ItemModuleStorage_new_trace
              (Item_new AssetSizeMapping (assetMananger module) false)
              (config module) (map Item_exportToBundle items)
              (assetMananger module) false None _ eq_refl)
    as [Hmgr [Hcfg [kept [_ [Hall [Hfull _]]]]]].
  split; [exact Hmgr |]. split; [exact Hcfg |].
  rewrite (loaded_from_ids _ _ _ _ _ _
             (λ id asset b lg,
                proj1 (InventoryTheorems.Item_new_id_asset AssetSizeMapping
                         (assetMananger module) false id asset b lg)) Hall).
  rewrite (Hfull eq_refl). apply filter_known_exported.
Qed.

(** X24.  [setContents] stores exactly the items it is given when they are
    resolved against the asset manager of the module, whether the result
    validates or not; so putting back what [getContents] returned gives the
    module itself. *)
Theorem setContents_stores_items (module : ItemModuleStorage)
    (items : AppearanceItems) :
  forallb (Item_resolved (assetMananger module)) items = true →
  getContents (setContents AssetSizeMapping module items) = items
  ∧ (items = getContents module →
     setContents AssetSizeMapping module items = module).
Proof.
  intros Hres. unfold setContents, getContents.
  rewrite ItemModuleStorage_new_keeps_all.
  - split; [reflexivity |]. intros ->. by destruct module.
  - rewrite forallb_forall in Hres. apply Forall_forall. intros c Hc.
    assert (Hcres : Item_resolved (assetMananger module) c = true)
      by (apply Hres, list_elem_of_In, Hc).
    split; [by apply Item_resolved_asset |].
    intros lg. by apply Item_reload_as_is.
Qed.

(** ** Export and load *)

(** X25.  The data that [exportData] gives for a module that validates, and
    whose items are resolved against its asset manager, loads back to the
    module itself, with or without load-time cleanup: nothing is dropped
    and nothing is changed. *)
Theorem exportData_round_trip (module : ItemModuleStorage) (cleanup : bool)
    (logger : option Logger) :
  module_resolved module = true →
  ItemModuleStorage_validate AssetSizeMapping module false = Success →
  (ItemModuleStorage_new AssetSizeMapping
     (Item_new AssetSizeMapping (assetMananger module) cleanup)
     (config module)
     (parseData (Some (ItemModuleStorage_exportData Item_exportToBundle module)))
     (assetMananger module) cleanup logger).1
  = module.
Proof.
  intros Hres Hvalid. unfold module_resolved in Hres.
  rewrite forallb_forall in Hres.
  apply InventoryTheorems.ValidateStorage_success in Hvalid
    as [_ [Hcount [Hsize Hitems]]].
  unfold parseData, ItemModuleStorage_exportData.
  rewrite InventoryTheorems.ItemModuleStorage_new_keeps; try assumption.
  - by destruct module.
  - rewrite Forall_forall in Hitems. apply Forall_forall. intros c Hc.
    assert (Hcres : Item_resolved (assetMananger module) c = true)
      by (apply Hres, list_elem_of_In, Hc).
    split; [by apply Item_resolved_asset |].
    intros lg. apply InventoryTheorems.Item_reload; [exact Hcres |].
    exact (Hitems c Hc).
Qed.

(** With a well-formed asset manager, the items that [Item_new] builds are
    resolved against the manager. *)
Lemma Item_new_resolved (mgr : AssetManager) (cleanup : bool) :
  manager_well_formed mgr = true →
  ∀ bundle id aid asset logger,
    getAssetById mgr aid = Some asset →
    Item_resolved mgr
      (Item_new AssetSizeMapping mgr cleanup id asset bundle logger).1 = true.
Proof.
  intros Hwf. unfold manager_well_formed in Hwf.
  apply bool_decide_eq_true in Hwf.
  induction bundle as [bid basset color modules IH]
    using InventoryTheorems.ItemBundle_nested_ind.
  intros id aid asset logger Hasset.
  destruct (Hwf aid asset Hasset) as [Hid Hnodup].
  rewrite InventoryTheorems.Item_new_unfold. cbn [b_modules b_color fst].
  assert (Hrun : ∀ entries acc lg,
            ∃ ms, (foldl (load_module_step AssetSizeMapping mgr cleanup modules)
                     (acc, lg) entries).1 = acc ++ ms
                  ∧ map fst ms = map fst entries
                  ∧ map (λ m : string * ItemModuleStorage, config m.2) ms
                    = map snd entries
                  ∧ Forall (λ m : string * ItemModuleStorage,
                              assetMananger m.2 = mgr
                              ∧ Forall (λ c, Item_resolved mgr c = true)
                                       (contents m.2)) ms).
  { induction entries as [| [name cfg] entries IHentries]; intros acc lg.
    - exists []. rewrite app_nil_r. by repeat split.
    - cbn [foldl]. unfold load_module_step at 2. cbn [fst snd].
      destruct (ItemModuleStorage_new_trace
                  (Item_new AssetSizeMapping mgr cleanup) cfg
                  (parseData (lookup_module name modules)) mgr cleanup lg
                  _ eq_refl)
        as [Hmgr [Hcfg [kept [Hsub [Hall _]]]]].
      destruct (ItemModuleStorage_new AssetSizeMapping
                  (Item_new AssetSizeMapping mgr cleanup) cfg
                  (parseData (lookup_module name modules)) mgr cleanup lg)
        as [module lg'].
      cbn [fst snd] in *.
      destruct (IHentries (acc ++ [(name, module)]) lg')
        as [ms [Hms [Hnames [Hconfigs Hres]]]].
      exists ((name, module) :: ms).
      split; [by rewrite Hms, <- app_assoc |].
      split; [simpl; by rewrite Hnames |].
      split; [simpl; by rewrite Hcfg, Hconfigs |].
      constructor; [| exact Hres]. split; [exact Hmgr |]. cbn [snd].
      assert (Hdata : Forall (λ b, ∀ id aid asset logger,
                         getAssetById mgr aid = Some asset →
                         Item_resolved mgr
                           (Item_new AssetSizeMapping mgr cleanup id asset b
                              logger).1 = true) kept).
      { apply (sublist_Forall _ _ _ Hsub).
        eapply sublist_Forall; [apply sublist_filter |].
        destruct (lookup_module name modules) as [data |] eqn:Hlookup;
          [| constructor].
        apply InventoryTheorems.lookup_module_elem in Hlookup.
        rewrite Forall_forall in IH. specialize (IH _ Hlookup).
        exact IH. }
      clear Hsub. induction Hall as [| item b items kept' Hitem _ IHall];
        [constructor |].
      apply Forall_cons in Hdata as [Hb Hdata].
      constructor; [| by apply IHall].
      destruct Hitem as [asset' [lg0 [Hasset' [-> _]]]].
      exact (Hb _ _ _ _ Hasset'). }
  destruct (Hrun (asset_modules asset) [] logger)
    as [ms [-> [Hnames [Hconfigs Hres]]]].
  cbn [app Item_resolved].
  rewrite !andb_true_iff, !bool_decide_eq_true.
  split; [split; [split; [split |] |] |].
  - rewrite Hid. exact Hasset.
  - exact Hnodup.
  - exact Hnames.
  - exact Hconfigs.
  - apply forallb_forall. intros m Hm. apply list_elem_of_In in Hm.
    rewrite Forall_forall in Hres. destruct (Hres m Hm) as [Hmgr Hcs].
    rewrite andb_true_iff, bool_decide_eq_true. split; [exact Hmgr |].
    apply forallb_forall. intros c Hc. apply list_elem_of_In in Hc.
    rewrite Forall_forall in Hcs. exact (Hcs c Hc).
Qed.

Lemma loadItems_resolved (mgr : AssetManager) (bs : list ItemBundle)
    (logger : option Logger) :
  manager_well_formed mgr = true →
  Forall (λ i, Item_resolved mgr i = true)
         (loadItems AssetSizeMapping mgr bs logger).1.
Proof.
  intros Hwf. unfold loadItems.
  match goal with
  | |- context [foldl ?f (_, logger) bs] =>
      assert (Hrun : ∀ bs acc lg,
                Forall (λ i, Item_resolved mgr i = true) acc →
                Forall (λ i, Item_resolved mgr i = true)
                       (foldl f (acc, lg) bs).1)
  end.
  { clear bs. induction bs as [| b bs IH]; intros acc lg Hacc; simpl;
      [exact Hacc |].
    destruct (getAssetById mgr (b_asset b)) as [asset |] eqn:Hasset;
      [| by apply IH].
    pose proof (Item_new_resolved mgr true Hwf b (b_id b) _ asset lg Hasset)
      as Hitem.
    unfold createItem.
    destruct (Item_new AssetSizeMapping mgr true (b_id b) asset b lg)
      as [item lg'].
    apply IH. apply Forall_app. split; [exact Hacc |]. by constructor. }
  apply Hrun. constructor.
Qed.

(** X26.  Loading is idempotent.  With an asset manager that stores every
    asset under its own id and has no asset with two modules of one name,
    the state that [loadFromBundle] returns for a bundle is returned again
    when its own export is loaded: whatever the first load dropped or
    cleaned up, the second one changes nothing. *)
Theorem load_export_load (mgr : AssetManager) (bundle : RoomInventoryBundle)
    (logger logger2 : option Logger) :
  manager_well_formed mgr = true →
  ∃ s logger',
    loadFromBundle AssetSizeMapping mgr bundle logger = (Returned s, logger')
    ∧ ∃ logger2',
        loadFromBundle AssetSizeMapping mgr (exportToBundle s) logger2
        = (Returned s, logger2').
Proof.
  intros Hwf. unfold loadFromBundle at 1.
  pose proof (loadItems_resolved mgr (bundle_items bundle) logger Hwf) as Hres.
  destruct (loadItems AssetSizeMapping mgr (bundle_items bundle) logger)
    as [loadedItems lg1].
  cbn [fst] in Hres.
  destruct (InventoryTheorems.RoomInventoryLoadAndValidate_valid
              AssetSizeMapping mgr loadedItems lg1) as [Hvalid [Hsub _]].
  destruct (RoomInventoryLoadAndValidate AssetSizeMapping mgr loadedItems lg1)
    as [newItems lg2].
  cbn [fst] in Hvalid, Hsub.
  assert (Hok : isValid AssetSizeMapping (mkRoomState mgr newItems) = true).
  { unfold isValid, validate. cbn [assetManager items]. by rewrite Hvalid. }
  rewrite Hok. exists (mkRoomState mgr newItems), lg2.
  split; [reflexivity |].
  assert (Hres' : Forall (λ i, Item_resolved mgr i = true) newItems).
  { rewrite Forall_forall in Hres. apply Forall_forall.
    intros i Hi. exact (Hres i (Hsub i Hi)). }
  pose proof Hvalid as Hall.
  apply InventoryTheorems.ValidateRoomInventoryItems_success in Hall
    as [_ Hall].
  unfold loadFromBundle, exportToBundle. cbn [bundle_items items].
  pose proof (InventoryTheorems.loadItems_exported AssetSizeMapping mgr
                newItems logger2 Hres' Hall) as Hload.
  destruct (loadItems AssetSizeMapping mgr (map Item_exportToBundle newItems)
              logger2) as [reloaded lg3].
  cbn [fst] in Hload. subst reloaded.
  rewrite (InventoryTheorems.RoomInventoryLoadAndValidate_keeps
             AssetSizeMapping mgr newItems lg3 Hvalid).
  rewrite Hok. by exists lg3.
Qed.

End Storage.

(** ** The theorems at the sample inventory *)

Lemma ValidateStorage_submseteq_witness :
  [pen_item "i/3"] ⊆+ [pen_item "i/2"; pen_item "i/3"]
  ∧ ValidateStorage sample_sizes (Item_validate sample_sizes)
      [pen_item "i/2"; pen_item "i/3"] box_config = Success
  ∧ ValidateStorage sample_sizes (Item_validate sample_sizes)
      [pen_item "i/3"] box_config = Success.
Proof.
  assert (Hsub : [pen_item "i/3"] ⊆+ [pen_item "i/2"; pen_item "i/3"])
    by (apply submseteq_cons; reflexivity).
  assert (Hvalid : ValidateStorage sample_sizes (Item_validate sample_sizes)
                     [pen_item "i/2"; pen_item "i/3"] box_config = Success)
    by (vm_compute; reflexivity).
  split; [exact Hsub |]. split; [exact Hvalid |].
  exact (ValidateStorage_submseteq sample_sizes (Item_validate sample_sizes)
           _ _ box_config Hsub Hvalid).
Defined.

Lemma ItemModuleStorage_new_only_drops_witness :
  (∀ id asset b lg,
     item_id (Item_new sample_sizes sample_manager true id asset b lg).1 = id)
  ∧ map item_id
        (contents (ItemModuleStorage_new sample_sizes
                     (Item_new sample_sizes sample_manager true) box_config
                     [pen_bundle "i/2"; ghost_bundle "i/8"; crate_bundle "i/9"]
                     sample_manager true None).1)
      `sublist_of`
      map b_id (filter (λ b, known_asset sample_manager b = true)
                  [pen_bundle "i/2"; ghost_bundle "i/8"; crate_bundle "i/9"]).
Proof.
  assert (Hid : ∀ id asset b lg,
            item_id (Item_new sample_sizes sample_manager true id asset b lg).1
            = id)
    by (intros id asset b lg;
        apply (InventoryTheorems.Item_new_id_asset sample_sizes)).
  split; [exact Hid |].
  exact (proj1 (ItemModuleStorage_new_only_drops sample_sizes _ box_config
                  [pen_bundle "i/2"; ghost_bundle "i/8"; crate_bundle "i/9"]
                  sample_manager true None Hid)).
Defined.

Lemma validate_after_cleanup_witness :
  (∀ id asset b lg,
     item_id (Item_new sample_sizes sample_manager true id asset b lg).1 = id
     ∧ item_asset (Item_new sample_sizes sample_manager true id asset b lg).1
       = asset)
  ∧ 0 ≤ maxCount box_config
  ∧ NoDup (map b_id [pen_bundle "i/2"; crate_bundle "i/9"; pen_bundle "i/3";
                     pen_bundle "i/4"])
  ∧ ItemModuleStorage_validate sample_sizes
      (ItemModuleStorage_new sample_sizes
         (Item_new sample_sizes sample_manager true) box_config
         [pen_bundle "i/2"; crate_bundle "i/9"; pen_bundle "i/3";
          pen_bundle "i/4"] sample_manager true None).1 false
    = Success.
Proof.
  assert (Hnew : ∀ id asset b lg,
            item_id (Item_new sample_sizes sample_manager true id asset b lg).1
            = id
            ∧ item_asset
                (Item_new sample_sizes sample_manager true id asset b lg).1
              = asset)
    by (intros id asset b lg;
        apply (InventoryTheorems.Item_new_id_asset sample_sizes)).
  assert (Hmax : 0 ≤ maxCount box_config) by (simpl; lia).
  assert (Hnodup : NoDup (map b_id [pen_bundle "i/2"; crate_bundle "i/9";
                                    pen_bundle "i/3"; pen_bundle "i/4"]))
    by (apply (bool_decide_unpack _); vm_compute; exact I).
  split; [exact Hnew |]. split; [exact Hmax |]. split; [exact Hnodup |].
  exact (proj2 (validate_after_cleanup sample_sizes _ box_config _
                  sample_manager None false Hnew Hmax) Hnodup).
Defined.

Lemma cleanup_keeps_repeated_ids_witness :
  (∀ id asset b lg,
     item_id (Item_new sample_sizes sample_manager true id asset b lg).1 = id)
  ∧ getAssetById sample_manager (b_asset (pen_bundle "i/7")) = Some pen
  ∧ 2 ≤ maxCount box_config
  ∧ ItemModuleStorage_validate sample_sizes
      (ItemModuleStorage_new sample_sizes
         (Item_new sample_sizes sample_manager true) box_config
         [pen_bundle "i/7"; pen_bundle "i/7"] sample_manager true None).1 false
    = Failure ProblemInvalid.
Proof.
  assert (Hid : ∀ id asset b lg,
            item_id (Item_new sample_sizes sample_manager true id asset b lg).1
            = id)
    by (intros id asset b lg;
        apply (InventoryTheorems.Item_new_id_asset sample_sizes)).
  assert (Hasset : getAssetById sample_manager (b_asset (pen_bundle "i/7"))
                   = Some pen) by (vm_compute; reflexivity).
  assert (Hmax : 2 ≤ maxCount box_config) by (simpl; lia).
  split; [exact Hid |]. split; [exact Hasset |]. split; [exact Hmax |].
  refine (proj2 (cleanup_keeps_repeated_ids sample_sizes _ box_config
                   (pen_bundle "i/7") pen sample_manager None false
                   Hid Hasset Hmax _ _)).
  - vm_compute. reflexivity.
  - intros lg. reflexivity.
Defined.

Lemma setContents_stores_items_witness :
  forallb (Item_resolved sample_manager)
    [pen_item "i/2"; pen_item "i/3"; crate_item "i/9"] = true
  ∧ getContents
      (setContents sample_sizes (mkStorage sample_manager box_config [])
         [pen_item "i/2"; pen_item "i/3"; crate_item "i/9"])
    = [pen_item "i/2"; pen_item "i/3"; crate_item "i/9"].
Proof.
  assert (Hres : forallb (Item_resolved sample_manager)
                   [pen_item "i/2"; pen_item "i/3"; crate_item "i/9"] = true)
    by (vm_compute; reflexivity).
  split; [exact Hres |].
  exact (proj1 (setContents_stores_items sample_sizes
                  (mkStorage sample_manager box_config []) _ Hres)).
Defined.

Lemma exportData_round_trip_witness :
  module_resolved
    (mkStorage sample_manager box_config [pen_item "i/2"; pen_item "i/3"])
  = true
  ∧ ItemModuleStorage_validate sample_sizes
      (mkStorage sample_manager box_config [pen_item "i/2"; pen_item "i/3"])
      false = Success
  ∧ (ItemModuleStorage_new sample_sizes
       (Item_new sample_sizes sample_manager true) box_config
       (parseData
          (Some (ItemModuleStorage_exportData Item_exportToBundle
                   (mkStorage sample_manager box_config
                      [pen_item "i/2"; pen_item "i/3"]))))
       sample_manager true (Some [])).1
    = mkStorage sample_manager box_config [pen_item "i/2"; pen_item "i/3"].
Proof.
  assert (Hres : module_resolved
                   (mkStorage sample_manager box_config
                      [pen_item "i/2"; pen_item "i/3"]) = true)
    by (vm_compute; reflexivity).
  assert (Hvalid : ItemModuleStorage_validate sample_sizes
                     (mkStorage sample_manager box_config
                        [pen_item "i/2"; pen_item "i/3"]) false = Success)
    by (vm_compute; reflexivity).
  split; [exact Hres |]. split; [exact Hvalid |].
  exact (exportData_round_trip sample_sizes _ true (Some []) Hres Hvalid).
Defined.

Lemma load_export_load_witness :
  manager_well_formed sample_manager = true
  ∧ ∃ s logger',
      loadFromBundle sample_sizes sample_manager messy_bundle (Some [])
      = (Returned s, logger')
      ∧ ∃ logger2',
          loadFromBundle sample_sizes sample_manager (exportToBundle s) None
          = (Returned s, logger2').
Proof.
  assert (Hwf : manager_well_formed sample_manager = true)
    by (vm_compute; reflexivity).
  split; [exact Hwf |].
  exact (load_export_load sample_sizes sample_manager messy_bundle (Some [])
           None Hwf).
Defined.

End InventoryExtras.

Module PropertiesExtras.
Import AppearanceLimit Properties PropertiesSamples.

Section Merging.
Context `{Schemas} `{Effects} `{Amounts}.

Lemma add_each_elem (set : gset string) (values : option (list string))
    (a : string) :
  a ∈ add_each set values
  ↔ a ∈ set ∨ ∃ l, values = Some l ∧ a ∈ l.
Proof.
  destruct values as [l |]; simpl.
  - revert set. induction l as [| x l IH]; intros set; simpl.
    + split; [by left |]. intros [Ha | [l' [[= <-] Ha]]]; [exact Ha |].
      by apply elem_of_nil in Ha.
    + rewrite IH, elem_of_union, elem_of_singleton. split.
      * intros [[-> | Ha] | [l' [[= <-] Ha]]].
        -- right. exists (x :: l). split; [reflexivity | left].
        -- by left.
        -- right. exists (x :: l). split; [reflexivity | by right].
      * intros [Ha | [l' [[= <-] Ha]]]; [left; by right |].
        apply elem_of_cons in Ha as [-> | Ha]; [left; by left |].
        right. by exists l.
  - split; [by left |]. by intros [Ha | [l [? _]]].
Qed.

(** The sets of a result after a sequence of merges: what the base had and
    what the properties list. *)
Lemma add_each_foldl {R : Type} (get : R → gset string)
    (field : AssetProperties → option (list string))
    (step : R → AssetProperties → R) :
  (∀ r p, get (step r p) = add_each (get r) (field p)) →
  ∀ ps base a,
    a ∈ get (foldl step base ps)
    ↔ a ∈ get base ∨ ∃ p l, p ∈ ps ∧ field p = Some l ∧ a ∈ l.
Proof.
  intros Hstep. induction ps as [| p ps IH]; intros base a; simpl.
  - split; [by left |]. intros [Ha | [p [l [Hp _]]]]; [exact Ha |].
    by apply elem_of_nil in Hp.
  - rewrite IH, Hstep, add_each_elem. split.
    + intros [[Ha | [l [Hl Ha]]] | [p' [l [Hp' Hl]]]].
      * by left.
      * right. exists p, l. split; [left | by split].
      * right. exists p', l. split; [by right | exact Hl].
    + intros [Ha | [p' [l [Hp' [Hl Ha]]]]]; [left; by left |].
      apply elem_of_cons in Hp' as [-> | Hp'].
      * left. right. by exists l.
      * right. by exists p', l.
Qed.

Lemma occupy_each_lookup (occupied : gmap string Amount)
    (occupySlots : option (gmap string (option Amount))) (slot : string) :
  occupy_each occupied occupySlots !! slot
  = match default ∅ occupySlots !! slot with
    | Some amount =>
        Some (amount_add (default amount_zero (occupied !! slot))
                         (default amount_zero amount))
    | None => occupied !! slot
    end.
Proof.
  unfold occupy_each. revert slot.
  apply (map_fold_weak_ind (λ (r : gmap string Amount)
                              (m : gmap string (option Amount)),
           ∀ slot, r !! slot
                   = match m !! slot with
                     | Some amount =>
                         Some (amount_add (default amount_zero (occupied !! slot))
                                          (default amount_zero amount))
                     | None => occupied !! slot
                     end)).
  - intros slot. by rewrite lookup_empty.
  - intros k amount m r Hfresh IH slot.
    destruct (decide (k = slot)) as [-> | Hne].
    + rewrite !lookup_insert_eq. by rewrite (IH slot), Hfresh.
    + rewrite !lookup_insert_ne by exact Hne. apply IH.
Qed.

(** X27.  Merging collects: after any sequence of [MergeAssetProperties]
    calls the attributes, the hidden attributes and the covered and blocked
    slots of the result are those of the base together with all that the
    merged properties list; nothing is ever removed, and the order of the
    merges does not matter for them. *)
Theorem MergeAssetProperties_collects (ps : list AssetProperties)
    (base : AssetPropertiesResult) (a : string) :
  (a ∈ attributes (foldl MergeAssetProperties base ps)
   ↔ a ∈ attributes base
     ∨ ∃ p l, p ∈ ps ∧ p_attributes p = Some l ∧ a ∈ l)
  ∧ (a ∈ hides (foldl MergeAssetProperties base ps)
     ↔ a ∈ hides base ∨ ∃ p l, p ∈ ps ∧ p_hides p = Some l ∧ a ∈ l)
  ∧ (a ∈ covered (slots (foldl MergeAssetProperties base ps))
     ↔ a ∈ covered (slots base)
       ∨ ∃ p l, p ∈ ps ∧ p_coverSlots p = Some l ∧ a ∈ l)
  ∧ (a ∈ blocked (slots (foldl MergeAssetProperties base ps))
     ↔ a ∈ blocked (slots base)
       ∨ ∃ p l, p ∈ ps ∧ p_blockSlots p = Some l ∧ a ∈ l).
Proof.
  split; [| split; [| split]].
  - by apply (add_each_foldl attributes p_attributes).
  - by apply (add_each_foldl hides p_hides).
  - by apply (add_each_foldl (λ r, covered (slots r)) p_coverSlots).
  - by apply (add_each_foldl (λ r, blocked (slots r)) p_blockSlots).
Qed.

(** X28.  The occupied slots after one merge: a slot that the properties
    list is occupied by what the base had there (nothing counts as [0]) plus
    the listed amount (no amount counts as [0]), so a slot listed with
    amount [0] is entered too; every other slot is as in the base. *)
Theorem MergeAssetProperties_occupied (base : AssetPropertiesResult)
    (properties : AssetProperties) (slot : string) :
  occupied (slots (MergeAssetProperties base properties)) !! slot
  = match default ∅ (p_occupySlots properties) !! slot with
    | Some amount =>
        Some (amount_add (default amount_zero (occupied (slots base) !! slot))
                         (default amount_zero amount))
    | None => occupied (slots base) !! slot
    end.
Proof. apply occupy_each_lookup. Qed.

Lemma MergeAssetProperties_limits_run (ps : list AssetProperties)
    (base : AssetPropertiesResult) :
  limits (foldl MergeAssetProperties base ps)
  = merge_all (limits base) (map p_poseLimits ps).
Proof.
  revert base. induction ps as [| p ps IH]; intros base; [reflexivity |].
  cbn [foldl map]. rewrite IH. reflexivity.
Qed.

(** X29.  [MergeAssetProperties] does not look at the result of
    [limits.merge]: once the limits of the base are invalid, every further
    merge leaves them as they are, invalid, while the rest of the properties
    is collected as before. *)
Theorem MergeAssetProperties_invalid_limits (ps : list AssetProperties)
    (base : AssetPropertiesResult) :
  valid (limits base) = false →
  limits (foldl MergeAssetProperties base ps) = limits base
  ∧ valid (limits (foldl MergeAssetProperties base ps)) = false
  ∧ ∀ a, a ∈ attributes (foldl MergeAssetProperties base ps)
         ↔ a ∈ attributes base
           ∨ ∃ p l, p ∈ ps ∧ p_attributes p = Some l ∧ a ∈ l.
Proof.
  intros Hinvalid.
  assert (Hsame : limits (foldl MergeAssetProperties base ps) = limits base).
  { rewrite MergeAssetProperties_limits_run.
    by apply LimitTheorems.merge_all_invalid. }
  split; [exact Hsame |]. split; [by rewrite Hsame |].
  intros a. by apply (add_each_foldl attributes p_attributes).
Qed.

(** X30.  The block flags of an individual result are never reset: after
    any sequence of [MergeAssetPropertiesIndividual] calls a flag is set
    exactly when the base had it set or one of the merged properties sets
    it; the part shared with [AssetPropertiesResult] is what
    [MergeAssetProperties] makes of it. *)
Theorem MergeAssetPropertiesIndividual_flags (ps : list AssetProperties)
    (base : AssetPropertiesIndividualResult) :
  blockAddRemove (foldl MergeAssetPropertiesIndividual base ps)
  = blockAddRemove base
    || existsb (λ p, default false (p_blockAddRemove p)) ps
  ∧ blockSelfAddRemove (foldl MergeAssetPropertiesIndividual base ps)
    = blockSelfAddRemove base
      || existsb (λ p, default false (p_blockSelfAddRemove p)) ps
  ∧ common (foldl MergeAssetPropertiesIndividual base ps)
    = foldl MergeAssetProperties (common base) ps.
Proof.
  revert base. induction ps as [| p ps IH]; intros base.
  - simpl. by rewrite !orb_false_r.
  - cbn [foldl existsb].
    destruct (IH (MergeAssetPropertiesIndividual base p)) as [-> [-> ->]].
    cbn [MergeAssetPropertiesIndividual blockAddRemove blockSelfAddRemove
         common].
    by rewrite !orb_assoc.
Qed.

End Merging.

#[local] Existing Instance LimitSamples.sample_schemas.
#[local] Existing Instance sample_effects.
#[local] Existing Instance sample_amounts.

Lemma MergeAssetProperties_invalid_limits_witness :
  valid (limits broken_result) = false
  ∧ limits (foldl MergeAssetProperties broken_result [glove; glove])
    = limits broken_result.
Proof.
  assert (Hinvalid : valid (limits broken_result) = false) by reflexivity.
  split; [exact Hinvalid |].
  exact (proj1 (MergeAssetProperties_invalid_limits [glove; glove]
                  broken_result Hinvalid)).
Defined.

End PropertiesExtras.

(** * Loading with cleanup *)

Module LoadTheorems.
Import Inventory InventoryPredicates InventoryExtraPredicates BundleSchema
  LoadPredicates InventorySamples LoadSamples.

Section Loading.
Variable AssetSizeMapping : AssetSize → option Z.

(** ** The loaded items do not depend on the logger *)





(** ** What the constructor keeps under load-time cleanup *)



(** ** Every item that is dropped is reported *)

Lemma reports_refl (logger : option Logger) : reports logger logger 0.
Proof. intros written ->. exists written. split; [reflexivity | lia]. Qed.

Lemma logger_extends_length (before after : option Logger)
    (written written' : Logger) :
  logger_extends before after → before = Some written →
  after = Some written' → (length written ≤ length written')%nat.
Proof.
  intros Hext -> ->. simpl in Hext. by apply prefix_length.
Qed.






(** ** The two loops of [loadFromBundle] *)






(** ** The item that a load makes of a bundle *)


(** ** [loadFromBundle] *)


(** [ItemBundleSchema] is declared outside the modules embedded here. *)
Variable ItemBundleSchema_parse : Unknown → option ItemBundle.


End Loading.

(** Loading [raw_room]: the data pass the schema; the box keeps the two
    pens that fit, the items that cannot be loaded or do not validate are
    left out with a warning each, and the load returns. *)
Example loadFromBundle_raw_room :
  loadFromBundle_unknown sample_sizes sample_ItemBundleSchema sample_manager
    raw_room (Some [])
  = (Returned (mkRoomState sample_manager
                 [box_item "i/1" [pen_item "i/2"; pen_item "i/3"];
                  pen_item "i/10"]),
     Some ["Skipping stored item over size limit a/crate";
           "Skipping unknown asset a/ghost";
           "Skipping stored item over count limit a/pen";
           "Skipping unknown asset a/ghost";
           "Skipping invalid item i/1"]).
Proof. vm_compute. reflexivity. Qed.


End LoadTheorems.
